(** * Binary calculator (Arduino sketch): expression engine

    A shallow embedding of the expression engine of [sketch.ino]:
    the binary decoder [bin2Dec], the lexer [lexify], the shunting-yard
    translator and RPN evaluator of [interpretTokens], the entry point
    [parseAndEvaluate], the preview [displayInDecimal] and the validator
    [isValidExpression]; and of its input side: the text conversions
    [convertBCD] and [convertToBinary], the key handler
    [handleButtonPress], the edge detection [isButtonPressed] and one pass
    of [loop], with the serial port and the display as a list of events.

    Conventions of the embedding.
    - [long] is the 32-bit two's-complement integer of the Arduino targets;
      a value is a [Z] inside [-2^31, 2^31) and every arithmetic result is
      brought back into that range by [wrap32].
    - [char] is an [ascii]; an Arduino [String] is a Rocq [string].
    - [int] loop counters and the parenthesis counter of the validator are
      bounded by the length of the text they scan and are kept as
      unbounded numbers.
    - An integer division whose divisor is zero has no result in C++, and
      neither has the one division whose quotient does not fit a [long],
      [LONG_MIN / -1]; the evaluator's outcome is then [DivByZeroUB]. *)

From Stdlib Require Import ZArith Bool List Ascii String Lia.
From Stdlib Require Import DecimalString DecimalPos DecimalZ.
Import ListNotations.

Local Open Scope Z_scope.

(* ------------------------------------------------------------------ *)
(** ** The 32-bit [long] *)

Module Long.

Definition min_signed : Z := - 2 ^ 31.
Definition max_signed : Z := 2 ^ 31 - 1.

(** Two's-complement reduction into [-2^31, 2^31). *)
Definition wrap32 (z : Z) : Z := (z + 2 ^ 31) mod 2 ^ 32 - 2 ^ 31.

Definition in_range (z : Z) : Prop := min_signed <= z <= max_signed.

Definition add (a b : Z) : Z := wrap32 (a + b).
Definition sub (a b : Z) : Z := wrap32 (a - b).
Definition mul (a b : Z) : Z := wrap32 (a * b).
Definition neg (a : Z) : Z := wrap32 (- a).

(** [a / b] of C++ truncates toward zero; only called with [b <> 0] and
    not for [LONG_MIN / -1]. *)
Definition div (a b : Z) : Z := wrap32 (Z.quot a b).

(** [a << n] *)
Definition shl (a : Z) (n : Z) : Z := wrap32 (Z.shiftl a n).

(** [a | b] on values in range stays in range. *)
Definition lor (a b : Z) : Z := wrap32 (Z.lor a b).

End Long.

(** [#define BAD_RESULT -(1L << 31)] *)
Definition BAD_RESULT : Z := Long.neg (Long.shl 1 31).

(** [1L << 30], the offset added to an operator character in the queue. *)
Definition OP_OFFSET : Z := Long.shl 1 30.

(* ------------------------------------------------------------------ *)
(** ** Characters *)

Definition char_eqb (a b : ascii) : bool := Ascii.eqb a b.

(** [static_cast<long>(c)] for the (signed, 8-bit) [char] of the AVR
    targets. *)
Definition long_of_char (c : ascii) : Z :=
  let n := Z.of_N (N_of_ascii c) in
  if n <? 128 then n else n - 256.

(** [static_cast<char>(x)]: the low eight bits. *)
Definition char_of_long (x : Z) : ascii :=
  ascii_of_N (Z.to_N (x mod 256)).

Definition isBinaryDigit (c : ascii) : bool :=
  char_eqb c "0" || char_eqb c "1".

(** [ch == '(' || ch == ')' || ch == '+' || ch == '-' || ch == '*' || ch == '/'] *)
Definition isSymbolChar (ch : ascii) : bool :=
  char_eqb ch "(" || char_eqb ch ")" || char_eqb ch "+" ||
  char_eqb ch "-" || char_eqb ch "*" || char_eqb ch "/".

(** [c == '+' || c == '-' || c == '*' || c == '/'] *)
Definition isOperatorChar (c : ascii) : bool :=
  char_eqb c "+" || char_eqb c "-" || char_eqb c "*" || char_eqb c "/".

(* ------------------------------------------------------------------ *)
(** ** Tokens *)

(** [struct TokenNode { String tokenValue; bool isBinary; }] *)
Record TokenNode : Type := mkTokenNode {
  tokenValue : string;
  isBinary : bool
}.

(* ------------------------------------------------------------------ *)
(** ** 3) Binary decoder *)

(** The body of the [for] loop of [bin2Dec], from position [i] on, with
    the accumulator [value]. *)
Fixpoint bin2Dec_loop (binaryStr : string) (value : Z) : Z :=
  match binaryStr with
  | EmptyString => value
  | String c rest =>
      if char_eqb c "0" then bin2Dec_loop rest (Long.shl value 1)
      else if char_eqb c "1" then
        bin2Dec_loop rest (Long.lor (Long.shl value 1) 1)
      else -1
  end.

Definition bin2Dec (binaryStr : string) : Z := bin2Dec_loop binaryStr 0.

(* ------------------------------------------------------------------ *)
(** ** 4) Lexer *)

Definition TOKEN_CAP : nat := 100.

(** The inner [while] of [lexify]: accumulate the run of binary digits at
    the current position; returns [number] and the text left after it. *)
Fixpoint takeBinary (expr : string) : string * string :=
  match expr with
  | EmptyString => (EmptyString, EmptyString)
  | String c rest =>
      if isBinaryDigit c then
        let (number, rest') := takeBinary rest in (String c number, rest')
      else (EmptyString, expr)
  end.

(** The outer [while] of [lexify].  [expr] is the text from position [i]
    on, [tokenNodes] the tokens stored so far ([tokCount] is their number).
    Every iteration advances [i]; [fuel] bounds the iterations. *)
Fixpoint lexify_loop (fuel : nat) (expr : string) (tokenNodes : list TokenNode)
  : list TokenNode :=
  match fuel with
  | O => tokenNodes
  | S fuel' =>
      match expr with
      | EmptyString => tokenNodes
      | String ch rest =>
          if (TOKEN_CAP <=? List.length tokenNodes)%nat then tokenNodes
          else if isBinaryDigit ch then
            let (number, rest') := takeBinary expr in
            lexify_loop fuel' rest' (tokenNodes ++ [mkTokenNode number true])
          else if isSymbolChar ch then
            lexify_loop fuel' rest
              (tokenNodes ++ [mkTokenNode (String ch EmptyString) false])
          else lexify_loop fuel' rest tokenNodes
      end
  end.

Definition lexify (expr : string) : list TokenNode :=
  lexify_loop (String.length expr) expr [].

(* ------------------------------------------------------------------ *)
(** ** The bounded containers of the Arduino libraries *)

(** Modelled from the spec: the class [SimpleStack<T>] of the library
    header [SimpleStack.h], which the sketch includes and which is not part
    of the repository.  The spec gives the stacks a fixed depth bound of 64;
    the model is a list (top first) of at most [capacity] items: [push] on
    a full stack leaves it as it is and reports [false], [pop] and [peek]
    on an empty stack report [false].  The sketch ignores the result of
    [push] everywhere, so [push] returns the stack only. *)
Module SimpleStack.
Section Ops.
Context {T : Type}.

Definition capacity : nat := 64.

Definition isEmpty (s : list T) : bool :=
  match s with [] => true | _ => false end.

Definition push (item : T) (s : list T) : list T :=
  if (List.length s <? capacity)%nat then item :: s else s.

Definition peek (s : list T) : option T :=
  match s with top :: _ => Some top | [] => None end.

Definition pop (s : list T) : option (T * list T) :=
  match s with top :: below => Some (top, below) | [] => None end.

(** [s.pop(&x)] as a statement, its result ignored. *)
Definition pop_ (s : list T) : list T :=
  match pop s with Some (_, below) => below | None => s end.

End Ops.
End SimpleStack.

(** Modelled from the spec: the class [ArduinoQueue<T>] of the library
    header [ArduinoQueue.h], not part of the repository.  A list (head
    first) of at most [capacity] = 64 items; [enqueue] on a full queue
    leaves it as it is, and the sketch ignores its result. *)
Module ArduinoQueue.
Section Ops.
Context {T : Type}.

Definition capacity : nat := 64.

Definition isEmpty (q : list T) : bool :=
  match q with [] => true | _ => false end.

Definition enqueue (item : T) (q : list T) : list T :=
  if (List.length q <? capacity)%nat then q ++ [item] else q.

End Ops.
End ArduinoQueue.

(* ------------------------------------------------------------------ *)
(** ** 5) Shunting-yard translation and RPN evaluation *)

Definition getOperatorPrecedence (op : ascii) : Z :=
  if char_eqb op "+" || char_eqb op "-" then 1
  else if char_eqb op "*" || char_eqb op "/" then 2
  else 0.

(** What a call of the sketch's arithmetic produces: a [long], or nothing
    defined when an integer division has a zero divisor or, for
    [LONG_MIN / -1], a quotient that is no [long]. *)
Inductive outcome : Type :=
| Return (v : Z)
| DivByZeroUB.

Definition executeOperation (a b : Z) (op : ascii) : outcome :=
  if char_eqb op "+" then Return (Long.add a b)
  else if char_eqb op "-" then Return (Long.sub a b)
  else if char_eqb op "*" then Return (Long.mul a b)
  else if char_eqb op "/" then
    (if (b =? 0) || ((a =? Long.min_signed) && (b =? -1)) then DivByZeroUB
     else Return (Long.div a b))
  else Return BAD_RESULT.

(** [tokens[i].tokenValue[0]]; indexing an Arduino [String] past its end
    reads the character 0. *)
Definition firstChar (s : string) : ascii :=
  match s with
  | String c _ => c
  | EmptyString => Ascii.zero
  end.

(** [static_cast<long>(op) + (1L << 30)] *)
Definition operatorCode (op : ascii) : Z := Long.add (long_of_char op) OP_OFFSET.

(** State of the translation: the operator stack and the output queue. *)
Definition shunt_state : Type := (list ascii * list Z)%type.

(** [while (operatorStack.peek(&topOp) && topOp != '(') { pop; enqueue }] *)
Fixpoint popUntilOpen (operatorStack : list ascii) (outputQueue : list Z)
  : shunt_state :=
  match operatorStack with
  | [] => ([], outputQueue)
  | topOp :: below =>
      if negb (char_eqb topOp "(") then
        popUntilOpen below (ArduinoQueue.enqueue (operatorCode topOp) outputQueue)
      else (operatorStack, outputQueue)
  end.

(** [while (!isEmpty() && peek(&topOp) && topOp != '(' &&
            getOperatorPrecedence(topOp) >= getOperatorPrecedence(currentOp))
       { pop; enqueue }] *)
Fixpoint popHigher (currentOp : ascii) (operatorStack : list ascii)
  (outputQueue : list Z) : shunt_state :=
  match operatorStack with
  | [] => ([], outputQueue)
  | topOp :: below =>
      if negb (char_eqb topOp "(") &&
         (getOperatorPrecedence currentOp <=? getOperatorPrecedence topOp) then
        popHigher currentOp below
          (ArduinoQueue.enqueue (operatorCode topOp) outputQueue)
      else (operatorStack, outputQueue)
  end.

(** One iteration of the [for] loop over the tokens. *)
Definition shuntToken (st : shunt_state) (tok : TokenNode) : shunt_state :=
  let (operatorStack, outputQueue) := st in
  if isBinary tok then
    let number := bin2Dec (tokenValue tok) in
    (operatorStack, ArduinoQueue.enqueue number outputQueue)
  else
    let currentOp := firstChar (tokenValue tok) in
    if char_eqb currentOp "(" then
      (SimpleStack.push currentOp operatorStack, outputQueue)
    else if char_eqb currentOp ")" then
      let (operatorStack', outputQueue') :=
        popUntilOpen operatorStack outputQueue in
      (SimpleStack.pop_ operatorStack', outputQueue')
    else
      let (operatorStack', outputQueue') :=
        popHigher currentOp operatorStack outputQueue in
      (SimpleStack.push currentOp operatorStack', outputQueue').

(** [while (!operatorStack.isEmpty()) { pop(&poppedOp); enqueue }] *)
Fixpoint drainOperators (operatorStack : list ascii) (outputQueue : list Z)
  : list Z :=
  match operatorStack with
  | [] => outputQueue
  | poppedOp :: below =>
      drainOperators below
        (ArduinoQueue.enqueue (operatorCode poppedOp) outputQueue)
  end.

(** The translation part of [interpretTokens]: the queue in RPN order. *)
Definition toRPN (tokens : list TokenNode) : list Z :=
  let (operatorStack, outputQueue) := fold_left shuntToken tokens ([], []) in
  drainOperators operatorStack outputQueue.

(** The last lines of [interpretTokens]: exactly one value must be left. *)
Definition finalResult (evaluationStack : list Z) : outcome :=
  match evaluationStack with
  | [result] => Return result
  | _ => Return BAD_RESULT
  end.

(** [while (!outputQueue.isEmpty())]: each iteration removes the head. *)
Fixpoint evalRPN (outputQueue : list Z) (evaluationStack : list Z) : outcome :=
  match outputQueue with
  | [] => finalResult evaluationStack
  | token :: rest =>
      if OP_OFFSET <? token then
        let op := char_of_long (Long.sub token OP_OFFSET) in
        match evaluationStack with
        | operand2 :: operand1 :: below =>
            match executeOperation operand1 operand2 op with
            | Return result =>
                if result =? BAD_RESULT then Return BAD_RESULT
                else evalRPN rest (SimpleStack.push result below)
            | DivByZeroUB => DivByZeroUB
            end
        | _ => Return BAD_RESULT
        end
      else evalRPN rest (SimpleStack.push token evaluationStack)
  end.

Definition interpretTokens (tokens : list TokenNode) : outcome :=
  evalRPN (toRPN tokens) [].

(* ------------------------------------------------------------------ *)
(** ** 6) Entry point *)

Definition parseAndEvaluate (expr : string) : outcome :=
  if (String.length expr =? 0)%nat then Return BAD_RESULT
  else
    let tokens := lexify expr in
    if (List.length tokens =? 0)%nat then Return BAD_RESULT
    else interpretTokens tokens.

(* ------------------------------------------------------------------ *)
(** ** 7) Decimal preview *)

(** [String(long)]: the decimal text of a number. *)
Definition String_of_long (v : Z) : string :=
  NilZero.string_of_int (Z.to_int v).

(** One iteration of the [for] loop of [displayInDecimal]. *)
Definition displayToken (output : string) (tok : TokenNode) : string :=
  let output :=
    if isBinary tok then
      let decimalValue := bin2Dec (tokenValue tok) in
      if 0 <=? decimalValue then (output ++ String_of_long decimalValue)%string
      else (output ++ "?")%string
    else (output ++ tokenValue tok)%string in
  (output ++ " ")%string.

Definition displayInDecimal (expr : string) : string :=
  fold_left displayToken (lexify expr) EmptyString.

(* ------------------------------------------------------------------ *)
(** ** 8) What the caller reports *)

(** The line [handleButtonPress] prints on the serial port for the result
    of [parseAndEvaluate]: the error line when the result is the sentinel,
    the number otherwise. *)
Definition resultLine (result : Z) : string :=
  if result =? BAD_RESULT then "RESULT:ERROR"%string
  else ("RESULT:" ++ String_of_long result)%string.

(* ------------------------------------------------------------------ *)
(** ** 12) Validator *)

(** [expr[expr.length() - 1]] of a non-empty text. *)
Fixpoint lastChar (expr : string) : ascii :=
  match expr with
  | EmptyString => Ascii.zero
  | String c EmptyString => c
  | String _ rest => lastChar rest
  end.

(** The checks of one iteration against the character before it. *)
Definition badTransition (previous current : ascii) : bool :=
  (isOperatorChar previous && isOperatorChar current)
  || ((char_eqb previous "0" || char_eqb previous "1" || char_eqb previous ")")
      && char_eqb current "(")
  || (char_eqb previous ")"
      && (char_eqb current "0" || char_eqb current "1" || char_eqb current "("))
  || ((char_eqb current "*" || char_eqb current "/") && char_eqb previous "(").

(** The [for] loop of [isValidExpression] from position [i] on;
    [previous] is [expr[i - 1]] when [i > 0]. *)
Fixpoint validate_loop (previous : option ascii) (openBrackets : Z)
  (expr : string) : bool :=
  match expr with
  | EmptyString => openBrackets =? 0
  | String current rest =>
      let openBrackets :=
        if char_eqb current "(" then openBrackets + 1 else openBrackets in
      let openBrackets :=
        if char_eqb current ")" then openBrackets - 1 else openBrackets in
      if openBrackets <? 0 then false
      else
        match previous with
        | Some previous' =>
            if badTransition previous' current then false
            else validate_loop (Some current) openBrackets rest
        | None => validate_loop (Some current) openBrackets rest
        end
  end.

Definition isValidExpression (expr : string) : bool :=
  if (String.length expr =? 0)%nat then false
  else
    let firstChar := firstChar expr in
    if char_eqb firstChar "+" || char_eqb firstChar "*" || char_eqb firstChar "/"
    then false
    else
      let lastChar := lastChar expr in
      if isOperatorChar lastChar then false
      else validate_loop None 0 expr.

(* ================================================================== *)
(** * Reference notions used to state the properties *)

Local Open Scope string_scope.
Local Open Scope Z_scope.

(** Every character of the text is ['0'] or ['1']. *)
Fixpoint allBinary (s : string) : bool :=
  match s with
  | EmptyString => true
  | String c rest => isBinaryDigit c && allBinary rest
  end.

Definition digitValue (c : ascii) : Z := if char_eqb c "1" then 1 else 0.

(** The value of a big-endian binary numeral: the first character is the
    most significant digit. *)
Fixpoint binaryValue (s : string) : Z :=
  match s with
  | EmptyString => 0
  | String c rest =>
      digitValue c * 2 ^ Z.of_nat (String.length rest) + binaryValue rest
  end.

(** The lexer as the specification words it, without a bound on the
    number of tokens: a maximal run of binary digits is one operand token,
    each of [( ) + - * /] is one symbol token, any other character is
    skipped. *)
Fixpoint tokenize (input : string) : list TokenNode :=
  match input with
  | EmptyString => []
  | String c rest =>
      if isBinaryDigit c then
        match tokenize rest with
        | t :: ts =>
            if isBinary t && isBinaryDigit (firstChar rest)
            then mkTokenNode (String c (tokenValue t)) true :: ts
            else mkTokenNode (String c EmptyString) true :: t :: ts
        | [] => [mkTokenNode (String c EmptyString) true]
        end
      else if isSymbolChar c then
        mkTokenNode (String c EmptyString) false :: tokenize rest
      else tokenize rest
  end.

(** The text one token contributes to the preview. *)
Definition renderPiece (tok : TokenNode) : string :=
  if isBinary tok then
    if 0 <=? bin2Dec (tokenValue tok)
    then String_of_long (bin2Dec (tokenValue tok))
    else "?"
  else tokenValue tok.

(** Every piece followed by one space. *)
Fixpoint renderPieces (tokens : list TokenNode) : string :=
  match tokens with
  | [] => ""
  | tok :: rest => renderPiece tok ++ " " ++ renderPieces rest
  end.

(** *** Shapes of a text the validator is said to reject *)

Definition startsWith (c : ascii) (s : string) : Prop :=
  exists rest, s = String c rest.

Definition endsWith (c : ascii) (s : string) : Prop :=
  exists front, s = front ++ String c "".

(** [a] immediately followed by [b] somewhere in [s]. *)
Definition adjacent (a b : ascii) (s : string) : Prop :=
  exists front back, s = front ++ String a (String b back).

Definition bracketDelta (c : ascii) : Z :=
  if char_eqb c "(" then 1 else if char_eqb c ")" then -1 else 0.

(** Number of ['('] minus number of [')'] in a text. *)
Fixpoint openCount (s : string) : Z :=
  match s with
  | EmptyString => 0
  | String c rest => bracketDelta c + openCount rest
  end.

(** The running open-count goes below 0 after some prefix. *)
Definition countGoesNegative (s : string) : Prop :=
  exists front back, s = front ++ back /\ openCount front < 0.

Definition rejectedShape (s : string) : Prop :=
  s = ""
  \/ (exists c, startsWith c s /\ (c = "+" \/ c = "*" \/ c = "/")%char)
  \/ (exists c, endsWith c s /\ isOperatorChar c = true)
  \/ countGoesNegative s
  \/ openCount s <> 0
  \/ (exists a b, adjacent a b s /\
                  isOperatorChar a = true /\ isOperatorChar b = true)
  \/ (exists a, adjacent a "(" s /\ (isBinaryDigit a = true \/ a = ")"%char))
  \/ (exists b, adjacent ")" b s /\ (isBinaryDigit b = true \/ b = "("%char))
  \/ (exists b, adjacent "(" b s /\ (b = "*" \/ b = "/")%char).

(** The numeral of [2^30]: a one and thirty zeros. *)
Definition literal_2_pow_30 : string := "1000000000000000000000000000000".

(** The numeral of [2^31]: a one and thirty-one zeros. *)
Definition literal_2_pow_31 : string := "10000000000000000000000000000000".

(** The numeral of [2^31 - 1]: thirty-one ones. *)
Definition literal_31_ones : string := "1111111111111111111111111111111".

(** [n] copies of a character. *)
Fixpoint repeatChar (c : ascii) (n : nat) : string :=
  match n with
  | O => ""
  | S n' => String c (repeatChar c n')
  end.

(** *** The engine with structural tags

    The translator and evaluator as the specification designs them: the
    items of the RPN stream carry a tag (operand or operator) instead of
    being told apart by magnitude, operands are the numerals' values,
    arithmetic is exact, and every failure is a typed result.  This is the
    yardstick for what an expression's value is; the sketch's own functions
    are the ones above. *)
Module Reference.

Inductive EvalError : Type :=
| EmptyInput
| InvalidLiteral
| MismatchedParentheses
| InsufficientOperands
| DivisionByZero
| MalformedExpression
| CapacityExceeded.

Inductive Result (A : Type) : Type :=
| Ok (a : A)
| Err (e : EvalError).

Arguments Ok {A} a.
Arguments Err {A} e.

Definition bind {A B : Type} (c : Result A) (k : A -> Result B) : Result B :=
  match c with
  | Ok a => k a
  | Err e => Err e
  end.

Notation "x <- c ;; k" := (bind c (fun x => k))
  (at level 61, c at next level, right associativity).
Notation "' pat <- c ;; k" := (bind c (fun x => match x with pat => k end))
  (at level 61, pat pattern, c at next level, right associativity).

Inductive RPNItem : Type :=
| OperandItem (v : Z)
| OperatorItem (op : ascii).

Definition decode (literal : string) : Result Z :=
  match literal with
  | EmptyString => Err InvalidLiteral
  | _ => if allBinary literal then Ok (binaryValue literal)
         else Err InvalidLiteral
  end.

(** Push on a stack of at most 64 places. *)
Definition push {T : Type} (item : T) (stack : list T) : Result (list T) :=
  if (List.length stack <? 64)%nat then Ok (item :: stack)
  else Err CapacityExceeded.

(** Append to an output of at most 64 places. *)
Definition emit (item : RPNItem) (out : list RPNItem) : Result (list RPNItem) :=
  if (List.length out <? 64)%nat then Ok (out ++ [item])%list
  else Err CapacityExceeded.

Definition state : Type := (list ascii * list RPNItem)%type.

(** On [')']: pop and append operators until a ['('] is popped. *)
Fixpoint closeParen (stack : list ascii) (out : list RPNItem) : Result state :=
  match stack with
  | [] => Err MismatchedParentheses
  | top :: below =>
      if char_eqb top "(" then Ok (below, out)
      else out' <- emit (OperatorItem top) out ;; closeParen below out'
  end.

(** On an operator: pop and append while the top is not ['('] and its
    precedence is at least the operator's. *)
Fixpoint popForOperator (op : ascii) (stack : list ascii) (out : list RPNItem)
  : Result state :=
  match stack with
  | [] => Ok ([], out)
  | top :: below =>
      if negb (char_eqb top "(") &&
         (getOperatorPrecedence op <=? getOperatorPrecedence top)
      then out' <- emit (OperatorItem top) out ;; popForOperator op below out'
      else Ok (stack, out)
  end.

Definition step (st : state) (tok : TokenNode) : Result state :=
  let (stack, out) := st in
  if isBinary tok then
    v <- decode (tokenValue tok) ;;
    out' <- emit (OperandItem v) out ;;
    Ok (stack, out')
  else
    let c := firstChar (tokenValue tok) in
    if char_eqb c "(" then
      stack' <- push c stack ;; Ok (stack', out)
    else if char_eqb c ")" then closeParen stack out
    else if isOperatorChar c then
      st' <- popForOperator c stack out ;;
      stack'' <- push c (fst st') ;;
      Ok (stack'', snd st')
    else Err MalformedExpression.

Fixpoint steps (tokens : list TokenNode) (st : state) : Result state :=
  match tokens with
  | [] => Ok st
  | tok :: rest => st' <- step st tok ;; steps rest st'
  end.

(** After the last token: the operators left, none of them a ['(']. *)
Fixpoint drain (stack : list ascii) (out : list RPNItem)
  : Result (list RPNItem) :=
  match stack with
  | [] => Ok out
  | top :: below =>
      if char_eqb top "(" then Err MismatchedParentheses
      else out' <- emit (OperatorItem top) out ;; drain below out'
  end.

Definition translate (tokens : list TokenNode) : Result (list RPNItem) :=
  st <- steps tokens ([], []) ;; drain (fst st) (snd st).

(** [lhs OP rhs], exactly. *)
Definition applyOperator (op : ascii) (lhs rhs : Z) : Result Z :=
  if char_eqb op "+" then Ok (lhs + rhs)
  else if char_eqb op "-" then Ok (lhs - rhs)
  else if char_eqb op "*" then Ok (lhs * rhs)
  else if char_eqb op "/" then
    (if rhs =? 0 then Err DivisionByZero else Ok (Z.quot lhs rhs))
  else Err MalformedExpression.

Fixpoint evalItems (items : list RPNItem) (stack : list Z) : Result Z :=
  match items with
  | [] =>
      match stack with
      | [v] => Ok v
      | _ => Err MalformedExpression
      end
  | OperandItem v :: rest =>
      stack' <- push v stack ;; evalItems rest stack'
  | OperatorItem op :: rest =>
      match stack with
      | rhs :: lhs :: below =>
          v <- applyOperator op lhs rhs ;;
          stack' <- push v below ;;
          evalItems rest stack'
      | _ => Err InsufficientOperands
      end
  end.

Definition evaluateTokens (tokens : list TokenNode) : Result Z :=
  items <- translate tokens ;; evalItems items [].

Definition evaluate (text : string) : Result Z :=
  match text with
  | EmptyString => Err EmptyInput
  | _ =>
      match lexify text with
      | [] => Err EmptyInput
      | tokens => evaluateTokens tokens
      end
  end.

(** How the sketch stores an item in its queue of [long]. *)
Definition encode (item : RPNItem) : Z :=
  match item with
  | OperandItem v => Long.wrap32 v
  | OperatorItem op => operatorCode op
  end.

(** The operator stack holds ['('] and the four operators only. *)
Definition goodStack (stack : list ascii) : Prop :=
  Forall (fun c => c = "("%char \/ isOperatorChar c = true) stack.

(** An operator item is one of the four operators. *)
Definition validItem (item : RPNItem) : Prop :=
  match item with
  | OperandItem _ => True
  | OperatorItem op => isOperatorChar op = true
  end.

Definition goodState (st : state) : Prop :=
  goodStack (fst st) /\ Forall validItem (snd st).

(** From [st] to [st'] the invariant is kept and no item is lost. *)
Definition grows (st st' : state) : Prop :=
  goodState st ->
  goodState st' /\ forall x, In x (snd st) -> In x (snd st').


(** Change of the depth of the value stack over a stream of items: an
    operand adds one value, an operator takes two and gives one. *)
Fixpoint net (items : list RPNItem) : Z :=
  match items with
  | [] => 0
  | OperandItem _ :: rest => 1 + net rest
  | OperatorItem _ :: rest => -1 + net rest
  end.

(** An operand whose stored value lies above the operator offset. *)
Definition misread (item : RPNItem) : bool :=
  match item with
  | OperandItem v => OP_OFFSET <? Long.wrap32 v
  | OperatorItem _ => false
  end.

Fixpoint misreadCount (items : list RPNItem) : Z :=
  match items with
  | [] => 0
  | item :: rest => (if misread item then 1 else 0) + misreadCount rest
  end.

End Reference.

(** Takes the successful branch of the first [bind] in [H]. *)
Ltac bind_ok H :=
  unfold Reference.bind in H;
  match type of H with
  | context [match ?c with Reference.Ok _ => _ | Reference.Err _ => _ end] =>
      let E := fresh "E" in
      destruct c eqn:E; [| discriminate H]
  end.

(** Change of the depth of the evaluation stack over the sketch's queue, as
    its evaluator classifies the elements. *)
Fixpoint netCode (queue : list Z) : Z :=
  match queue with
  | [] => 0
  | token :: rest => (if OP_OFFSET <? token then -1 else 1) + netCode rest
  end.

(** Both containers of the translation within their 64 places. *)
Definition withinCapacity (st : shunt_state) : Prop :=
  (List.length (fst st) <= 64)%nat /\ (List.length (snd st) <= 64)%nat.

(* ------------------------------------------------------------------ *)
(** ** Notions used to state what happens at a capacity bound *)

(** Modelled from the spec: the result [false] of [SimpleStack::push] on a
    stack that holds its 64 items already; the header is not part of the
    repository, and the sketch never reads the result. *)
Definition pushRefused {T : Type} (s : list T) : bool :=
  negb (List.length s <? SimpleStack.capacity)%nat.

(** Modelled from the spec: the result [false] of [ArduinoQueue::enqueue]
    on a queue that holds its 64 items already; never read either. *)
Definition enqueueRefused {T : Type} (q : list T) : bool :=
  negb (List.length q <? ArduinoQueue.capacity)%nat.

(** Whether one of the [enqueue] calls of the loop [popUntilOpen] is
    refused. *)
Fixpoint popUntilOpen_refused (operatorStack : list ascii)
  (outputQueue : list Z) : bool :=
  match operatorStack with
  | [] => false
  | topOp :: below =>
      if negb (char_eqb topOp "(") then
        enqueueRefused outputQueue ||
        popUntilOpen_refused below
          (ArduinoQueue.enqueue (operatorCode topOp) outputQueue)
      else false
  end.

(** The same for the loop [popHigher]. *)
Fixpoint popHigher_refused (currentOp : ascii) (operatorStack : list ascii)
  (outputQueue : list Z) : bool :=
  match operatorStack with
  | [] => false
  | topOp :: below =>
      if negb (char_eqb topOp "(") &&
         (getOperatorPrecedence currentOp <=? getOperatorPrecedence topOp) then
        enqueueRefused outputQueue ||
        popHigher_refused currentOp below
          (ArduinoQueue.enqueue (operatorCode topOp) outputQueue)
      else false
  end.

(** The same for the loop [drainOperators]. *)
Fixpoint drainOperators_refused (operatorStack : list ascii)
  (outputQueue : list Z) : bool :=
  match operatorStack with
  | [] => false
  | poppedOp :: below =>
      enqueueRefused outputQueue ||
      drainOperators_refused below
        (ArduinoQueue.enqueue (operatorCode poppedOp) outputQueue)
  end.

(** An iteration of the [for] loop over the tokens, entered in state [st]
    with the token [tok], has its [push] on the operator stack refused. *)
Definition stackRefuses (st : shunt_state) (tok : TokenNode) : bool :=
  let (operatorStack, outputQueue) := st in
  if isBinary tok then false
  else
    let currentOp := firstChar (tokenValue tok) in
    if char_eqb currentOp "(" then pushRefused operatorStack
    else if char_eqb currentOp ")" then false
    else pushRefused (fst (popHigher currentOp operatorStack outputQueue)).

(** The iteration has one of its [enqueue] calls refused. *)
Definition queueRefuses (st : shunt_state) (tok : TokenNode) : bool :=
  let (operatorStack, outputQueue) := st in
  if isBinary tok then enqueueRefused outputQueue
  else
    let currentOp := firstChar (tokenValue tok) in
    if char_eqb currentOp "(" then false
    else if char_eqb currentOp ")" then
      popUntilOpen_refused operatorStack outputQueue
    else popHigher_refused currentOp operatorStack outputQueue.

(** The iteration handles a [')'] and its last [pop], commented
    [Remove '('], finds the operator stack empty. *)
Definition closeUnmatched (st : shunt_state) (tok : TokenNode) : bool :=
  let (operatorStack, outputQueue) := st in
  if isBinary tok then false
  else
    let currentOp := firstChar (tokenValue tok) in
    if char_eqb currentOp "(" then false
    else if char_eqb currentOp ")" then
      SimpleStack.isEmpty (fst (popUntilOpen operatorStack outputQueue))
    else false.

(** Whether some iteration of the loop over [tokens], started in state
    [st], meets [event]. *)
Fixpoint sometime (event : shunt_state -> TokenNode -> bool)
  (tokens : list TokenNode) (st : shunt_state) : bool :=
  match tokens with
  | [] => false
  | tok :: rest => event st tok || sometime event rest (shuntToken st tok)
  end.

(** Whether an [enqueue] is refused in the loop over [tokens] or in the
    loop [drainOperators] after it. *)
Fixpoint queueOverflowsFrom (tokens : list TokenNode) (st : shunt_state)
  : bool :=
  match tokens with
  | [] => drainOperators_refused (fst st) (snd st)
  | tok :: rest =>
      queueRefuses st tok || queueOverflowsFrom rest (shuntToken st tok)
  end.

(** The three events over a whole translation by [interpretTokens]. *)
Definition operatorStackOverflows (tokens : list TokenNode) : bool :=
  sometime stackRefuses tokens ([], []).

Definition outputQueueOverflows (tokens : list TokenNode) : bool :=
  queueOverflowsFrom tokens ([], []).

Definition closeWithoutOpen (tokens : list TokenNode) : bool :=
  sometime closeUnmatched tokens ([], []).

(** Whether a [push] on the evaluation stack is refused in the loop
    [evalRPN]. *)
Fixpoint evaluationStackOverflows (outputQueue : list Z)
  (evaluationStack : list Z) : bool :=
  match outputQueue with
  | [] => false
  | token :: rest =>
      if OP_OFFSET <? token then
        let op := char_of_long (Long.sub token OP_OFFSET) in
        match evaluationStack with
        | operand2 :: operand1 :: below =>
            match executeOperation operand1 operand2 op with
            | Return result =>
                if result =? BAD_RESULT then false
                else pushRefused below ||
                     evaluationStackOverflows rest
                       (SimpleStack.push result below)
            | DivByZeroUB => false
            end
        | _ => false
        end
      else pushRefused evaluationStack ||
           evaluationStackOverflows rest
             (SimpleStack.push token evaluationStack)
  end.

(** The queue that [interpretTokens] evaluates when its loop over the
    tokens is entered in state [st]: [toRPN] is the case of the empty
    state. *)
Definition rpnFrom (tokens : list TokenNode) (st : shunt_state) : list Z :=
  let (operatorStack, outputQueue) := fold_left shuntToken tokens st in
  drainOperators operatorStack outputQueue.

(** The states of the translation over the tokens of the lexer: a stack of
    ['('] and operators, both containers within their places. *)
Definition translating (st : shunt_state) : Prop :=
  Reference.goodStack (fst st) /\ withinCapacity st.

(** A loop that moves operators from the stack to the queue, from
    [operatorStack] and [outputQueue] to the state [st']: the queue is
    full in the end, or every operator taken from the stack has arrived;
    a refused [enqueue] means a full queue. *)
Definition transfers (operatorStack : list ascii) (outputQueue : list Z)
  (st' : shunt_state) (refused : bool) : Prop :=
  translating st' /\
  (List.length outputQueue <= List.length (snd st'))%nat /\
  (List.length (snd st') + List.length (fst st')
   <= List.length outputQueue + List.length operatorStack)%nat /\
  (List.length (snd st') = 64%nat \/
   (netCode (snd st') - Z.of_nat (List.length (fst st')) =
    netCode outputQueue - Z.of_nat (List.length operatorStack) /\
    (List.length (snd st') + List.length (fst st') =
     List.length outputQueue + List.length operatorStack)%nat)) /\
  (refused = true -> List.length (snd st') = 64%nat).

(* ================================================================== *)
(** * The input side of the sketch *)

(* ------------------------------------------------------------------ *)
(** ** 10) Binary text to decimal text *)

(** [strtol(temp.c_str(), NULL, 2)] of the C library on a text of binary
    digits: the value of the numeral, and [LONG_MAX] when that value does
    not fit a [long]. *)
Definition strtol_base2 (temp : string) : Z :=
  let value := binaryValue temp in
  if value <=? Long.max_signed then value else Long.max_signed.

(** [if (temp.length() > 0) converted += String(strtol(temp, NULL, 2));] *)
Definition flushTemp (converted temp : string) : string :=
  if (0 <? String.length temp)%nat
  then converted ++ String_of_long (strtol_base2 temp)
  else converted.

(** The [for] loop of [convertBCD] over the characters still to read, with
    the two accumulators [converted] and [temp]. *)
Fixpoint convertBCD_loop (binaryInput : string) (converted temp : string)
  : string * string :=
  match binaryInput with
  | EmptyString => (converted, temp)
  | String c rest =>
      if char_eqb c "0" || char_eqb c "1" then
        convertBCD_loop rest converted (temp ++ String c "")
      else
        convertBCD_loop rest (flushTemp converted temp ++ String c "") ""
  end.

Definition convertBCD (binaryInput : string) : string :=
  let (converted, temp) := convertBCD_loop binaryInput "" "" in
  flushTemp converted temp.

(* ------------------------------------------------------------------ *)
(** ** 11) Decimal text to binary text *)

(** [isdigit(c)] of the C library: one of ['0'] to ['9']. *)
Definition isdigit (c : ascii) : bool :=
  ((48 <=? N_of_ascii c) && (N_of_ascii c <=? 57))%N.

(** [strtol(temp.c_str(), NULL, 10)] of the C library on a text of decimal
    digits: the value of the numeral, and [LONG_MAX] when that value does
    not fit a [long]. *)
Definition strtol_base10 (temp : string) : Z :=
  match NilEmpty.uint_of_string temp with
  | Some d =>
      let value := Z.of_uint d in
      if value <=? Long.max_signed then value else Long.max_signed
  | None => 0
  end.

(** The binary digits of a positive number, most significant first. *)
Fixpoint binaryOfPositive (p : positive) : string :=
  match p with
  | xH => "1"
  | xO p' => binaryOfPositive p' ++ "0"
  | xI p' => binaryOfPositive p' ++ "1"
  end.

(** [String(value, BIN)]: the digits of [value] in base 2, a negative
    [long] being printed as the unsigned number with the same 32 bits. *)
Definition String_of_long_BIN (value : Z) : string :=
  match (if value <? 0 then value + 2 ^ 32 else value) with
  | Z0 => "0"
  | Zpos p => binaryOfPositive p
  | Zneg _ => ""
  end.

(** [if (temp.length() > 0) binaryStr += String(strtol(temp, NULL, 10), BIN);] *)
Definition flushDecimal (binaryStr temp : string) : string :=
  if (0 <? String.length temp)%nat
  then binaryStr ++ String_of_long_BIN (strtol_base10 temp)
  else binaryStr.

(** The [for] loop of [convertToBinary]. *)
Fixpoint convertToBinary_loop (decimalInput : string) (binaryStr temp : string)
  : string * string :=
  match decimalInput with
  | EmptyString => (binaryStr, temp)
  | String c rest =>
      if isdigit c then
        convertToBinary_loop rest binaryStr (temp ++ String c "")
      else
        convertToBinary_loop rest (flushDecimal binaryStr temp ++ String c "") ""
  end.

Definition convertToBinary (decimalInput : string) : string :=
  let (binaryStr, temp) := convertToBinary_loop decimalInput "" "" in
  flushDecimal binaryStr temp.

(* ------------------------------------------------------------------ *)
(** ** 9) Display update and 8) button handling *)

(** What the sketch does to the serial port and the display, in order. *)
Inductive event : Type :=
| SerialPrint (text : string)
| SerialPrintln (text : string)
| LcdClear
| LcdSetCursor (col row : nat)
| LcdPrint (text : string)
| DelayMs (ms : nat).

Definition updateDisplay (line : string) : list event :=
  [SerialPrintln ("EXPR:" ++ line); LcdClear; LcdSetCursor 0 0; LcdPrint line].

(** [userInput.remove(userInput.length() - 1)]: the text without its last
    character. *)
Fixpoint removeLast (s : string) : string :=
  match s with
  | EmptyString => EmptyString
  | String _ EmptyString => EmptyString
  | String c rest => String c (removeLast rest)
  end.

(** [handleButtonPress]: the new [userInput] and what is printed.  The
    evaluation requested by ['='] may have no defined result (division by
    zero); there is no defined continuation then. *)
Definition handleButtonPress (button : ascii) (userInput : string)
  : option (string * list event) :=
  if char_eqb button "B" then
    let userInput :=
      if (0 <? String.length userInput)%nat then removeLast userInput
      else userInput in
    Some (userInput, updateDisplay (convertBCD userInput))
  else if char_eqb button "C" then
    let userInput := "" in
    Some (userInput, updateDisplay (convertBCD userInput))
  else if char_eqb button "(" then
    let userInput :=
      if (0 <? String.length userInput)%nat then
        let lastChar := lastChar userInput in
        if char_eqb lastChar "0" || char_eqb lastChar "1"
        then userInput ++ "*"
        else userInput
      else userInput in
    let userInput := userInput ++ String button "" in
    Some (userInput, updateDisplay (convertBCD userInput))
  else if char_eqb button "=" then
    match parseAndEvaluate userInput with
    | Return result =>
        Some ("",
              [LcdClear] ++
              (if result =? BAD_RESULT
               then [SerialPrintln "RESULT:ERROR"; LcdPrint "INVALID INPUT!"]
               else [SerialPrint "RESULT:";
                     SerialPrintln (String_of_long result);
                     LcdPrint (String_of_long result)]) ++
              [DelayMs 1500; LcdClear])%list
    | DivByZeroUB => None
    end
  else
    let userInput := userInput ++ String button "" in
    Some (userInput, updateDisplay (convertBCD userInput)).

(* ------------------------------------------------------------------ *)
(** ** 2) Button edges and 14) the main loop *)

(** [a[i] = x] on an array kept as a list. *)
Fixpoint setNth {T : Type} (i : nat) (x : T) (a : list T) : list T :=
  match a, i with
  | [], _ => []
  | _ :: rest, O => x :: rest
  | y :: rest, S i' => y :: setNth i' x rest
  end.

(** [isButtonPressed(pin)], the static array [previousStates] passed in and
    out; [low] says whether [digitalRead(pin)] is [LOW].  A pin outside the
    array has no defined behaviour. *)
Definition isButtonPressed (previousStates : list bool) (pin : nat)
  (low : bool) : option (bool * list bool) :=
  match nth_error previousStates pin with
  | Some previous =>
      let currentState := low in
      let pressed := currentState && negb previous in
      Some (pressed, setNth pin currentState previousStates)
  | None => None
  end.

(** [static bool previousStates[12] = {false}] *)
Definition initialPreviousStates : list bool := repeat false 12.

Definition pins : list nat := [2; 3; 4; 5; 6; 7; 8; 9; 10; 11]%nat.

Definition buttonSymbols : list ascii :=
  ["0"; "1"; "("; ")"; "+"; "-"; "*"; "/"; "="; "B"]%char.

(** The memory of the sketch between two passes of [loop]. *)
Record sketch_state : Type := mkSketchState {
  previousStates : list bool;
  userInput : string
}.

(** The [for] loop of [loop] over the buttons still to check. *)
Fixpoint scanButtons (buttons : list (nat * ascii)) (low : nat -> bool)
  (st : sketch_state) (events : list event)
  : option (sketch_state * list event) :=
  match buttons with
  | [] => Some (st, events)
  | (pin, pressedSymbol) :: rest =>
      match isButtonPressed (previousStates st) pin (low pin) with
      | None => None
      | Some (false, states) =>
          scanButtons rest low (mkSketchState states (userInput st)) events
      | Some (true, states) =>
          match handleButtonPress pressedSymbol (userInput st) with
          | None => None
          | Some (input, printed) =>
              scanButtons rest low (mkSketchState states input)
                (events ++ printed ++ [DelayMs 300])%list
          end
      end
  end.

(** One pass of [loop]: [serialInput] is the character read from the serial
    port when one is available, [low pin] the level of each pin. *)
Definition loop (serialInput : option ascii) (low : nat -> bool)
  (st : sketch_state) : option (sketch_state * list event) :=
  let afterSerial :=
    match serialInput with
    | Some c =>
        if negb (char_eqb c Ascii.zero) then
          match handleButtonPress c (userInput st) with
          | Some (input, printed) =>
              Some (mkSketchState (previousStates st) input, printed)
          | None => None
          end
        else Some (st, [])
    | None => Some (st, [])
    end in
  match afterSerial with
  | Some (st', events) => scanButtons (combine pins buttonSymbols) low st' events
  | None => None
  end.

(* ------------------------------------------------------------------ *)
(** ** Notions used to state the further properties *)

(** A token as the lexer builds it: a non-empty run of binary digits, or
    one character of the symbol alphabet. *)
Definition wellFormedToken (tok : TokenNode) : bool :=
  if isBinary tok then
    negb (String.length (tokenValue tok) =? 0)%nat && allBinary (tokenValue tok)
  else
    match tokenValue tok with
    | String c EmptyString => isSymbolChar c
    | _ => false
    end.

(** A character the lexer does not skip. *)
Definition isTokenChar (c : ascii) : bool := isBinaryDigit c || isSymbolChar c.

Fixpoint filterString (keep : ascii -> bool) (s : string) : string :=
  match s with
  | EmptyString => EmptyString
  | String c rest =>
      if keep c then String c (filterString keep rest)
      else filterString keep rest
  end.

Fixpoint forallChars (test : ascii -> bool) (s : string) : bool :=
  match s with
  | EmptyString => true
  | String c rest => test c && forallChars test rest
  end.

(** The texts of the tokens, one after the other. *)
Fixpoint concatTexts (tokens : list TokenNode) : string :=
  match tokens with
  | [] => ""
  | tok :: rest => tokenValue tok ++ concatTexts rest
  end.

(** The second of two operations in a row, as the evaluator chains them:
    it is not reached when the first has no result or gives the
    sentinel. *)
Definition thenOperation (first : outcome) (second : Z -> outcome) : outcome :=
  match first with
  | Return result =>
      if result =? BAD_RESULT then Return BAD_RESULT else second result
  | DivByZeroUB => DivByZeroUB
  end.

(** No binary digit is immediately followed by ['(']. *)
Fixpoint noDigitThenOpen (s : string) : bool :=
  match s with
  | EmptyString => true
  | String a rest =>
      negb (isBinaryDigit a && char_eqb (firstChar rest) "(")
      && noDigitThenOpen rest
  end.

(** The keys of a text pressed one after the other. *)
Fixpoint typeKeys (keys : string) (input : string) : option string :=
  match keys with
  | EmptyString => Some input
  | String key rest =>
      match handleButtonPress key input with
      | Some (input', _) => typeKeys rest input'
      | None => None
      end
  end.

(** The lines written to the serial port by a list of events; [pending] is
    the text printed since the last end of line. *)
Fixpoint serialLines (events : list event) (pending : string) : list string :=
  match events with
  | [] => if (0 <? String.length pending)%nat then [pending] else []
  | SerialPrint text :: rest => serialLines rest (pending ++ text)
  | SerialPrintln text :: rest => (pending ++ text) :: serialLines rest ""
  | _ :: rest => serialLines rest pending
  end.

(** Along the exact evaluation of a stream of items, every operand is at
    most [2^30] and every result of an operation lies strictly between
    [- 2^31] and [2^31]. *)
Fixpoint safeItems (items : list Reference.RPNItem) (stack : list Z) : bool :=
  match items with
  | [] => true
  | Reference.OperandItem v :: rest =>
      (0 <=? v) && (v <=? 2 ^ 30) && safeItems rest (v :: stack)
  | Reference.OperatorItem op :: rest =>
      match stack with
      | rhs :: lhs :: below =>
          match Reference.applyOperator op lhs rhs with
          | Reference.Ok v =>
              (- 2 ^ 31 <? v) && (v <? 2 ^ 31) && safeItems rest (v :: below)
          | Reference.Err _ => true
          end
      | _ => true
      end
  end.

(* ================================================================== *)
(** * Properties *)

(** ** Arithmetic of the 32-bit [long] *)

Lemma BAD_RESULT_eq : BAD_RESULT = - 2 ^ 31.
Proof. reflexivity. Qed.

Lemma OP_OFFSET_eq : OP_OFFSET = 2 ^ 30.
Proof. reflexivity. Qed.

Lemma wrap32_range (z : Z) : - 2 ^ 31 <= Long.wrap32 z < 2 ^ 31.
Proof.
  unfold Long.wrap32.
  pose proof (Z.mod_pos_bound (z + 2 ^ 31) (2 ^ 32) ltac:(lia)). lia.
Qed.

Lemma wrap32_small (z : Z) : - 2 ^ 31 <= z < 2 ^ 31 -> Long.wrap32 z = z.
Proof.
  intros H. unfold Long.wrap32.
  rewrite Z.mod_small by lia. lia.
Qed.

(** [wrap32] only changes a number by a multiple of [2^32]. *)
Lemma wrap32_congr (a b : Z) :
  (a - b) mod 2 ^ 32 = 0 -> Long.wrap32 a = Long.wrap32 b.
Proof.
  intros H. unfold Long.wrap32. f_equal.
  apply Z.mod_divide in H; [| lia]. destruct H as [k Hk].
  replace (a + 2 ^ 31) with (b + 2 ^ 31 + k * 2 ^ 32) by lia.
  apply Z.mod_add. lia.
Qed.

Lemma wrap32_diff (z : Z) : exists k, Long.wrap32 z = z + k * 2 ^ 32.
Proof.
  unfold Long.wrap32.
  exists (- ((z + 2 ^ 31) / 2 ^ 32)).
  pose proof (Z.div_mod (z + 2 ^ 31) (2 ^ 32) ltac:(lia)). lia.
Qed.

Lemma wrap32_double (v : Z) :
  Long.wrap32 (2 * Long.wrap32 v) = Long.wrap32 (2 * v).
Proof.
  apply wrap32_congr.
  destruct (wrap32_diff v) as [k ->].
  replace (2 * (v + k * 2 ^ 32) - 2 * v) with ((2 * k) * 2 ^ 32) by lia.
  apply Z.mod_mul. lia.
Qed.

Lemma wrap32_even (v : Z) : Z.land (Long.wrap32 (2 * v)) 1 = 0.
Proof.
  change 1 with (Z.ones 1) at 1. rewrite Z.land_ones by lia.
  destruct (wrap32_diff (2 * v)) as [k ->].
  replace (2 * v + k * 2 ^ 32) with ((v + k * 2 ^ 31) * 2 ^ 1) by lia.
  apply Z.mod_mul. lia.
Qed.

Lemma shl1_wrap (v : Z) : Long.shl (Long.wrap32 v) 1 = Long.wrap32 (2 * v).
Proof.
  unfold Long.shl. rewrite Z.shiftl_mul_pow2 by lia.
  rewrite Z.mul_comm. change (2 ^ 1) with 2. apply wrap32_double.
Qed.

Lemma shl1_or1_wrap (v : Z) :
  Long.lor (Long.shl (Long.wrap32 v) 1) 1 = Long.wrap32 (2 * v + 1).
Proof.
  rewrite shl1_wrap. unfold Long.lor.
  pose proof (Z.add_lor_land (Long.wrap32 (2 * v)) 1) as H.
  rewrite wrap32_even in H.
  replace (Z.lor (Long.wrap32 (2 * v)) 1) with (Long.wrap32 (2 * v) + 1) by lia.
  apply wrap32_congr.
  destruct (wrap32_diff (2 * v)) as [k ->].
  replace (2 * v + k * 2 ^ 32 + 1 - (2 * v + 1)) with (k * 2 ^ 32) by lia.
  apply Z.mod_mul. lia.
Qed.

(** ** The binary decoder *)

Lemma char_eqb_eq (a b : ascii) : char_eqb a b = true <-> a = b.
Proof. apply Ascii.eqb_eq. Qed.

Lemma binaryValue_bounds (s : string) :
  0 <= binaryValue s < 2 ^ Z.of_nat (String.length s).
Proof.
  induction s as [| c rest IH]; cbn [binaryValue String.length].
  - change (2 ^ Z.of_nat 0) with 1. lia.
  - rewrite Nat2Z.inj_succ, Z.pow_succ_r by lia.
    unfold digitValue. destruct (char_eqb c "1"); lia.
Qed.

(** The loop of the decoder is Horner's scheme on the numeral, in 32-bit
    arithmetic. *)
Lemma bin2Dec_loop_binary (s : string) (v : Z) :
  allBinary s = true ->
  bin2Dec_loop s (Long.wrap32 v) =
  Long.wrap32 (v * 2 ^ Z.of_nat (String.length s) + binaryValue s).
Proof.
  revert v. induction s as [| c rest IH]; intros v Hs.
  - cbn. f_equal. lia.
  - cbn [allBinary] in Hs. apply andb_true_iff in Hs as [Hc Hrest].
    cbn [bin2Dec_loop binaryValue String.length].
    rewrite Nat2Z.inj_succ, Z.pow_succ_r by lia.
    unfold isBinaryDigit in Hc. unfold digitValue.
    destruct (char_eqb c "0") eqn:E0.
    + apply char_eqb_eq in E0. subst c.
      change (char_eqb "0" "1") with false. cbv iota.
      rewrite shl1_wrap, IH by assumption. f_equal. lia.
    + cbn in Hc. rewrite Hc.
      rewrite shl1_or1_wrap, IH by assumption. f_equal. lia.
Qed.

Lemma bin2Dec_binary (s : string) :
  allBinary s = true -> bin2Dec s = Long.wrap32 (binaryValue s).
Proof.
  intros Hs. unfold bin2Dec.
  change 0 with (Long.wrap32 0) at 1.
  rewrite bin2Dec_loop_binary by assumption. f_equal.
Qed.

Lemma bin2Dec_exact (s : string) :
  allBinary s = true -> binaryValue s < 2 ^ 31 -> bin2Dec s = binaryValue s.
Proof.
  intros Hs Hlt. rewrite bin2Dec_binary by assumption.
  apply wrap32_small. pose proof (binaryValue_bounds s). lia.
Qed.

Lemma bin2Dec_loop_invalid (s : string) (v : Z) :
  allBinary s = false -> bin2Dec_loop s v = -1.
Proof.
  revert v. induction s as [| c rest IH]; intros v Hs.
  - discriminate.
  - cbn [allBinary] in Hs. cbn [bin2Dec_loop].
    unfold isBinaryDigit in Hs.
    destruct (char_eqb c "0"); [apply IH; exact Hs |].
    destruct (char_eqb c "1"); [apply IH; exact Hs | reflexivity].
Qed.

(** ** The lexer *)

Lemma takeBinary_length (s number rest : string) :
  takeBinary s = (number, rest) -> (String.length rest <= String.length s)%nat.
Proof.
  revert number rest. induction s as [| c s' IH]; intros number rest H.
  - cbn in H. inversion H. cbn. lia.
  - cbn [takeBinary] in H. destruct (isBinaryDigit c).
    + destruct (takeBinary s') as [n r] eqn:E. inversion H; subst.
      specialize (IH _ _ eq_refl). cbn. lia.
    + inversion H. lia.
Qed.

Lemma takeBinary_digit_length (c : ascii) (s number rest : string) :
  isBinaryDigit c = true ->
  takeBinary (String c s) = (number, rest) ->
  (String.length rest < String.length (String c s))%nat.
Proof.
  intros Hc H. cbn [takeBinary] in H. rewrite Hc in H.
  destruct (takeBinary s) as [n r] eqn:E. inversion H; subst.
  apply takeBinary_length in E. cbn. lia.
Qed.

(** The run of digits found by the inner loop is the first token of the
    unbounded tokenization. *)
Lemma tokenize_run (c : ascii) (s number rest : string) :
  isBinaryDigit c = true ->
  takeBinary (String c s) = (number, rest) ->
  tokenize (String c s) = mkTokenNode number true :: tokenize rest.
Proof.
  revert c number rest. induction s as [| c' s' IH]; intros c number rest Hc H.
  - cbn in H. rewrite Hc in H. inversion H; subst. cbn. rewrite Hc. reflexivity.
  - cbn [takeBinary] in H. rewrite Hc in H.
    destruct (isBinaryDigit c') eqn:Hc'.
    + destruct (takeBinary s') as [n r] eqn:E. inversion H; subst.
      assert (E' : takeBinary (String c' s') = (String c' n, rest))
        by (cbn [takeBinary]; rewrite Hc', E; reflexivity).
      specialize (IH c' _ _ Hc' E').
      cbn [tokenize] in IH |- *. rewrite Hc, Hc' in *.
      rewrite IH. cbn [isBinary firstChar tokenValue andb]. rewrite Hc'.
      reflexivity.
    + inversion H; subst.
      change (tokenize (String c (String c' s'))) with
        (if isBinaryDigit c then
           match tokenize (String c' s') with
           | t :: ts =>
               if isBinary t && isBinaryDigit (firstChar (String c' s'))
               then mkTokenNode (String c (tokenValue t)) true :: ts
               else mkTokenNode (String c EmptyString) true :: t :: ts
           | [] => [mkTokenNode (String c EmptyString) true]
           end
         else if isSymbolChar c then
           mkTokenNode (String c EmptyString) false :: tokenize (String c' s')
         else tokenize (String c' s')).
      rewrite Hc. cbn [firstChar]. rewrite Hc'.
      destruct (tokenize (String c' s')) as [| t ts]; [reflexivity |].
      rewrite andb_false_r. reflexivity.
Qed.

(** The loop of [lexify] stores the tokens of the unbounded tokenization
    until the table holds [TOKEN_CAP] of them. *)
Lemma lexify_loop_tokenize (fuel : nat) :
  forall (expr : string) (tokenNodes : list TokenNode),
    (String.length expr <= fuel)%nat ->
    lexify_loop fuel expr tokenNodes =
    (tokenNodes ++
     firstn (TOKEN_CAP - List.length tokenNodes) (tokenize expr))%list.
Proof.
  induction fuel as [| fuel IH]; intros expr acc Hlen.
  - destruct expr; [| cbn in Hlen; lia]. cbn. rewrite firstn_nil.
    now rewrite app_nil_r.
  - destruct expr as [| ch rest].
    + cbn. rewrite firstn_nil. now rewrite app_nil_r.
    + cbn [lexify_loop].
      destruct (TOKEN_CAP <=? List.length acc)%nat eqn:Hcap.
      * apply Nat.leb_le in Hcap.
        replace (TOKEN_CAP - List.length acc)%nat with 0%nat by lia.
        cbn. now rewrite app_nil_r.
      * apply Nat.leb_gt in Hcap.
        destruct (TOKEN_CAP - List.length acc)%nat as [| k] eqn:Hk; [lia |].
        destruct (isBinaryDigit ch) eqn:Hd.
        -- destruct (takeBinary (String ch rest)) as [number rest'] eqn:E.
           pose proof (takeBinary_digit_length _ _ _ _ Hd E) as Hlt.
           rewrite (tokenize_run _ _ _ _ Hd E).
           rewrite IH by (cbn in Hlen, Hlt; lia).
           rewrite length_app. cbn [List.length firstn].
           replace (TOKEN_CAP - (List.length acc + 1))%nat with k by lia.
           now rewrite <- app_assoc.
        -- cbn [tokenize]. rewrite Hd.
           destruct (isSymbolChar ch) eqn:Hs.
           ++ rewrite IH by (cbn in Hlen; lia).
              rewrite length_app. cbn [List.length firstn].
              replace (TOKEN_CAP - (List.length acc + 1))%nat with k by lia.
              now rewrite <- app_assoc.
           ++ rewrite IH by (cbn in Hlen; lia). now rewrite Hk.
Qed.

(** Any fuel from the length of the text on gives the result of [lexify]:
    the loop always runs to its end. *)
Lemma lexify_fuel_enough (fuel : nat) (expr : string) :
  (String.length expr <= fuel)%nat -> lexify_loop fuel expr [] = lexify expr.
Proof.
  intros H. unfold lexify. now rewrite !lexify_loop_tokenize by lia.
Qed.

Lemma lexify_tokenize (expr : string) :
  lexify expr = firstn TOKEN_CAP (tokenize expr).
Proof.
  unfold lexify. rewrite lexify_loop_tokenize by lia. reflexivity.
Qed.

Lemma takeBinary_allBinary (s : string) :
  allBinary s = true -> takeBinary s = (s, EmptyString).
Proof.
  induction s as [| c rest IH]; intros H; [reflexivity |].
  cbn [allBinary] in H. apply andb_true_iff in H as [Hc Hrest].
  cbn [takeBinary]. rewrite Hc, IH by assumption. reflexivity.
Qed.

(** A text of binary digits only is one operand token. *)
Lemma lexify_operand (x : string) :
  x <> EmptyString -> allBinary x = true -> lexify x = [mkTokenNode x true].
Proof.
  intros Hne Hx. rewrite lexify_tokenize.
  destruct x as [| c rest]; [contradiction |].
  pose proof Hx as Hx'. cbn [allBinary] in Hx'.
  apply andb_true_iff in Hx' as [Hc _].
  rewrite (tokenize_run c rest _ _ Hc (takeBinary_allBinary _ Hx)).
  reflexivity.
Qed.

(** ** Strings *)

Lemma append_nil_r (s : string) : s ++ "" = s.
Proof. induction s as [| c s IH]; cbn; [reflexivity | now rewrite IH]. Qed.

Lemma append_assoc (a b c : string) : (a ++ b) ++ c = a ++ (b ++ c).
Proof. induction a as [| x a IH]; cbn; [reflexivity | now rewrite IH]. Qed.

(** ** C5: the binary decoder *)

(** C5, as stated, at the empty literal: the decoder returns 0 there, which
    is not its failure value -1. *)
Lemma bin2Dec_empty_is_zero :
  bin2Dec "" = 0 /\ bin2Dec "" <> -1.
Proof.
  split; [reflexivity | discriminate].
Qed.

(** C5 (amended): the decoder reads its argument as a big-endian binary
    numeral (the four examples); it returns the failure value -1 whenever
    some character is not ['0'] or ['1']; on a text of binary digits only it
    returns the numeral's value reduced to 32 bits, which is the value
    itself, non-negative and so not a failure, whenever that value is
    below [2^31]; the empty literal decodes to 0. *)
Theorem bin2Dec_decodes_big_endian :
  (bin2Dec "0" = 0 /\ bin2Dec "1" = 1 /\ bin2Dec "101" = 5 /\
   bin2Dec "1010" = 10) /\
  bin2Dec "" = 0 /\
  (forall literal, allBinary literal = false -> bin2Dec literal = -1) /\
  (forall literal, allBinary literal = true ->
     bin2Dec literal = Long.wrap32 (binaryValue literal)) /\
  (forall literal, allBinary literal = true -> binaryValue literal < 2 ^ 31 ->
     bin2Dec literal = binaryValue literal /\ bin2Dec literal <> -1).
Proof.
  split; [repeat split |].
  split; [reflexivity |].
  split; [intros; now apply bin2Dec_loop_invalid |].
  split; [intros; now apply bin2Dec_binary |].
  intros literal Hb Hlt.
  rewrite (bin2Dec_exact _ Hb Hlt).
  pose proof (binaryValue_bounds literal). split; [reflexivity | lia].
Qed.

Lemma bin2Dec_decodes_big_endian_witness :
  bin2Dec "1x1" = -1 /\
  bin2Dec "110" = Long.wrap32 (binaryValue "110") /\
  (bin2Dec "110" = binaryValue "110" /\ bin2Dec "110" <> -1).
Proof.
  destruct bin2Dec_decodes_big_endian as (_ & _ & Hbad & Hwrap & Hexact).
  split; [apply Hbad; reflexivity |].
  split; [apply Hwrap; reflexivity |].
  apply Hexact; [reflexivity | vm_compute; reflexivity].
Defined.

(** ** C1: a single operand through the whole pipeline *)

Lemma evalRPN_single (v : Z) : v <= 2 ^ 30 -> evalRPN [v] [] = Return v.
Proof.
  intros Hv. cbn [evalRPN]. rewrite OP_OFFSET_eq.
  destruct (2 ^ 30 <? v) eqn:E; [apply Z.ltb_lt in E; lia |].
  reflexivity.
Qed.

Lemma interpretTokens_operand (x : string) :
  interpretTokens [mkTokenNode x true] = evalRPN [bin2Dec x] [].
Proof. reflexivity. Qed.

(** C1, as stated, at the operand of 31 ones: its binary value is
    [2^31 - 1], the pipeline returns the sentinel [BAD_RESULT]. *)
Lemma operand_of_31_ones_not_evaluated :
  let x := "1111111111111111111111111111111" in
  x <> "" /\ allBinary x = true /\
  binaryValue x = 2 ^ 31 - 1 /\
  parseAndEvaluate x = Return BAD_RESULT /\
  parseAndEvaluate x <> Return (binaryValue x).
Proof.
  cbv zeta. split; [discriminate |]. split; [reflexivity |].
  split; [reflexivity |]. split; [vm_compute; reflexivity |].
  vm_compute. discriminate.
Qed.

(** C1 (amended): for every non-empty text of binary digits whose binary
    value is at most [2^30], the pipeline returns that value. *)
Theorem operand_only_evaluates_to_value (x : string) :
  x <> "" -> allBinary x = true -> binaryValue x <= 2 ^ 30 ->
  parseAndEvaluate x = Return (binaryValue x).
Proof.
  intros Hne Hb Hle. unfold parseAndEvaluate.
  destruct x as [| c rest]; [contradiction |].
  cbn [String.length Nat.eqb].
  rewrite (lexify_operand _ Hne Hb). cbn [List.length Nat.eqb].
  rewrite interpretTokens_operand.
  rewrite bin2Dec_exact by (assumption || lia).
  now apply evalRPN_single.
Qed.

Lemma operand_only_evaluates_to_value_witness :
  parseAndEvaluate "1010" = Return (binaryValue "1010").
Proof.
  apply operand_only_evaluates_to_value;
    [discriminate | reflexivity | vm_compute; discriminate].
Defined.

(** ** C3: division by zero *)

(** C3: the division of [executeOperation] is not guarded.  With a zero
    right operand the operation has no defined result, and the evaluation
    of ["1/0"] is undefined instead of the reported failure
    [BAD_RESULT]. *)
Theorem division_by_zero_is_unguarded :
  (forall a, executeOperation a 0 "/" = DivByZeroUB) /\
  parseAndEvaluate "1/0" = DivByZeroUB /\
  parseAndEvaluate "1/0" <> Return BAD_RESULT /\
  Reference.evaluate "1/0" = Reference.Err Reference.DivisionByZero.
Proof.
  split; [reflexivity |]. split; [reflexivity |].
  split; [discriminate | reflexivity].
Qed.

(** ** C4: unbalanced parentheses *)

(** C4: a [')'] met with no ['('] on the operator stack is dropped without
    a trace: the translation state stays as it is, and ["1+1)"] evaluates
    to 2.  A missing [')'], as in ["(1+1"], does end in [BAD_RESULT]. *)
Theorem unmatched_close_paren_is_ignored :
  (forall outputQueue,
     shuntToken ([], outputQueue) (mkTokenNode ")" false) = ([], outputQueue)) /\
  parseAndEvaluate "1+1)" = Return 2 /\
  parseAndEvaluate "1+1)" <> Return BAD_RESULT /\
  resultLine 2 = "RESULT:2" /\
  parseAndEvaluate "(1+1" = Return BAD_RESULT /\
  Reference.evaluate "1+1)" = Reference.Err Reference.MismatchedParentheses /\
  Reference.evaluate "(1+1" = Reference.Err Reference.MismatchedParentheses.
Proof.
  split; [reflexivity |]. split; [reflexivity |].
  split; [discriminate |]. repeat split.
Qed.

(** ** C8: the decimal preview *)

Lemma fold_displayToken (tokens : list TokenNode) (output : string) :
  fold_left displayToken tokens output = output ++ renderPieces tokens.
Proof.
  revert output. induction tokens as [| tok rest IH]; intros output.
  - cbn. now rewrite append_nil_r.
  - cbn [fold_left renderPieces]. rewrite IH.
    unfold displayToken, renderPiece.
    destruct (isBinary tok); [destruct (0 <=? bin2Dec (tokenValue tok)) |];
      now rewrite !append_assoc.
Qed.

(** C8, as stated, at the operand ["101"]: the preview is ["5 "], with a
    space after the only piece, not the space-joined text ["5"]. *)
Lemma preview_has_trailing_space :
  displayInDecimal "101" = "5 " /\ displayInDecimal "101" <> "5".
Proof. split; [reflexivity | discriminate]. Qed.

(** C8 (amended): the preview is the sequence of the tokens' pieces, each
    one followed by a single space (the decimal text of a decoded operand,
    ["?"] when the decoded value is negative, the literal character of a
    symbol); for an operand-only input of binary value below [2^31] it is
    the decimal text of that value followed by one space. *)
Theorem preview_is_pieces_each_followed_by_space :
  (forall expr, displayInDecimal expr = renderPieces (lexify expr)) /\
  (forall x, x <> "" -> allBinary x = true -> binaryValue x < 2 ^ 31 ->
     displayInDecimal x = String_of_long (binaryValue x) ++ " ").
Proof.
  assert (Hgen : forall expr,
             displayInDecimal expr = renderPieces (lexify expr)).
  { intros expr. unfold displayInDecimal. now rewrite fold_displayToken. }
  split; [exact Hgen |].
  intros x Hne Hb Hlt. rewrite Hgen, (lexify_operand _ Hne Hb).
  cbn [renderPieces]. unfold renderPiece. cbn [isBinary tokenValue].
  rewrite (bin2Dec_exact _ Hb Hlt).
  pose proof (binaryValue_bounds x) as Hpos.
  destruct (0 <=? binaryValue x) eqn:E; [reflexivity |].
  apply Z.leb_gt in E. lia.
Qed.

Lemma preview_is_pieces_each_followed_by_space_witness :
  displayInDecimal "1010" = String_of_long (binaryValue "1010") ++ " ".
Proof.
  apply (proj2 preview_is_pieces_each_followed_by_space);
    [discriminate | reflexivity | vm_compute; reflexivity].
Defined.

(** ** C6: the validator *)

Lemma validate_step_count (current : ascii) (n : Z) :
  (let openBrackets := if char_eqb current "(" then n + 1 else n in
   if char_eqb current ")" then openBrackets - 1 else openBrackets)
  = n + bracketDelta current.
Proof.
  cbv zeta. unfold bracketDelta.
  destruct (char_eqb current "(") eqn:E1.
  - apply char_eqb_eq in E1. subst current. cbn. lia.
  - destruct (char_eqb current ")"); lia.
Qed.

(** One unfolding of the loop, with the counter update in closed form. *)
Lemma validate_loop_step (previous : option ascii) (n : Z) (current : ascii)
  (rest : string) :
  validate_loop previous n (String current rest) =
  if n + bracketDelta current <? 0 then false
  else if match previous with
          | Some p => badTransition p current
          | None => false
          end
       then false
       else validate_loop (Some current) (n + bracketDelta current) rest.
Proof.
  cbn [validate_loop]. cbv zeta. rewrite validate_step_count.
  destruct (n + bracketDelta current <? 0); [reflexivity |].
  destruct previous as [p |]; reflexivity.
Qed.

Lemma validate_loop_negative (front back : string) :
  forall previous n,
    0 <= n -> n + openCount front < 0 ->
    validate_loop previous n (front ++ back) = false.
Proof.
  induction front as [| c front IH]; intros previous n Hn Hneg.
  - cbn in Hneg. lia.
  - cbn [append]. rewrite validate_loop_step.
    destruct (n + bracketDelta c <? 0) eqn:E; [reflexivity |].
    apply Z.ltb_ge in E.
    destruct (match previous with
              | Some p => badTransition p c
              | None => false
              end); [reflexivity |].
    apply IH; [exact E | cbn [openCount] in Hneg; lia].
Qed.

Lemma validate_loop_unbalanced (s : string) :
  forall previous n,
    n + openCount s <> 0 -> validate_loop previous n s = false.
Proof.
  induction s as [| c s IH]; intros previous n Hne.
  - cbn in *. apply Z.eqb_neq. lia.
  - rewrite validate_loop_step.
    destruct (n + bracketDelta c <? 0); [reflexivity |].
    destruct (match previous with
              | Some p => badTransition p c
              | None => false
              end); [reflexivity |].
    apply IH. cbn [openCount] in Hne. lia.
Qed.

Lemma validate_loop_adjacent (a b : ascii) (front back : string) :
  badTransition a b = true ->
  forall previous n,
    validate_loop previous n (front ++ String a (String b back)) = false.
Proof.
  intros Hbad. induction front as [| c front IH]; intros previous n.
  - cbn [append]. rewrite validate_loop_step.
    destruct (n + bracketDelta a <? 0); [reflexivity |].
    destruct (match previous with
              | Some p => badTransition p a
              | None => false
              end); [reflexivity |].
    rewrite validate_loop_step, Hbad.
    destruct (n + bracketDelta a + bracketDelta b <? 0); reflexivity.
  - cbn [append]. rewrite validate_loop_step.
    destruct (n + bracketDelta c <? 0); [reflexivity |].
    destruct (match previous with
              | Some p => badTransition p c
              | None => false
              end); [reflexivity |].
    apply IH.
Qed.

Lemma lastChar_append (front : string) (c : ascii) :
  lastChar (front ++ String c "") = c.
Proof.
  induction front as [| x front IH]; [reflexivity |].
  cbn [append lastChar]. rewrite IH.
  destruct (front ++ String c "") eqn:E; [| reflexivity].
  destruct front; discriminate.
Qed.

(** Whatever the first and last characters, a text the loop rejects is
    rejected. *)
Lemma isValidExpression_loop (s : string) :
  validate_loop None 0 s = false -> isValidExpression s = false.
Proof.
  intros H. unfold isValidExpression. rewrite H.
  repeat match goal with |- context [if ?b then _ else _] => destruct b end;
    reflexivity.
Qed.

(** C6: the validator returns [false] on every text that is empty, begins
    with ['+'], ['*'] or ['/'], ends with an operator character, has a
    running parenthesis count that goes below 0 or does not end at 0,
    has two consecutive operator characters, has a binary digit or [')']
    immediately followed by ['('], has [')'] immediately followed by a
    binary digit or ['('], or has ['*'] or ['/'] immediately after ['(']. *)
Theorem isValidExpression_rejects (s : string) :
  rejectedShape s -> isValidExpression s = false.
Proof.
  intros [H | [H | [H | [H | [H | [H | [H | [H | H]]]]]]]].
  - subst s. reflexivity.
  - destruct H as (c & [rest ->] & Hc). unfold isValidExpression.
    cbn [String.length Nat.eqb firstChar].
    destruct Hc as [-> | [-> | ->]]; reflexivity.
  - destruct H as (c & [front ->] & Hc). unfold isValidExpression.
    rewrite lastChar_append, Hc.
    repeat match goal with |- context [if ?b then _ else _] => destruct b end;
      reflexivity.
  - destruct H as (front & back & -> & Hneg).
    apply isValidExpression_loop, validate_loop_negative; lia.
  - apply isValidExpression_loop, validate_loop_unbalanced. lia.
  - destruct H as (a & b & (front & back & ->) & Ha & Hb).
    apply isValidExpression_loop, validate_loop_adjacent.
    unfold badTransition. now rewrite Ha, Hb.
  - destruct H as (a & (front & back & ->) & Ha).
    apply isValidExpression_loop, validate_loop_adjacent.
    unfold badTransition. change (char_eqb "(" "(") with true.
    rewrite andb_true_r.
    destruct Ha as [Ha | ->].
    + unfold isBinaryDigit in Ha. rewrite <- orb_assoc, Ha.
      now rewrite orb_true_r.
    + change (char_eqb ")" ")") with true. now rewrite !orb_true_r.
  - destruct H as (b & (front & back & ->) & Hb).
    apply isValidExpression_loop, validate_loop_adjacent.
    unfold badTransition. change (char_eqb ")" ")") with true.
    destruct Hb as [Hb | ->].
    + unfold isBinaryDigit in Hb. cbn [andb].
      apply orb_true_iff in Hb as [-> | ->];
        now rewrite ?orb_true_r.
    + change (char_eqb "(" "(") with true. cbn [andb orb].
      now rewrite ?orb_true_r.
  - destruct H as (b & (front & back & ->) & Hb).
    apply isValidExpression_loop, validate_loop_adjacent.
    unfold badTransition. change (char_eqb "(" "(") with true.
    destruct Hb as [-> | ->]; cbn; reflexivity.
Qed.

Lemma isValidExpression_rejects_witness : isValidExpression "(1+*1)" = false.
Proof.
  apply isValidExpression_rejects.
  do 5 right. left. exists "+"%char, "*"%char.
  split; [exists "(1", "1)"; reflexivity | split; reflexivity].
Defined.

(** ** C2: precedence *)

Lemma takeBinary_stops (x : string) (s : ascii) (rest : string) :
  allBinary x = true -> isBinaryDigit s = false ->
  takeBinary (x ++ String s rest) = (x, String s rest).
Proof.
  intros Hx Hs. induction x as [| c x IH].
  - cbn. now rewrite Hs.
  - cbn [allBinary] in Hx. apply andb_true_iff in Hx as [Hc Hx].
    cbn [append takeBinary]. rewrite Hc, IH by assumption. reflexivity.
Qed.

(** An operand followed by a non-digit is one token of the unbounded
    tokenization. *)
Lemma tokenize_operand_then (x : string) (s : ascii) (rest : string) :
  x <> "" -> allBinary x = true -> isBinaryDigit s = false ->
  tokenize (x ++ String s rest) =
  mkTokenNode x true :: tokenize (String s rest).
Proof.
  intros Hne Hx Hs. destruct x as [| c x]; [contradiction |].
  pose proof Hx as Hx'. cbn [allBinary] in Hx'.
  apply andb_true_iff in Hx' as [Hc _].
  cbn [append].
  apply tokenize_run; [exact Hc |].
  change (String c (x ++ String s rest)) with (String c x ++ String s rest).
  now apply takeBinary_stops.
Qed.

Lemma tokenize_operand_end (x : string) :
  x <> "" -> allBinary x = true -> tokenize x = [mkTokenNode x true].
Proof.
  intros Hne Hx. destruct x as [| c x]; [contradiction |].
  pose proof Hx as Hx'. cbn [allBinary] in Hx'.
  apply andb_true_iff in Hx' as [Hc _].
  rewrite (tokenize_run c x _ _ Hc (takeBinary_allBinary _ Hx)). reflexivity.
Qed.

Lemma tokenize_symbol (s : ascii) (rest : string) :
  isBinaryDigit s = false -> isSymbolChar s = true ->
  tokenize (String s rest) = mkTokenNode (String s "") false :: tokenize rest.
Proof. intros H1 H2. cbn [tokenize]. now rewrite H1, H2. Qed.

(** The five tokens of [a + b * c]. *)
Lemma lexify_add_mul (a b c : string) :
  a <> "" -> b <> "" -> c <> "" ->
  allBinary a = true -> allBinary b = true -> allBinary c = true ->
  lexify (a ++ "+" ++ b ++ "*" ++ c) =
  [mkTokenNode a true; mkTokenNode "+" false; mkTokenNode b true;
   mkTokenNode "*" false; mkTokenNode c true].
Proof.
  intros Ha Hb Hc Hba Hbb Hbc. rewrite lexify_tokenize.
  cbn [append].
  rewrite tokenize_operand_then by (assumption || reflexivity).
  rewrite tokenize_symbol by reflexivity.
  rewrite tokenize_operand_then by (assumption || reflexivity).
  rewrite tokenize_symbol by reflexivity.
  rewrite tokenize_operand_end by assumption.
  reflexivity.
Qed.

(** An element not above [2^30] is pushed as an operand. *)
Lemma evalRPN_operand (v : Z) (queue stack : list Z) :
  v <= 2 ^ 30 -> (List.length stack < 64)%nat ->
  evalRPN (v :: queue) stack = evalRPN queue (v :: stack).
Proof.
  intros Hv Hlen. cbn [evalRPN]. rewrite OP_OFFSET_eq.
  destruct (2 ^ 30 <? v) eqn:E; [apply Z.ltb_lt in E; lia |].
  unfold SimpleStack.push, SimpleStack.capacity.
  destruct (List.length stack <? 64)%nat eqn:E'; [reflexivity |].
  apply Nat.ltb_ge in E'. lia.
Qed.

(** The code of one of the four operators is applied to the two topmost
    values. *)
Lemma evalRPN_operator (op : ascii) (queue stack : list Z) (x y : Z) :
  isOperatorChar op = true ->
  evalRPN (operatorCode op :: queue) (y :: x :: stack) =
  match executeOperation x y op with
  | Return result =>
      if result =? BAD_RESULT then Return BAD_RESULT
      else evalRPN queue (SimpleStack.push result stack)
  | DivByZeroUB => DivByZeroUB
  end.
Proof.
  intros Hop. unfold isOperatorChar in Hop.
  repeat (apply orb_true_iff in Hop as [Hop | Hop]);
    apply char_eqb_eq in Hop; subst op; reflexivity.
Qed.

Lemma evalRPN_add_mul (va vb vc : Z) :
  va <= 2 ^ 30 -> vb <= 2 ^ 30 -> vc <= 2 ^ 30 ->
  Long.mul vb vc <> BAD_RESULT ->
  evalRPN [va; vb; vc; operatorCode "*"; operatorCode "+"] [] =
  Return (Long.add va (Long.mul vb vc)).
Proof.
  intros Ha Hb Hc Hmul.
  rewrite !evalRPN_operand by (cbn [List.length]; lia).
  rewrite evalRPN_operator by reflexivity.
  change (executeOperation vb vc "*") with (Return (Long.mul vb vc)).
  cbv iota beta. apply Z.eqb_neq in Hmul. rewrite Hmul.
  change (SimpleStack.push (Long.mul vb vc) [va]) with [Long.mul vb vc; va].
  rewrite evalRPN_operator by reflexivity.
  change (executeOperation va (Long.mul vb vc) "+")
    with (Return (Long.add va (Long.mul vb vc))).
  cbv iota beta.
  destruct (Long.add va (Long.mul vb vc) =? BAD_RESULT) eqn:E.
  - apply Z.eqb_eq in E. now rewrite E.
  - reflexivity.
Qed.

(** C2, as stated, at [a] = 31 ones, [b] = ["0"], [c] = ["1"]: the value of
    [a + (b * c)] is [2^31 - 1], the pipeline returns [BAD_RESULT]. *)
Lemma add_mul_large_operand_fails :
  let a := "1111111111111111111111111111111" in
  binaryValue a + binaryValue "0" * binaryValue "1" = 2 ^ 31 - 1 /\
  parseAndEvaluate (a ++ "+" ++ "0" ++ "*" ++ "1") = Return BAD_RESULT /\
  parseAndEvaluate (a ++ "+" ++ "0" ++ "*" ++ "1") <>
  Return (binaryValue a + binaryValue "0" * binaryValue "1").
Proof.
  cbv zeta. split; [reflexivity |].
  split; [vm_compute; reflexivity | vm_compute; discriminate].
Qed.

(** C2 (amended): for all operand literals [a], [b], [c] whose decoded
    values are at most [2^30] and whose product [b * c] in 32-bit arithmetic
    is not the sentinel, [a + b * c] evaluates to [a + (b * c)] in 32-bit
    arithmetic; and on an operator token the translator pops the stacked
    operator first exactly when it is not ['('] and its precedence
    (['+'], ['-'] = 1; ['*'], ['/'] = 2) is at least the current one's. *)
Theorem mul_binds_tighter_than_add :
  (forall a b c : string,
     a <> "" -> b <> "" -> c <> "" ->
     allBinary a = true -> allBinary b = true -> allBinary c = true ->
     bin2Dec a <= 2 ^ 30 -> bin2Dec b <= 2 ^ 30 -> bin2Dec c <= 2 ^ 30 ->
     Long.mul (bin2Dec b) (bin2Dec c) <> BAD_RESULT ->
     parseAndEvaluate (a ++ "+" ++ b ++ "*" ++ c) =
     Return (Long.add (bin2Dec a) (Long.mul (bin2Dec b) (bin2Dec c)))) /\
  (getOperatorPrecedence "+" = 1 /\ getOperatorPrecedence "-" = 1 /\
   getOperatorPrecedence "*" = 2 /\ getOperatorPrecedence "/" = 2) /\
  (forall currentOp topOp below outputQueue,
     isOperatorChar currentOp = true ->
     let tok := mkTokenNode (String currentOp "") false in
     (topOp <> "("%char /\
      getOperatorPrecedence topOp >= getOperatorPrecedence currentOp ->
      shuntToken (topOp :: below, outputQueue) tok =
      shuntToken
        (below, ArduinoQueue.enqueue (operatorCode topOp) outputQueue) tok) /\
     (~ (topOp <> "("%char /\
         getOperatorPrecedence topOp >= getOperatorPrecedence currentOp) ->
      shuntToken (topOp :: below, outputQueue) tok =
      (SimpleStack.push currentOp (topOp :: below), outputQueue))).
Proof.
  split; [| split; [repeat split |]].
  - intros a b c Ha Hb Hc Hba Hbb Hbc Hva Hvb Hvc Hmul.
    unfold parseAndEvaluate.
    rewrite (lexify_add_mul a b c) by assumption.
    destruct a as [| x a]; [contradiction |].
    cbn [append String.length Nat.eqb List.length].
    now apply evalRPN_add_mul.
  - intros currentOp topOp below outputQueue Hop tok.
    assert (Hnot : char_eqb currentOp "(" = false /\
                   char_eqb currentOp ")" = false).
    { unfold isOperatorChar in Hop.
      repeat (apply orb_true_iff in Hop as [Hop | Hop]);
        apply char_eqb_eq in Hop; subst currentOp; split; reflexivity. }
    destruct Hnot as [Hno Hnc].
    subst tok. unfold shuntToken.
    cbn [isBinary tokenValue firstChar]. rewrite Hno, Hnc.
    cbn [popHigher].
    destruct (char_eqb topOp "(") eqn:Etop; cbn [negb andb].
    + apply char_eqb_eq in Etop. split; [intros [Hne _]; contradiction |].
      reflexivity.
    + destruct (getOperatorPrecedence currentOp
                <=? getOperatorPrecedence topOp) eqn:Eprec.
      * split; [reflexivity |].
        intros Hn. exfalso. apply Hn. apply Z.leb_le in Eprec.
        split; [| lia].
        intros ->. discriminate.
      * apply Z.leb_gt in Eprec. split; [| reflexivity].
        intros [_ Hge]. lia.
Qed.

Lemma mul_binds_tighter_than_add_witness :
  parseAndEvaluate ("10" ++ "+" ++ "11" ++ "*" ++ "101") =
  Return (Long.add (bin2Dec "10") (Long.mul (bin2Dec "11") (bin2Dec "101")))
  /\
  shuntToken (["*"%char; "+"%char], [1; 1]) (mkTokenNode "+" false) =
  shuntToken (["+"%char], ArduinoQueue.enqueue (operatorCode "*") [1; 1])
    (mkTokenNode "+" false)
  /\
  shuntToken (["+"%char], [1; 1]) (mkTokenNode "*" false) =
  (SimpleStack.push "*"%char ["+"%char], [1; 1]).
Proof.
  destruct mul_binds_tighter_than_add as (Hval & _ & Hpop).
  split; [| split].
  - apply Hval; try discriminate; try reflexivity.
  - apply (Hpop "+"%char "*"%char ["+"%char] [1; 1] eq_refl).
    split; [discriminate | vm_compute; discriminate].
  - apply (Hpop "*"%char "+"%char [] [1; 1] eq_refl).
    intros [_ Hge]. vm_compute in Hge. apply Hge. reflexivity.
Defined.

(** ** The containers stay within their 64 places *)

Lemma enqueue_bounded {T : Type} (item : T) (q : list T) :
  (List.length q <= 64)%nat ->
  (List.length (ArduinoQueue.enqueue item q) <= 64)%nat.
Proof.
  intros H. unfold ArduinoQueue.enqueue, ArduinoQueue.capacity.
  destruct (List.length q <? 64)%nat eqn:E; [| exact H].
  apply Nat.ltb_lt in E. rewrite length_app. cbn. lia.
Qed.

Lemma push_bounded {T : Type} (item : T) (s : list T) :
  (List.length s <= 64)%nat ->
  (List.length (SimpleStack.push item s) <= 64)%nat.
Proof.
  intros H. unfold SimpleStack.push, SimpleStack.capacity.
  destruct (List.length s <? 64)%nat eqn:E; [| exact H].
  apply Nat.ltb_lt in E. cbn. lia.
Qed.

Lemma pop_bounded {T : Type} (s : list T) :
  (List.length (SimpleStack.pop_ s) <= List.length s)%nat.
Proof. destruct s; cbn; lia. Qed.

Lemma popUntilOpen_bounded (operatorStack : list ascii) :
  forall outputQueue,
    withinCapacity (operatorStack, outputQueue) ->
    withinCapacity (popUntilOpen operatorStack outputQueue).
Proof.
  induction operatorStack as [| topOp below IH]; intros q [Hs Hq].
  - split; [cbn; lia | exact Hq].
  - cbn [popUntilOpen]. destruct (negb (char_eqb topOp "(")).
    + apply IH. split; cbn [fst snd] in *.
      * cbn in Hs. lia.
      * now apply enqueue_bounded.
    + split; assumption.
Qed.

Lemma popHigher_bounded (currentOp : ascii) (operatorStack : list ascii) :
  forall outputQueue,
    withinCapacity (operatorStack, outputQueue) ->
    withinCapacity (popHigher currentOp operatorStack outputQueue).
Proof.
  induction operatorStack as [| topOp below IH]; intros q [Hs Hq].
  - split; [cbn; lia | exact Hq].
  - cbn [popHigher].
    destruct (negb (char_eqb topOp "(") &&
              (getOperatorPrecedence currentOp
               <=? getOperatorPrecedence topOp)).
    + apply IH. split; cbn [fst snd] in *.
      * cbn in Hs. lia.
      * now apply enqueue_bounded.
    + split; assumption.
Qed.

Lemma shuntToken_bounded (st : shunt_state) (tok : TokenNode) :
  withinCapacity st -> withinCapacity (shuntToken st tok).
Proof.
  destruct st as [operatorStack outputQueue]. intros H.
  unfold shuntToken. destruct (isBinary tok).
  - destruct H as [Hs Hq]. split; [exact Hs | now apply enqueue_bounded].
  - destruct (char_eqb (firstChar (tokenValue tok)) "(").
    + destruct H as [Hs Hq]. split; [now apply push_bounded | exact Hq].
    + destruct (char_eqb (firstChar (tokenValue tok)) ")").
      * pose proof (popUntilOpen_bounded _ _ H) as H'.
        destruct (popUntilOpen operatorStack outputQueue) as [s' q'].
        destruct H' as [Hs Hq]. split; [| exact Hq].
        cbn [fst] in *. pose proof (pop_bounded s'). lia.
      * pose proof (popHigher_bounded (firstChar (tokenValue tok)) _ _ H)
          as H'.
        destruct (popHigher _ operatorStack outputQueue) as [s' q'].
        destruct H' as [Hs Hq]. split; [now apply push_bounded | exact Hq].
Qed.

Lemma shunt_fold_bounded (tokens : list TokenNode) :
  forall st, withinCapacity st ->
             withinCapacity (fold_left shuntToken tokens st).
Proof.
  induction tokens as [| tok rest IH]; intros st H; [exact H |].
  cbn [fold_left]. apply IH. now apply shuntToken_bounded.
Qed.

Lemma drainOperators_bounded (operatorStack : list ascii) :
  forall outputQueue,
    (List.length outputQueue <= 64)%nat ->
    (List.length (drainOperators operatorStack outputQueue) <= 64)%nat.
Proof.
  induction operatorStack as [| op below IH]; intros q Hq; [exact Hq |].
  cbn [drainOperators]. apply IH. now apply enqueue_bounded.
Qed.

Lemma toRPN_bounded (tokens : list TokenNode) :
  (List.length (toRPN tokens) <= 64)%nat.
Proof.
  unfold toRPN.
  pose proof (shunt_fold_bounded tokens ([], []))
    as H.
  destruct (fold_left shuntToken tokens ([], [])) as [s q].
  apply drainOperators_bounded. apply H. split; cbn; lia.
Qed.

(** ** The sketch against the engine with structural tags *)

Section Simulation.

Import Reference.

Lemma emit_ok (item : RPNItem) (out out' : list RPNItem) :
  emit item out = Ok out' ->
  out' = (out ++ [item])%list /\ (List.length out < 64)%nat.
Proof.
  unfold emit. destruct (List.length out <? 64)%nat eqn:E; [| discriminate].
  intros H. inversion H. apply Nat.ltb_lt in E. now split.
Qed.

Lemma push_ok {T : Type} (item : T) (stack stack' : list T) :
  push item stack = Ok stack' ->
  stack' = item :: stack /\ (List.length stack < 64)%nat.
Proof.
  unfold push. destruct (List.length stack <? 64)%nat eqn:E; [| discriminate].
  intros H. inversion H. apply Nat.ltb_lt in E. now split.
Qed.

Lemma enqueue_emit (item : RPNItem) (out out' : list RPNItem) :
  emit item out = Ok out' ->
  ArduinoQueue.enqueue (encode item) (map encode out) = map encode out'.
Proof.
  intros H. apply emit_ok in H as [-> Hlen].
  unfold ArduinoQueue.enqueue, ArduinoQueue.capacity.
  rewrite length_map. apply Nat.ltb_lt in Hlen. rewrite Hlen.
  now rewrite map_app.
Qed.

Lemma push_sim {T : Type} (item : T) (stack stack' : list T) :
  push item stack = Ok stack' -> SimpleStack.push item stack = stack'.
Proof.
  intros H. apply push_ok in H as [-> Hlen].
  unfold SimpleStack.push, SimpleStack.capacity.
  apply Nat.ltb_lt in Hlen. now rewrite Hlen.
Qed.

Lemma closeParen_sim (stack : list ascii) :
  forall out st',
    closeParen stack out = Ok st' ->
    (let (s1, q1) := popUntilOpen stack (map encode out) in
     (SimpleStack.pop_ s1, q1)) = (fst st', map encode (snd st')).
Proof.
  induction stack as [| top below IH]; intros out st' H; [discriminate |].
  cbn [closeParen] in H. cbn [popUntilOpen].
  destruct (char_eqb top "(") eqn:Etop; cbn [negb].
  - inversion H. reflexivity.
  - bind_ok H. rewrite (enqueue_emit _ _ _ E : ArduinoQueue.enqueue
      (operatorCode top) (map encode out) = _).
    now apply IH.
Qed.

Lemma popForOperator_sim (op : ascii) (stack : list ascii) :
  forall out st',
    popForOperator op stack out = Ok st' ->
    popHigher op stack (map encode out) = (fst st', map encode (snd st')).
Proof.
  induction stack as [| top below IH]; intros out st' H.
  - inversion H. reflexivity.
  - cbn [popForOperator] in H. cbn [popHigher].
    destruct (negb (char_eqb top "(") &&
              (getOperatorPrecedence op <=? getOperatorPrecedence top)).
    + bind_ok H. rewrite (enqueue_emit _ _ _ E : ArduinoQueue.enqueue
        (operatorCode top) (map encode out) = _).
      now apply IH.
    + inversion H. reflexivity.
Qed.

Lemma decode_ok (literal : string) (v : Z) :
  decode literal = Ok v ->
  v = binaryValue literal /\ allBinary literal = true /\ literal <> "".
Proof.
  unfold decode. destruct literal as [| c rest]; [discriminate |].
  destruct (allBinary (String c rest)) eqn:E; [| discriminate].
  intros H. inversion H. repeat split. discriminate.
Qed.

Lemma decode_bin2Dec (literal : string) (v : Z) :
  decode literal = Ok v -> bin2Dec literal = Long.wrap32 v.
Proof.
  intros H. apply decode_ok in H as (-> & Hb & _). now apply bin2Dec_binary.
Qed.

Lemma step_sim (stack : list ascii) (out : list RPNItem) (tok : TokenNode)
  (st' : state) :
  step (stack, out) tok = Ok st' ->
  shuntToken (stack, map encode out) tok = (fst st', map encode (snd st')).
Proof.
  unfold step, shuntToken. intros H.
  destruct (isBinary tok).
  - bind_ok H. bind_ok H. inversion H. cbn [fst snd].
    rewrite (decode_bin2Dec _ _ E).
    now rewrite (enqueue_emit _ _ _ E0 : ArduinoQueue.enqueue
      (Long.wrap32 a) (map encode out) = _).
  - destruct (char_eqb (firstChar (tokenValue tok)) "(").
    + bind_ok H. inversion H. cbn [fst snd]. now rewrite (push_sim _ _ _ E).
    + destruct (char_eqb (firstChar (tokenValue tok)) ")").
      * now apply closeParen_sim.
      * destruct (isOperatorChar (firstChar (tokenValue tok)));
          [| discriminate].
        bind_ok H. bind_ok H. inversion H. cbn [fst snd].
        rewrite (popForOperator_sim _ _ _ _ E).
        now rewrite (push_sim _ _ _ E0).
Qed.

Lemma steps_sim (tokens : list TokenNode) :
  forall stack out st',
    steps tokens (stack, out) = Ok st' ->
    fold_left shuntToken tokens (stack, map encode out) =
    (fst st', map encode (snd st')).
Proof.
  induction tokens as [| tok rest IH]; intros stack out st' H.
  - inversion H. reflexivity.
  - cbn [steps] in H. bind_ok H. cbn [fold_left].
    rewrite (step_sim _ _ _ _ E). destruct a as [s1 o1]. now apply IH.
Qed.

Lemma drain_sim (stack : list ascii) :
  forall out items,
    drain stack out = Ok items ->
    drainOperators stack (map encode out) = map encode items.
Proof.
  induction stack as [| top below IH]; intros out items H.
  - inversion H. reflexivity.
  - cbn [drain] in H. cbn [drainOperators].
    destruct (char_eqb top "("); [discriminate |].
    bind_ok H. rewrite (enqueue_emit _ _ _ E : ArduinoQueue.enqueue
      (operatorCode top) (map encode out) = _).
    now apply IH.
Qed.

(** When the tagged translation succeeds, the sketch's queue is its
    encoding. *)
Lemma toRPN_sim (tokens : list TokenNode) (items : list RPNItem) :
  translate tokens = Ok items -> toRPN tokens = map encode items.
Proof.
  unfold translate, toRPN. intros H. bind_ok H.
  change (@nil Z) with (map encode []).
  rewrite (steps_sim _ _ _ _ E). destruct a as [s1 o1]. cbn [fst snd] in *.
  now apply drain_sim.
Qed.

(** *** What the tagged translation keeps true *)

Lemma grows_refl (st : state) : grows st st.
Proof. intros H. split; [exact H | auto]. Qed.

Lemma grows_trans (st1 st2 st3 : state) :
  grows st1 st2 -> grows st2 st3 -> grows st1 st3.
Proof.
  intros H12 H23 H1. destruct (H12 H1) as [H2 Hin12].
  destruct (H23 H2) as [H3 Hin23]. split; [exact H3 | auto].
Qed.

(** Moving the top operator of the stack to the output. *)
Lemma grows_emit_top (top : ascii) (below : list ascii)
  (out out' : list RPNItem) :
  char_eqb top "(" = false ->
  emit (OperatorItem top) out = Ok out' ->
  grows (top :: below, out) (below, out').
Proof.
  intros Htop Hemit [Hs Ho]. cbn [fst snd] in *.
  apply emit_ok in Hemit as [-> _].
  inversion Hs as [| c l Hc Hl]; subst.
  split; [split |]; cbn [fst snd].
  - exact Hl.
  - apply Forall_app. split; [exact Ho |].
    constructor; [| constructor]. cbn.
    destruct Hc as [-> | Hc]; [discriminate | exact Hc].
  - intros x Hx. apply in_or_app. now left.
Qed.

Lemma closeParen_grows (stack : list ascii) :
  forall out st',
    closeParen stack out = Ok st' -> grows (stack, out) st'.
Proof.
  induction stack as [| top below IH]; intros out st' H; [discriminate |].
  cbn [closeParen] in H.
  destruct (char_eqb top "(") eqn:Etop.
  - inversion H. intros [Hs Ho]. cbn [fst snd] in *.
    inversion Hs; subst. split; [split; assumption | auto].
  - bind_ok H. eapply grows_trans;
      [eapply grows_emit_top; eassumption | now apply IH].
Qed.

Lemma popForOperator_grows (op : ascii) (stack : list ascii) :
  forall out st',
    popForOperator op stack out = Ok st' -> grows (stack, out) st'.
Proof.
  induction stack as [| top below IH]; intros out st' H.
  - inversion H. apply grows_refl.
  - cbn [popForOperator] in H.
    destruct (char_eqb top "(") eqn:Etop; cbn [negb andb] in H.
    + inversion H. apply grows_refl.
    + destruct (getOperatorPrecedence op <=? getOperatorPrecedence top).
      * bind_ok H. eapply grows_trans;
          [eapply grows_emit_top; eassumption | now apply IH].
      * inversion H. apply grows_refl.
Qed.

Lemma step_grows (st st' : state) (tok : TokenNode) :
  step st tok = Ok st' -> grows st st'.
Proof.
  destruct st as [stack out]. unfold step. intros H.
  destruct (isBinary tok).
  - bind_ok H. bind_ok H. inversion H. apply emit_ok in E0 as [-> _].
    intros [Hs Ho]. cbn [fst snd] in *. split; [split |]; cbn [fst snd].
    + exact Hs.
    + apply Forall_app. split; [exact Ho | repeat constructor].
    + intros x Hx. apply in_or_app. now left.
  - destruct (char_eqb (firstChar (tokenValue tok)) "(") eqn:Eopen.
    + bind_ok H. inversion H. apply push_ok in E as [-> _].
      intros [Hs Ho]. cbn [fst snd] in *.
      split; [split |]; cbn [fst snd]; auto.
      constructor; [| exact Hs]. left. now apply char_eqb_eq.
    + destruct (char_eqb (firstChar (tokenValue tok)) ")").
      * now apply closeParen_grows.
      * destruct (isOperatorChar (firstChar (tokenValue tok))) eqn:Eop;
          [| discriminate].
        bind_ok H. bind_ok H. inversion H. apply push_ok in E0 as [-> _].
        eapply grows_trans; [eapply popForOperator_grows; eassumption |].
        destruct a as [s1 o1]. intros [Hs Ho]. cbn [fst snd] in *.
        split; [split |]; cbn [fst snd]; auto.
        constructor; [| exact Hs]. now right.
Qed.

Lemma steps_grows (tokens : list TokenNode) :
  forall st st', steps tokens st = Ok st' -> grows st st'.
Proof.
  induction tokens as [| tok rest IH]; intros st st' H.
  - inversion H. apply grows_refl.
  - cbn [steps] in H. bind_ok H.
    eapply grows_trans; [eapply step_grows; eassumption | now apply IH].
Qed.

Lemma drain_grows (stack : list ascii) :
  forall out items,
    drain stack out = Ok items -> grows (stack, out) ([], items).
Proof.
  induction stack as [| top below IH]; intros out items H.
  - inversion H. apply grows_refl.
  - cbn [drain] in H. destruct (char_eqb top "(") eqn:Etop; [discriminate |].
    bind_ok H. eapply grows_trans;
      [eapply grows_emit_top; eassumption | now apply IH].
Qed.

(** The operand of a token that was translated is in the output. *)
Lemma steps_operand_in (tokens : list TokenNode) :
  forall st st' tok,
    goodState st ->
    steps tokens st = Ok st' ->
    In tok tokens -> isBinary tok = true ->
    exists v, decode (tokenValue tok) = Ok v /\ In (OperandItem v) (snd st').
Proof.
  induction tokens as [| t rest IH]; intros st st' tok Hgood H Hin Hbin;
    [contradiction |].
  cbn [steps] in H. bind_ok H.
  destruct (step_grows _ _ _ E Hgood) as [Hgood' Hmono].
  destruct Hin as [-> | Hin].
  - destruct st as [stack out]. unfold step in E. rewrite Hbin in E.
    bind_ok E. bind_ok E. inversion E. subst a.
    apply emit_ok in E1 as [-> _]. exists a0. split; [reflexivity |].
    destruct (steps_grows _ _ _ H Hgood') as [_ Hmono'].
    apply Hmono'. cbn [snd]. apply in_or_app. right. now left.
  - eapply IH; eassumption.
Qed.

(** The translated items: only operators are tagged as operators, and
    every operand token is among them. *)
Lemma translate_items (tokens : list TokenNode) (items : list RPNItem) :
  translate tokens = Ok items ->
  Forall validItem items /\
  forall tok, In tok tokens -> isBinary tok = true ->
    exists v, decode (tokenValue tok) = Ok v /\ In (OperandItem v) items.
Proof.
  unfold translate. intros H. bind_ok H.
  assert (Hinit : goodState ([], [])) by (split; constructor).
  destruct (steps_grows _ _ _ E Hinit) as [Hgood _].
  destruct a as [s1 o1]. cbn [fst snd] in H.
  destruct (drain_grows _ _ _ H Hgood) as [[_ Hvalid] Hmono].
  split; [exact Hvalid |].
  intros tok Hin Hbin.
  destruct (steps_operand_in _ _ _ _ Hinit E Hin Hbin) as (v & Hdec & Hv).
  exists v. split; [exact Hdec | now apply Hmono].
Qed.

(** *** Depth of the value stack *)

(** A tagged evaluation that succeeds ends with exactly one value. *)
Lemma evalItems_depth (items : list RPNItem) :
  forall stack r,
    evalItems items stack = Ok r ->
    Z.of_nat (List.length stack) + net items = 1.
Proof.
  induction items as [| item rest IH]; intros stack r H.
  - cbn [evalItems] in H. destruct stack as [| v [| w l]]; try discriminate.
    reflexivity.
  - destruct item as [v | op]; cbn [evalItems net] in *.
    + bind_ok H. apply push_ok in E as [-> _].
      apply IH in H. cbn [List.length] in H. lia.
    + destruct stack as [| rhs [| lhs below]]; try discriminate.
      bind_ok H. bind_ok H. apply push_ok in E0 as [-> _].
      apply IH in H. cbn [List.length] in *. lia.
Qed.

(** An evaluation of the sketch that returns a number other than the
    sentinel ends with exactly one value, too. *)
Lemma evalRPN_depth (queue : list Z) :
  forall stack r,
    (List.length stack + List.length queue <= 64)%nat ->
    evalRPN queue stack = Return r -> r <> BAD_RESULT ->
    Z.of_nat (List.length stack) + netCode queue = 1.
Proof.
  induction queue as [| token rest IH]; intros stack r Hcap H Hr.
  - cbn [evalRPN] in H. unfold finalResult in H.
    destruct stack as [| v [| w l]]; inversion H; try congruence.
    reflexivity.
  - cbn [evalRPN netCode] in *. cbn [List.length] in Hcap.
    destruct (OP_OFFSET <? token).
    + destruct stack as [| y [| x below]]; try (inversion H; congruence).
      destruct (executeOperation x y
                  (char_of_long (Long.sub token OP_OFFSET)))
        as [result |]; [| discriminate].
      destruct (result =? BAD_RESULT); [inversion H; congruence |].
      cbn [List.length] in Hcap.
      assert (Hpush : SimpleStack.push result below = result :: below).
      { unfold SimpleStack.push, SimpleStack.capacity.
        destruct (List.length below <? 64)%nat eqn:E; [reflexivity |].
        apply Nat.ltb_ge in E. lia. }
      rewrite Hpush in H. apply IH in H; [| cbn [List.length]; lia | exact Hr].
      cbn [List.length] in *. lia.
    + assert (Hpush : SimpleStack.push token stack = token :: stack).
      { unfold SimpleStack.push, SimpleStack.capacity.
        destruct (List.length stack <? 64)%nat eqn:E; [reflexivity |].
        apply Nat.ltb_ge in E. lia. }
      rewrite Hpush in H. apply IH in H; [| cbn [List.length]; lia | exact Hr].
      cbn [List.length] in *. lia.
Qed.

Lemma operatorCode_above_offset (op : ascii) :
  isOperatorChar op = true -> (OP_OFFSET <? operatorCode op) = true.
Proof.
  intros Hop. unfold isOperatorChar in Hop.
  repeat (apply orb_true_iff in Hop as [Hop | Hop]);
    apply char_eqb_eq in Hop; subst op; reflexivity.
Qed.

(** Every operand read as an operator lowers the final depth by two. *)
Lemma netCode_encode (items : list RPNItem) :
  Forall validItem items ->
  netCode (map encode items) = net items - 2 * misreadCount items.
Proof.
  induction 1 as [| item rest Hitem _ IH]; [reflexivity |].
  cbn [map netCode net misreadCount]. rewrite IH.
  destruct item as [v | op]; cbn [encode misread] in *.
  - destruct (OP_OFFSET <? Long.wrap32 v); lia.
  - rewrite (operatorCode_above_offset _ Hitem). lia.
Qed.

Lemma misreadCount_nonneg (items : list RPNItem) : 0 <= misreadCount items.
Proof.
  induction items as [| item rest IH]; cbn [misreadCount]; [lia |].
  destruct (misread item); lia.
Qed.

Lemma misreadCount_pos (items : list RPNItem) (item : RPNItem) :
  In item items -> misread item = true -> 1 <= misreadCount items.
Proof.
  induction items as [| i rest IH]; intros Hin Hm; [contradiction |].
  cbn [misreadCount]. pose proof (misreadCount_nonneg rest).
  destruct Hin as [-> | Hin].
  - rewrite Hm. lia.
  - specialize (IH Hin Hm). destruct (misread i); lia.
Qed.

(** An outcome that is not a number other than the sentinel. *)
Lemma outcome_cases (o : outcome) :
  (forall r, o = Return r -> r = BAD_RESULT) ->
  o = Return BAD_RESULT \/ o = DivByZeroUB.
Proof.
  intros H. destruct o as [r |]; [left | now right].
  now rewrite (H r eq_refl).
Qed.

(** Tokens with a value for the tagged engine, one operand of which is
    stored above the operator offset: the sketch returns no number. *)
Lemma misread_operand_no_value (tokens : list TokenNode) (r : Z) :
  evaluateTokens tokens = Ok r ->
  (exists tok, In tok tokens /\ isBinary tok = true /\
               2 ^ 30 < bin2Dec (tokenValue tok)) ->
  interpretTokens tokens = Return BAD_RESULT \/
  interpretTokens tokens = DivByZeroUB.
Proof.
  unfold evaluateTokens. intros H (tok & Hin & Hbin & Hbig).
  bind_ok H. rename a into items.
  destruct (translate_items _ _ E) as [Hvalid Hoperands].
  destruct (Hoperands tok Hin Hbin) as (v & Hdec & Hv).
  apply outcome_cases. intros r' Hr'.
  destruct (Z.eq_dec r' BAD_RESULT) as [| Hne]; [assumption | exfalso].
  unfold interpretTokens in Hr'.
  pose proof (toRPN_bounded tokens) as Hcap.
  apply evalRPN_depth in Hr'; [| cbn [List.length]; lia | exact Hne].
  rewrite (toRPN_sim _ _ E), (netCode_encode _ Hvalid) in Hr'.
  apply evalItems_depth in H.
  assert (Hm : misread (OperandItem v) = true).
  { cbn [misread]. rewrite <- (decode_bin2Dec _ _ Hdec), OP_OFFSET_eq.
    now apply Z.ltb_lt. }
  pose proof (misreadCount_pos _ _ Hv Hm).
  cbn [List.length] in *. lia.
Qed.

End Simulation.

(** ** C10: the sentinel as a computed value *)

(** C10: an operation whose result is the sentinel ends the evaluation with
    [BAD_RESULT], a final value equal to the sentinel is returned as
    [BAD_RESULT], and the caller prints the error line for it.  So the
    valid input [0 - 2^30 - 2^30], whose exact value [- 2^31] fits a
    [long], is reported as an error, and so is [(0 - 2^30 - 2^30) + 1],
    whose value is [- 2^31 + 1]. *)
Theorem sentinel_value_reported_as_failure :
  (forall token queue x y below,
     OP_OFFSET < token ->
     executeOperation x y (char_of_long (Long.sub token OP_OFFSET)) =
     Return BAD_RESULT ->
     evalRPN (token :: queue) (y :: x :: below) = Return BAD_RESULT) /\
  finalResult [BAD_RESULT] = Return BAD_RESULT /\
  resultLine BAD_RESULT = "RESULT:ERROR" /\
  (let expr := "0-" ++ literal_2_pow_30 ++ "-" ++ literal_2_pow_30 in
   isValidExpression expr = true /\
   Reference.evaluate expr = Reference.Ok (- 2 ^ 31) /\
   Long.in_range (- 2 ^ 31) /\
   parseAndEvaluate expr = Return BAD_RESULT) /\
  (let expr := "(0-" ++ literal_2_pow_30 ++ "-" ++ literal_2_pow_30 ++ ")+1" in
   isValidExpression expr = true /\
   Reference.evaluate expr = Reference.Ok (- 2 ^ 31 + 1) /\
   Long.in_range (- 2 ^ 31 + 1) /\
   parseAndEvaluate expr = Return BAD_RESULT).
Proof.
  split.
  { intros token queue x y below Htok Hop. cbn [evalRPN].
    apply Z.ltb_lt in Htok. rewrite Htok, Hop. reflexivity. }
  split; [reflexivity |]. split; [reflexivity |].
  split; cbv zeta; (split; [vm_compute; reflexivity |]);
    (split; [vm_compute; reflexivity |]);
    (split; [| vm_compute; reflexivity]);
    unfold Long.in_range, Long.min_signed, Long.max_signed; lia.
Qed.

Lemma sentinel_value_reported_as_failure_witness :
  evalRPN [operatorCode "-"; 1] [2 ^ 30; - 2 ^ 30] = Return BAD_RESULT.
Proof.
  apply (proj1 sentinel_value_reported_as_failure);
    [vm_compute; reflexivity | vm_compute; reflexivity].
Defined.

(** ** C9: operands above the operator offset *)

(** C9, as stated, at the literal it names, a one followed by 31 zeros: its
    value [2^31] exceeds [2^30], but the decoder stores it as [- 2^31],
    the evaluator reads it as an operand, and the expression [x - x]
    evaluates to its value 0. *)
Lemma wrapped_literal_is_read_as_operand :
  let x := literal_2_pow_31 in
  binaryValue x = 2 ^ 31 /\ 2 ^ 30 < binaryValue x /\
  bin2Dec x = - 2 ^ 31 /\
  Reference.evaluate (x ++ "-" ++ x) = Reference.Ok 0 /\
  parseAndEvaluate (x ++ "-" ++ x) = Return 0.
Proof.
  cbv zeta. repeat split; vm_compute; reflexivity.
Qed.

(** C9 (amended): the evaluator takes a queue element for an operator
    exactly when it is greater than [2^30].  Consequently, for every
    expression that has a value and holds an operand literal whose decoded
    [long] is greater than [2^30] (e.g. 31 ones), the evaluation returns no
    number: it ends in [BAD_RESULT], or in a division by zero; a single such
    operand ends in [BAD_RESULT]. *)
Theorem operand_above_offset_is_read_as_operator :
  (forall token queue stack,
     (2 ^ 30 < token ->
      evalRPN (token :: queue) stack =
      match stack with
      | operand2 :: operand1 :: below =>
          match executeOperation operand1 operand2
                  (char_of_long (Long.sub token OP_OFFSET)) with
          | Return result =>
              if result =? BAD_RESULT then Return BAD_RESULT
              else evalRPN queue (SimpleStack.push result below)
          | DivByZeroUB => DivByZeroUB
          end
      | _ => Return BAD_RESULT
      end) /\
     (token <= 2 ^ 30 ->
      evalRPN (token :: queue) stack =
      evalRPN queue (SimpleStack.push token stack))) /\
  (forall expr r,
     Reference.evaluate expr = Reference.Ok r ->
     (exists tok, In tok (lexify expr) /\ isBinary tok = true /\
                  2 ^ 30 < bin2Dec (tokenValue tok)) ->
     parseAndEvaluate expr = Return BAD_RESULT \/
     parseAndEvaluate expr = DivByZeroUB) /\
  (forall x,
     x <> "" -> allBinary x = true -> 2 ^ 30 < bin2Dec x ->
     parseAndEvaluate x = Return BAD_RESULT).
Proof.
  split; [| split].
  - intros token queue stack. rewrite <- OP_OFFSET_eq. split; intros H.
    + cbn [evalRPN]. apply Z.ltb_lt in H. now rewrite H.
    + cbn [evalRPN]. destruct (OP_OFFSET <? token) eqn:E; [| reflexivity].
      apply Z.ltb_lt in E. lia.
  - intros expr r Href Hbig. unfold Reference.evaluate in Href.
    unfold parseAndEvaluate.
    destruct expr as [| c rest]; [discriminate |].
    cbn [String.length Nat.eqb].
    destruct (lexify (String c rest)) as [| t ts] eqn:Elex; [discriminate |].
    cbn [List.length Nat.eqb].
    eapply misread_operand_no_value; eassumption.
  - intros x Hne Hb Hbig. unfold parseAndEvaluate.
    destruct x as [| c rest]; [contradiction |].
    cbn [String.length Nat.eqb].
    rewrite (lexify_operand _ Hne Hb). cbn [List.length Nat.eqb].
    rewrite interpretTokens_operand. cbn [evalRPN].
    rewrite OP_OFFSET_eq. apply Z.ltb_lt in Hbig. now rewrite Hbig.
Qed.

Lemma operand_above_offset_is_read_as_operator_witness :
  evalRPN [2 ^ 30 + 43] [1; 1] = Return 2 /\
  evalRPN [2 ^ 30] [] = Return (2 ^ 30) /\
  (parseAndEvaluate ("1+" ++ literal_31_ones) = Return BAD_RESULT \/
   parseAndEvaluate ("1+" ++ literal_31_ones) = DivByZeroUB) /\
  parseAndEvaluate literal_31_ones = Return BAD_RESULT.
Proof.
  destruct operand_above_offset_is_read_as_operator as (Hcls & Hexpr & Hone).
  split; [| split; [| split]].
  - rewrite (proj1 (Hcls (2 ^ 30 + 43) [] [1; 1]));
      [reflexivity | vm_compute; reflexivity].
  - rewrite (proj2 (Hcls (2 ^ 30) [] []));
      [reflexivity | vm_compute; discriminate].
  - apply (Hexpr _ (1 + (2 ^ 31 - 1))); [vm_compute; reflexivity |].
    exists (mkTokenNode literal_31_ones true).
    split; [vm_compute; auto | split; [reflexivity | vm_compute; reflexivity]].
  - apply Hone; [discriminate | reflexivity | vm_compute; reflexivity].
Defined.

(* ================================================================== *)
(** * Further properties of the sketch *)

(** ** The validator accepts everything else *)

Lemma nonempty_lastChar (s : string) :
  s <> "" -> exists front, s = front ++ String (lastChar s) "".
Proof.
  induction s as [| c rest IH]; intros Hne; [contradiction |].
  destruct rest as [| c' rest'].
  - exists "". reflexivity.
  - destruct IH as [front Hfront]; [discriminate |].
    exists (String c front).
    change (lastChar (String c (String c' rest')))
      with (lastChar (String c' rest')).
    cbn [append]. now rewrite <- Hfront.
Qed.

(** Why the loop of the validator says no. *)
Lemma validate_loop_false (s : string) :
  forall previous n,
    0 <= n ->
    validate_loop previous n s = false ->
    (exists front back, s = front ++ back /\ n + openCount front < 0)
    \/ n + openCount s <> 0
    \/ (exists a b, adjacent a b s /\ badTransition a b = true)
    \/ (exists p c rest, previous = Some p /\ s = String c rest /\
                         badTransition p c = true).
Proof.
  induction s as [| c rest IH]; intros previous n Hn H.
  - cbn in H. apply Z.eqb_neq in H. right. left. cbn. lia.
  - rewrite validate_loop_step in H.
    destruct (n + bracketDelta c <? 0) eqn:Eneg.
    { apply Z.ltb_lt in Eneg. left. exists (String c ""), rest.
      split; [reflexivity | cbn; lia]. }
    apply Z.ltb_ge in Eneg.
    destruct previous as [p |].
    + destruct (badTransition p c) eqn:Ebad.
      { right. right. right. exists p, c, rest. now repeat split. }
      destruct (IH _ _ Eneg H) as [Hc | [Hc | [Hc | Hc]]].
      * destruct Hc as (front & back & -> & Hlt). left.
        exists (String c front), back. split; [reflexivity |].
        cbn [openCount]. lia.
      * right. left. cbn [openCount]. lia.
      * destruct Hc as (a & b & (front & back & ->) & Hab).
        right. right. left. exists a, b. split; [| exact Hab].
        exists (String c front), back. reflexivity.
      * destruct Hc as (p' & c' & rest' & Hp & -> & Hbad').
        inversion Hp; subst p'.
        right. right. left. exists c, c'. split; [| exact Hbad'].
        exists "", rest'. reflexivity.
    + destruct (IH _ _ Eneg H) as [Hc | [Hc | [Hc | Hc]]].
      * destruct Hc as (front & back & -> & Hlt). left.
        exists (String c front), back. split; [reflexivity |].
        cbn [openCount]. lia.
      * right. left. cbn [openCount]. lia.
      * destruct Hc as (a & b & (front & back & ->) & Hab).
        right. right. left. exists a, b. split; [| exact Hab].
        exists (String c front), back. reflexivity.
      * destruct Hc as (p' & c' & rest' & Hp & -> & Hbad').
        inversion Hp; subst p'.
        right. right. left. exists c, c'. split; [| exact Hbad'].
        exists "", rest'. reflexivity.
Qed.

(** A bad transition is one of the four adjacency shapes. *)
Lemma badTransition_shape (a b : ascii) (s : string) :
  adjacent a b s -> badTransition a b = true ->
  (exists a b, adjacent a b s /\
               isOperatorChar a = true /\ isOperatorChar b = true)
  \/ (exists a, adjacent a "(" s /\ (isBinaryDigit a = true \/ a = ")"%char))
  \/ (exists b, adjacent ")" b s /\ (isBinaryDigit b = true \/ b = "("%char))
  \/ (exists b, adjacent "(" b s /\ (b = "*" \/ b = "/")%char).
Proof.
  intros Hadj Hbad. unfold badTransition in Hbad.
  apply orb_true_iff in Hbad as [Hbad | Hbad];
    [apply orb_true_iff in Hbad as [Hbad | Hbad];
     [apply orb_true_iff in Hbad as [Hbad | Hbad] |] |].
  - apply andb_true_iff in Hbad as [Ha Hb]. left. now exists a, b.
  - apply andb_true_iff in Hbad as [Ha Hb]. apply char_eqb_eq in Hb. subst b.
    right. left. exists a. split; [exact Hadj |].
    apply orb_true_iff in Ha as [Ha | Ha].
    + left. exact Ha.
    + right. now apply char_eqb_eq.
  - apply andb_true_iff in Hbad as [Ha Hb]. apply char_eqb_eq in Ha. subst a.
    right. right. left. exists b. split; [exact Hadj |].
    apply orb_true_iff in Hb as [Hb | Hb].
    + left. exact Hb.
    + right. now apply char_eqb_eq.
  - apply andb_true_iff in Hbad as [Hb Ha]. apply char_eqb_eq in Ha. subst a.
    right. right. right. exists b. split; [exact Hadj |].
    apply orb_true_iff in Hb as [Hb | Hb]; apply char_eqb_eq in Hb; auto.
Qed.

(** X1: whenever the validator returns [false], the text has one of the
    shapes it is meant to reject: the validator accepts every other
    text. *)
Theorem isValidExpression_false_has_rejected_shape (s : string) :
  isValidExpression s = false -> rejectedShape s.
Proof.
  unfold isValidExpression. intros H.
  destruct s as [| c rest]; [now left |].
  cbn [String.length Nat.eqb] in H.
  destruct (char_eqb (firstChar (String c rest)) "+"
            || char_eqb (firstChar (String c rest)) "*"
            || char_eqb (firstChar (String c rest)) "/") eqn:Efirst.
  { right. left. exists c. split; [now exists rest |].
    cbn [firstChar] in Efirst.
    apply orb_true_iff in Efirst as [Efirst | Efirst];
      [apply orb_true_iff in Efirst as [Efirst | Efirst] |];
      apply char_eqb_eq in Efirst; auto. }
  destruct (isOperatorChar (lastChar (String c rest))) eqn:Elast.
  { right. right. left. exists (lastChar (String c rest)).
    split; [| exact Elast].
    apply nonempty_lastChar. discriminate. }
  apply validate_loop_false in H; [| lia].
  destruct H as [Hc | [Hc | [Hc | Hc]]].
  - do 3 right. left. destruct Hc as (front & back & Heq & Hlt).
    exists front, back. split; [exact Heq | lia].
  - do 4 right. left. lia.
  - destruct Hc as (a & b & Hadj & Hbad).
    do 5 right. exact (badTransition_shape _ _ _ Hadj Hbad).
  - destruct Hc as (p & _ & _ & Hp & _). discriminate.
Qed.

Lemma isValidExpression_false_has_rejected_shape_witness :
  rejectedShape "1+(*1)".
Proof.
  apply isValidExpression_false_has_rejected_shape. reflexivity.
Defined.

(** ** What the lexer produces *)

Lemma tokenize_wellFormed (s : string) :
  Forall (fun tok => wellFormedToken tok = true) (tokenize s).
Proof.
  induction s as [| c rest IH]; [constructor |].
  cbn [tokenize]. destruct (isBinaryDigit c) eqn:Hc.
  - destruct (tokenize rest) as [| t ts].
    + constructor; [| constructor].
      unfold wellFormedToken. cbn. now rewrite Hc.
    + inversion IH as [| ? ? Ht Hts]; subst.
      destruct (isBinary t && isBinaryDigit (firstChar rest)) eqn:E.
      * constructor; [| exact Hts].
        apply andb_true_iff in E as [Hbin _].
        unfold wellFormedToken in *. rewrite Hbin in Ht.
        apply andb_true_iff in Ht as [_ Hall].
        cbn [isBinary tokenValue String.length Nat.eqb negb allBinary andb].
        now rewrite Hc, Hall.
      * constructor; [| exact IH].
        unfold wellFormedToken. cbn. now rewrite Hc.
  - destruct (isSymbolChar c) eqn:Hs; [| exact IH].
    constructor; [| exact IH]. unfold wellFormedToken. cbn. exact Hs.
Qed.

Lemma Forall_firstn {T : Type} (P : T -> Prop) (n : nat) (l : list T) :
  Forall P l -> Forall P (firstn n l).
Proof.
  revert n. induction l as [| x l IH]; intros n H.
  - rewrite firstn_nil. constructor.
  - destruct n; [constructor |]. inversion H; subst.
    cbn. constructor; auto.
Qed.

(** X2: every token of [lexify] is either an operand whose text is a
    non-empty run of binary digits, or a symbol whose text is exactly one
    of the six characters [( ) + - * /]. *)
Theorem lexify_tokens_wellFormed (expr : string) :
  Forall (fun tok => wellFormedToken tok = true) (lexify expr).
Proof.
  rewrite lexify_tokenize. apply Forall_firstn, tokenize_wellFormed.
Qed.

Lemma tokenize_texts (s : string) :
  concatTexts (tokenize s) = filterString isTokenChar s.
Proof.
  induction s as [| c rest IH]; [reflexivity |].
  cbn [tokenize filterString]. unfold isTokenChar at 1.
  destruct (isBinaryDigit c) eqn:Hc; cbn [orb].
  - rewrite <- IH. destruct (tokenize rest) as [| t ts]; [reflexivity |].
    destruct (isBinary t && isBinaryDigit (firstChar rest)); reflexivity.
  - destruct (isSymbolChar c); [| exact IH].
    cbn [concatTexts tokenValue append]. now rewrite IH.
Qed.

Lemma tokenize_length (s : string) :
  (List.length (tokenize s) <= String.length s)%nat.
Proof.
  induction s as [| c rest IH]; [cbn; lia |].
  cbn [tokenize String.length]. destruct (isBinaryDigit c).
  - destruct (tokenize rest) as [| t ts]; [cbn; lia |].
    destruct (isBinary t && isBinaryDigit (firstChar rest));
      cbn [List.length] in *; lia.
  - destruct (isSymbolChar c); cbn [List.length]; lia.
Qed.

(** X3: on a text of at most 100 characters nothing but the skipped
    characters is lost: the texts of the tokens, put together, are the
    input without the characters that are neither binary digits nor
    symbols. *)
Theorem lexify_keeps_token_characters (expr : string) :
  (String.length expr <= TOKEN_CAP)%nat ->
  concatTexts (lexify expr) = filterString isTokenChar expr.
Proof.
  intros Hlen. rewrite lexify_tokenize, firstn_all2.
  - apply tokenize_texts.
  - pose proof (tokenize_length expr). lia.
Qed.

Lemma lexify_keeps_token_characters_witness :
  concatTexts (lexify "10 + x(1)") = "10+(1)".
Proof.
  apply (lexify_keeps_token_characters "10 + x(1)").
  unfold TOKEN_CAP. cbn. lia.
Defined.

Lemma tokenize_no_token_chars (s : string) :
  forallChars (fun c => negb (isTokenChar c)) s = true -> tokenize s = [].
Proof.
  induction s as [| c rest IH]; intros H; [reflexivity |].
  cbn [forallChars] in H. apply andb_true_iff in H as [Hc Hrest].
  apply negb_true_iff, orb_false_iff in Hc as [Hd Hs].
  cbn [tokenize]. rewrite Hd, Hs. now apply IH.
Qed.

(** X4: a text with no binary digit and no symbol gives no token, and the
    engine answers [BAD_RESULT] for it, as it does for the empty text; its
    preview is empty. *)
Theorem no_token_is_bad_result (expr : string) :
  forallChars (fun c => negb (isTokenChar c)) expr = true ->
  lexify expr = [] /\
  parseAndEvaluate expr = Return BAD_RESULT /\
  displayInDecimal expr = "".
Proof.
  intros H.
  assert (Hlex : lexify expr = []).
  { rewrite lexify_tokenize, (tokenize_no_token_chars _ H). reflexivity. }
  split; [exact Hlex |]. split.
  - unfold parseAndEvaluate. rewrite Hlex.
    destruct (String.length expr =? 0)%nat; reflexivity.
  - unfold displayInDecimal. now rewrite Hlex.
Qed.

Lemma no_token_is_bad_result_witness :
  lexify " x = 2 " = [] /\
  parseAndEvaluate " x = 2 " = Return BAD_RESULT /\
  displayInDecimal " x = 2 " = "".
Proof.
  apply no_token_is_bad_result. reflexivity.
Defined.

(** ** The decoder on a text made of two parts *)

Lemma length_append_nat (a b : string) :
  String.length (a ++ b) = (String.length a + String.length b)%nat.
Proof. induction a as [| x a IH]; cbn; [reflexivity | now rewrite IH]. Qed.

Lemma allBinary_app (a b : string) :
  allBinary (a ++ b) = allBinary a && allBinary b.
Proof.
  induction a as [| c a IH]; [reflexivity |].
  cbn [append allBinary]. now rewrite IH, andb_assoc.
Qed.

Lemma binaryValue_app (a b : string) :
  binaryValue (a ++ b) =
  binaryValue a * 2 ^ Z.of_nat (String.length b) + binaryValue b.
Proof.
  induction a as [| c a IH]; [cbn; lia |].
  cbn [append binaryValue]. rewrite IH, length_append_nat.
  rewrite Nat2Z.inj_add, Z.pow_add_r by lia. ring.
Qed.

Lemma wrap32_combine (x y k : Z) :
  Long.wrap32 (Long.wrap32 x * k + Long.wrap32 y) = Long.wrap32 (x * k + y).
Proof.
  apply wrap32_congr.
  destruct (wrap32_diff x) as [i ->]. destruct (wrap32_diff y) as [j ->].
  replace ((x + i * 2 ^ 32) * k + (y + j * 2 ^ 32) - (x * k + y))
    with ((i * k + j) * 2 ^ 32) by ring.
  apply Z.mod_mul. lia.
Qed.

Lemma bin2Dec_leading_zero (s : string) : bin2Dec (String "0" s) = bin2Dec s.
Proof. reflexivity. Qed.

(** X5: the decoder composes over concatenation: for two texts of binary
    digits, decoding [a ++ b] is decoding [a], shifting it left by the
    length of [b] and adding the decoding of [b], in 32-bit arithmetic; and
    zeros put in front of any text never change what it decodes to. *)
Theorem bin2Dec_concatenation :
  (forall a b : string,
     allBinary a = true -> allBinary b = true ->
     bin2Dec (a ++ b) =
     Long.wrap32 (bin2Dec a * 2 ^ Z.of_nat (String.length b) + bin2Dec b)) /\
  (forall (n : nat) (s : string), bin2Dec (repeatChar "0" n ++ s) = bin2Dec s).
Proof.
  split.
  - intros a b Ha Hb.
    rewrite (bin2Dec_binary a Ha), (bin2Dec_binary b Hb), wrap32_combine.
    rewrite bin2Dec_binary by (rewrite allBinary_app, Ha, Hb; reflexivity).
    now rewrite binaryValue_app.
  - intros n s. induction n as [| n IH]; [reflexivity |].
    cbn [repeatChar append]. now rewrite bin2Dec_leading_zero.
Qed.

Lemma bin2Dec_concatenation_witness :
  bin2Dec ("101" ++ "11") =
  Long.wrap32 (bin2Dec "101" * 2 ^ Z.of_nat (String.length "11") + bin2Dec "11").
Proof.
  apply (proj1 bin2Dec_concatenation); reflexivity.
Defined.

(** ** Expressions of two and three operands *)

Lemma operator_cases (op : ascii) :
  isOperatorChar op = true ->
  op = "+"%char \/ op = "-"%char \/ op = "*"%char \/ op = "/"%char.
Proof.
  unfold isOperatorChar. intros H.
  repeat (apply orb_true_iff in H as [H | H]);
    apply char_eqb_eq in H; auto.
Qed.

Lemma String_nonempty (c : ascii) (s : string) : String c s <> "".
Proof. discriminate. Qed.

Lemma append_nonempty (a b : string) : a <> "" -> a ++ b <> "".
Proof. destruct a; [contradiction | discriminate]. Qed.

(** The entry point on a text whose tokens are known. *)
Lemma parse_of_tokens (expr : string) (tokens : list TokenNode) :
  expr <> "" -> lexify expr = tokens -> tokens <> [] ->
  parseAndEvaluate expr = evalRPN (toRPN tokens) [].
Proof.
  intros Hne Hlex Htok. unfold parseAndEvaluate. rewrite Hlex.
  destruct expr; [contradiction |]. destruct tokens; [contradiction |].
  reflexivity.
Qed.

(** Rewrites the tokenization of a text built from operands and single
    symbols into the list of its tokens. *)
Ltac lex_tokens :=
  rewrite lexify_tokenize; cbn [append];
  repeat (first
    [ rewrite tokenize_operand_then by (assumption || reflexivity)
    | rewrite tokenize_symbol by reflexivity
    | rewrite tokenize_operand_end by assumption ]);
  reflexivity.

Lemma evalRPN_then (op : ascii) (queue stack : list Z) (x y : Z) :
  isOperatorChar op = true ->
  evalRPN (operatorCode op :: queue) (y :: x :: stack) =
  thenOperation (executeOperation x y op)
    (fun result => evalRPN queue (SimpleStack.push result stack)).
Proof. intros Hop. now rewrite evalRPN_operator. Qed.

Lemma evalRPN_last_operator (op : ascii) (x y : Z) :
  isOperatorChar op = true ->
  evalRPN [operatorCode op] [y; x] = executeOperation x y op.
Proof.
  intros Hop. rewrite evalRPN_operator by assumption.
  destruct (executeOperation x y op) as [result |]; [| reflexivity].
  destruct (result =? BAD_RESULT) eqn:E; [| reflexivity].
  apply Z.eqb_eq in E. now rewrite E.
Qed.

(** An operator met with fewer than two values ends the evaluation. *)
Lemma evalRPN_operator_short (op : ascii) (queue stack : list Z) :
  isOperatorChar op = true -> (List.length stack < 2)%nat ->
  evalRPN (operatorCode op :: queue) stack = Return BAD_RESULT.
Proof.
  intros Hop Hlen. cbn [evalRPN].
  rewrite (operatorCode_above_offset _ Hop).
  destruct stack as [| y [| x below]]; [reflexivity | reflexivity |].
  cbn in Hlen. lia.
Qed.

Lemma lexify_binary (a b : string) (op : ascii) :
  a <> "" -> b <> "" -> allBinary a = true -> allBinary b = true ->
  isOperatorChar op = true ->
  lexify (a ++ String op b) =
  [mkTokenNode a true; mkTokenNode (String op "") false; mkTokenNode b true].
Proof.
  intros Ha Hb Hba Hbb Hop.
  destruct (operator_cases _ Hop) as [-> | [-> | [-> | ->]]]; lex_tokens.
Qed.

Lemma toRPN_binary (a b : string) (op : ascii) :
  isOperatorChar op = true ->
  toRPN [mkTokenNode a true; mkTokenNode (String op "") false;
         mkTokenNode b true] =
  [bin2Dec a; bin2Dec b; operatorCode op].
Proof.
  intros Hop.
  destruct (operator_cases _ Hop) as [-> | [-> | [-> | ->]]]; reflexivity.
Qed.

Lemma parse_binary (a b : string) (op : ascii) :
  a <> "" -> b <> "" -> allBinary a = true -> allBinary b = true ->
  isOperatorChar op = true ->
  bin2Dec a <= 2 ^ 30 -> bin2Dec b <= 2 ^ 30 ->
  parseAndEvaluate (a ++ String op b) =
  executeOperation (bin2Dec a) (bin2Dec b) op.
Proof.
  intros Ha Hb Hba Hbb Hop Hva Hvb.
  rewrite (parse_of_tokens _ _ (append_nonempty _ _ Ha)
             (lexify_binary a b op Ha Hb Hba Hbb Hop)) by discriminate.
  rewrite toRPN_binary by assumption.
  rewrite !evalRPN_operand by (cbn [List.length]; lia).
  now apply evalRPN_last_operator.
Qed.

(** The five elements of a left-grouped and of a right-grouped queue. *)
Lemma evalRPN_left_grouped (op1 op2 : ascii) (va vb vc : Z) :
  isOperatorChar op1 = true -> isOperatorChar op2 = true ->
  va <= 2 ^ 30 -> vb <= 2 ^ 30 -> vc <= 2 ^ 30 ->
  evalRPN [va; vb; operatorCode op1; vc; operatorCode op2] [] =
  thenOperation (executeOperation va vb op1)
    (fun result => executeOperation result vc op2).
Proof.
  intros H1 H2 Ha Hb Hc.
  rewrite !evalRPN_operand by (cbn [List.length]; lia).
  rewrite evalRPN_then by assumption.
  unfold thenOperation.
  destruct (executeOperation va vb op1) as [result |]; [| reflexivity].
  destruct (result =? BAD_RESULT); [reflexivity |].
  change (SimpleStack.push result []) with [result].
  rewrite evalRPN_operand by (cbn [List.length]; lia).
  now apply evalRPN_last_operator.
Qed.

Lemma evalRPN_right_grouped (op1 op2 : ascii) (va vb vc : Z) :
  isOperatorChar op1 = true -> isOperatorChar op2 = true ->
  va <= 2 ^ 30 -> vb <= 2 ^ 30 -> vc <= 2 ^ 30 ->
  evalRPN [va; vb; vc; operatorCode op2; operatorCode op1] [] =
  thenOperation (executeOperation vb vc op2)
    (fun result => executeOperation va result op1).
Proof.
  intros H1 H2 Ha Hb Hc.
  rewrite !evalRPN_operand by (cbn [List.length]; lia).
  rewrite evalRPN_then by assumption.
  unfold thenOperation.
  destruct (executeOperation vb vc op2) as [result |]; [| reflexivity].
  destruct (result =? BAD_RESULT); [reflexivity |].
  change (SimpleStack.push result [va]) with [result; va].
  now apply evalRPN_last_operator.
Qed.

(** Splits a goal about two operators into its sixteen concrete cases. *)
Ltac each_operator_pair H1 H2 :=
  destruct (operator_cases _ H1) as [-> | [-> | [-> | ->]]];
  destruct (operator_cases _ H2) as [-> | [-> | [-> | ->]]].

Lemma lexify_chain (a b c : string) (op1 op2 : ascii) :
  a <> "" -> b <> "" -> c <> "" ->
  allBinary a = true -> allBinary b = true -> allBinary c = true ->
  isOperatorChar op1 = true -> isOperatorChar op2 = true ->
  lexify (a ++ String op1 (b ++ String op2 c)) =
  [mkTokenNode a true; mkTokenNode (String op1 "") false; mkTokenNode b true;
   mkTokenNode (String op2 "") false; mkTokenNode c true].
Proof.
  intros Ha Hb Hc Hba Hbb Hbc H1 H2. each_operator_pair H1 H2; lex_tokens.
Qed.

Lemma toRPN_chain (a b c : string) (op1 op2 : ascii) :
  isOperatorChar op1 = true -> isOperatorChar op2 = true ->
  toRPN [mkTokenNode a true; mkTokenNode (String op1 "") false;
         mkTokenNode b true; mkTokenNode (String op2 "") false;
         mkTokenNode c true] =
  if getOperatorPrecedence op2 <=? getOperatorPrecedence op1
  then [bin2Dec a; bin2Dec b; operatorCode op1; bin2Dec c; operatorCode op2]
  else [bin2Dec a; bin2Dec b; bin2Dec c; operatorCode op2; operatorCode op1].
Proof.
  intros H1 H2. each_operator_pair H1 H2; reflexivity.
Qed.

(** X7: in [a op1 b op2 c], with operands of decoded value at most [2^30]
    and any two of the four operators, the first operation is done first
    unless the second operator has the higher precedence: operators of
    equal precedence group from the left, ['*'] and ['/'] bind tighter
    than ['+'] and ['-'].  An intermediate result equal to the sentinel,
    or a division by zero, ends the evaluation. *)
Theorem three_operand_expression_groups (a b c : string) (op1 op2 : ascii) :
  a <> "" -> b <> "" -> c <> "" ->
  allBinary a = true -> allBinary b = true -> allBinary c = true ->
  isOperatorChar op1 = true -> isOperatorChar op2 = true ->
  bin2Dec a <= 2 ^ 30 -> bin2Dec b <= 2 ^ 30 -> bin2Dec c <= 2 ^ 30 ->
  parseAndEvaluate (a ++ String op1 (b ++ String op2 c)) =
  if getOperatorPrecedence op2 <=? getOperatorPrecedence op1
  then thenOperation (executeOperation (bin2Dec a) (bin2Dec b) op1)
         (fun result => executeOperation result (bin2Dec c) op2)
  else thenOperation (executeOperation (bin2Dec b) (bin2Dec c) op2)
         (fun result => executeOperation (bin2Dec a) result op1).
Proof.
  intros Ha Hb Hc Hba Hbb Hbc H1 H2 Hva Hvb Hvc.
  rewrite (parse_of_tokens _ _ (append_nonempty _ _ Ha)
             (lexify_chain a b c op1 op2 Ha Hb Hc Hba Hbb Hbc H1 H2))
    by discriminate.
  rewrite toRPN_chain by assumption.
  destruct (getOperatorPrecedence op2 <=? getOperatorPrecedence op1).
  - now apply evalRPN_left_grouped.
  - now apply evalRPN_right_grouped.
Qed.

Lemma three_operand_expression_groups_witness :
  parseAndEvaluate ("1000" ++ String "-" ("11" ++ String "-" "10")) =
  Return 3 /\
  parseAndEvaluate ("1000" ++ String "-" ("11" ++ String "*" "10")) =
  Return 2.
Proof.
  split.
  - rewrite three_operand_expression_groups;
      try discriminate; reflexivity.
  - rewrite three_operand_expression_groups;
      try discriminate; reflexivity.
Defined.

Lemma lexify_left_parens (a b c : string) (op1 op2 : ascii) :
  a <> "" -> b <> "" -> c <> "" ->
  allBinary a = true -> allBinary b = true -> allBinary c = true ->
  isOperatorChar op1 = true -> isOperatorChar op2 = true ->
  lexify ("(" ++ a ++ String op1 (b ++ ")" ++ String op2 c)) =
  [mkTokenNode "(" false; mkTokenNode a true;
   mkTokenNode (String op1 "") false; mkTokenNode b true;
   mkTokenNode ")" false; mkTokenNode (String op2 "") false;
   mkTokenNode c true].
Proof.
  intros Ha Hb Hc Hba Hbb Hbc H1 H2. each_operator_pair H1 H2; lex_tokens.
Qed.

Lemma lexify_right_parens (a b c : string) (op1 op2 : ascii) :
  a <> "" -> b <> "" -> c <> "" ->
  allBinary a = true -> allBinary b = true -> allBinary c = true ->
  isOperatorChar op1 = true -> isOperatorChar op2 = true ->
  lexify (a ++ String op1 ("(" ++ b ++ String op2 (c ++ ")"))) =
  [mkTokenNode a true; mkTokenNode (String op1 "") false;
   mkTokenNode "(" false; mkTokenNode b true;
   mkTokenNode (String op2 "") false; mkTokenNode c true;
   mkTokenNode ")" false].
Proof.
  intros Ha Hb Hc Hba Hbb Hbc H1 H2. each_operator_pair H1 H2; lex_tokens.
Qed.

Lemma toRPN_left_parens (a b c : string) (op1 op2 : ascii) :
  isOperatorChar op1 = true -> isOperatorChar op2 = true ->
  toRPN [mkTokenNode "(" false; mkTokenNode a true;
         mkTokenNode (String op1 "") false; mkTokenNode b true;
         mkTokenNode ")" false; mkTokenNode (String op2 "") false;
         mkTokenNode c true] =
  [bin2Dec a; bin2Dec b; operatorCode op1; bin2Dec c; operatorCode op2].
Proof.
  intros H1 H2. each_operator_pair H1 H2; reflexivity.
Qed.

Lemma toRPN_right_parens (a b c : string) (op1 op2 : ascii) :
  isOperatorChar op1 = true -> isOperatorChar op2 = true ->
  toRPN [mkTokenNode a true; mkTokenNode (String op1 "") false;
         mkTokenNode "(" false; mkTokenNode b true;
         mkTokenNode (String op2 "") false; mkTokenNode c true;
         mkTokenNode ")" false] =
  [bin2Dec a; bin2Dec b; bin2Dec c; operatorCode op2; operatorCode op1].
Proof.
  intros H1 H2. each_operator_pair H1 H2; reflexivity.
Qed.

(** X6: for two operands of decoded value at most [2^30] and any of the
    four operators, [a op b] evaluates to what [executeOperation] gives for
    the decoded operands.  For two operands whose numerals have a value of
    at most [2^30], so that they are decoded without wrap-around: the sum
    and the product are exact when they stay below [2^31], the difference
    is always exact, the quotient by a divisor other than zero is the
    integer quotient, and the quotient of the negative number [0 - a] by
    such a divisor is rounded toward zero.  The numeral of [2^31] shows
    why the value of the numeral is what counts: it is decoded to [-2^31],
    which is below [2^30], and its difference with 1 is [2^31 - 1]. *)
Theorem two_operand_expression_evaluates :
  (forall (a b : string) (op : ascii),
     a <> "" -> b <> "" -> allBinary a = true -> allBinary b = true ->
     isOperatorChar op = true ->
     bin2Dec a <= 2 ^ 30 -> bin2Dec b <= 2 ^ 30 ->
     parseAndEvaluate (a ++ String op b) =
     executeOperation (bin2Dec a) (bin2Dec b) op) /\
  (forall a b : string,
     a <> "" -> b <> "" -> allBinary a = true -> allBinary b = true ->
     binaryValue a <= 2 ^ 30 -> binaryValue b <= 2 ^ 30 ->
     (binaryValue a + binaryValue b < 2 ^ 31 ->
      parseAndEvaluate (a ++ "+" ++ b) =
      Return (binaryValue a + binaryValue b)) /\
     parseAndEvaluate (a ++ "-" ++ b) = Return (binaryValue a - binaryValue b)
     /\
     (binaryValue a * binaryValue b < 2 ^ 31 ->
      parseAndEvaluate (a ++ "*" ++ b) =
      Return (binaryValue a * binaryValue b)) /\
     (binaryValue b <> 0 ->
      parseAndEvaluate (a ++ "/" ++ b) =
      Return (Z.quot (binaryValue a) (binaryValue b))) /\
     (binaryValue b <> 0 ->
      parseAndEvaluate ("(0-" ++ a ++ ")/" ++ b) =
      Return (Z.quot (- binaryValue a) (binaryValue b)) /\
      Z.quot (- binaryValue a) (binaryValue b) =
      - (binaryValue a / binaryValue b))) /\
  (bin2Dec literal_2_pow_31 = - 2 ^ 31 /\
   binaryValue literal_2_pow_31 = 2 ^ 31 /\
   parseAndEvaluate (literal_2_pow_31 ++ "-" ++ "1") = Return (2 ^ 31 - 1)).
Proof.
  split; [exact parse_binary |].
  split; [| repeat split; vm_compute; reflexivity].
  intros a b Ha Hb Hba Hbb Hva Hvb.
  pose proof (binaryValue_bounds a) as Hpa.
  pose proof (binaryValue_bounds b) as Hpb.
  assert (Ea : bin2Dec a = binaryValue a) by (apply bin2Dec_exact; [easy | lia]).
  assert (Eb : bin2Dec b = binaryValue b) by (apply bin2Dec_exact; [easy | lia]).
  assert (Hparse : forall op, isOperatorChar op = true ->
            parseAndEvaluate (a ++ String op b) =
            executeOperation (binaryValue a) (binaryValue b) op).
  { intros op Hop. rewrite <- Ea, <- Eb. apply parse_binary; try assumption; lia. }
  assert (Hquot : binaryValue b <> 0 ->
            0 <= binaryValue a / binaryValue b <= binaryValue a).
  { intros Hnz. split.
    - apply Z.div_pos; lia.
    - apply Z.div_le_upper_bound; [lia | nia]. }
  cbn [append]. repeat split.
  - intros Hsum. rewrite Hparse by reflexivity.
    change (executeOperation (binaryValue a) (binaryValue b) "+")
      with (Return (Long.add (binaryValue a) (binaryValue b))).
    unfold Long.add. rewrite wrap32_small by lia. reflexivity.
  - rewrite Hparse by reflexivity.
    change (executeOperation (binaryValue a) (binaryValue b) "-")
      with (Return (Long.sub (binaryValue a) (binaryValue b))).
    unfold Long.sub. rewrite wrap32_small by lia. reflexivity.
  - intros Hmul. rewrite Hparse by reflexivity.
    change (executeOperation (binaryValue a) (binaryValue b) "*")
      with (Return (Long.mul (binaryValue a) (binaryValue b))).
    unfold Long.mul. rewrite wrap32_small by nia. reflexivity.
  - intros Hnz. rewrite Hparse by reflexivity.
    change (executeOperation (binaryValue a) (binaryValue b) "/")
      with (if (binaryValue b =? 0)
               || ((binaryValue a =? Long.min_signed) && (binaryValue b =? -1))
            then DivByZeroUB
            else Return (Long.div (binaryValue a) (binaryValue b))).
    pose proof (Hquot Hnz).
    replace (binaryValue b =? 0) with false by (symmetry; apply Z.eqb_neq; lia).
    replace (binaryValue b =? -1) with false
      by (symmetry; apply Z.eqb_neq; lia).
    rewrite andb_false_r. cbn [orb].
    unfold Long.div. rewrite Z.quot_div_nonneg by lia.
    rewrite wrap32_small by lia. reflexivity.
  - assert (Hopen : "(" <> "") by discriminate.
    assert (Hzero : "0" <> "") by discriminate.
    change (String "(" (String "0" (String "-" (a ++ String ")" (String "/" b)))))
      with ("(" ++ "0" ++ String "-" (a ++ ")" ++ String "/" b)).
    rewrite (parse_of_tokens _ _ (append_nonempty _ _ Hopen)
               (lexify_left_parens "0" a b "-" "/" Hzero Ha Hb eq_refl Hba Hbb
                  eq_refl eq_refl)) by discriminate.
    rewrite toRPN_left_parens by reflexivity.
    rewrite evalRPN_left_grouped
      by (reflexivity || (rewrite ?Ea, ?Eb; lia) || (cbn; lia)).
    rewrite Ea, Eb. change (bin2Dec "0") with 0.
    change (executeOperation 0 (binaryValue a) "-")
      with (Return (Long.sub 0 (binaryValue a))).
    unfold thenOperation, Long.sub. rewrite wrap32_small by lia.
    replace (0 - binaryValue a =? BAD_RESULT) with false
      by (symmetry; apply Z.eqb_neq; rewrite BAD_RESULT_eq; lia).
    change (executeOperation (0 - binaryValue a) (binaryValue b) "/")
      with (if (binaryValue b =? 0)
               || ((0 - binaryValue a =? Long.min_signed)
                   && (binaryValue b =? -1))
            then DivByZeroUB
            else Return (Long.div (0 - binaryValue a) (binaryValue b))).
    pose proof (Hquot H).
    replace (binaryValue b =? 0) with false by (symmetry; apply Z.eqb_neq; lia).
    replace (binaryValue b =? -1) with false
      by (symmetry; apply Z.eqb_neq; lia).
    rewrite andb_false_r. cbn [orb].
    unfold Long.div. replace (0 - binaryValue a) with (- binaryValue a) by lia.
    rewrite Z.quot_opp_l by lia. rewrite Z.quot_div_nonneg by lia.
    rewrite wrap32_small by lia. reflexivity.
  - rewrite Z.quot_opp_l by lia. now rewrite Z.quot_div_nonneg by lia.
Qed.

Lemma two_operand_expression_evaluates_witness :
  parseAndEvaluate ("110" ++ String "/" "100") =
  executeOperation (bin2Dec "110") (bin2Dec "100") "/" /\
  parseAndEvaluate ("110" ++ "+" ++ "11") =
  Return (binaryValue "110" + binaryValue "11") /\
  parseAndEvaluate ("110" ++ "*" ++ "11") =
  Return (binaryValue "110" * binaryValue "11") /\
  parseAndEvaluate ("111" ++ "/" ++ "10") =
  Return (Z.quot (binaryValue "111") (binaryValue "10")) /\
  parseAndEvaluate ("(0-" ++ "111" ++ ")/" ++ "10") = Return (-3).
Proof.
  destruct two_operand_expression_evaluates as (Hgen & Hexact & _).
  split.
  - apply Hgen; try discriminate; reflexivity.
  - destruct (Hexact "110" "11") as (Hadd & _ & Hmul & _);
      try discriminate; try reflexivity.
    destruct (Hexact "111" "10") as (_ & _ & _ & Hdiv & Hneg);
      try discriminate; try reflexivity.
    split; [apply Hadd; reflexivity |].
    split; [apply Hmul; reflexivity |].
    split; [apply Hdiv; discriminate |].
    apply (proj1 (Hneg ltac:(discriminate))).
Defined.

(** X8: parentheses decide the grouping whatever the precedences: in
    [(a op1 b) op2 c] the first operation is done first, in
    [a op1 (b op2 c)] the second, for operands of decoded value at most
    [2^30] and any two of the four operators. *)
Theorem parentheses_override_precedence (a b c : string) (op1 op2 : ascii) :
  a <> "" -> b <> "" -> c <> "" ->
  allBinary a = true -> allBinary b = true -> allBinary c = true ->
  isOperatorChar op1 = true -> isOperatorChar op2 = true ->
  bin2Dec a <= 2 ^ 30 -> bin2Dec b <= 2 ^ 30 -> bin2Dec c <= 2 ^ 30 ->
  parseAndEvaluate ("(" ++ a ++ String op1 (b ++ ")" ++ String op2 c)) =
  thenOperation (executeOperation (bin2Dec a) (bin2Dec b) op1)
    (fun result => executeOperation result (bin2Dec c) op2)
  /\
  parseAndEvaluate (a ++ String op1 ("(" ++ b ++ String op2 (c ++ ")"))) =
  thenOperation (executeOperation (bin2Dec b) (bin2Dec c) op2)
    (fun result => executeOperation (bin2Dec a) result op1).
Proof.
  intros Ha Hb Hc Hba Hbb Hbc H1 H2 Hva Hvb Hvc. split.
  - assert (Hopen : "(" <> "") by discriminate.
    rewrite (parse_of_tokens _ _ (append_nonempty _ _ Hopen)
               (lexify_left_parens a b c op1 op2 Ha Hb Hc Hba Hbb Hbc H1 H2))
      by discriminate.
    rewrite toRPN_left_parens by assumption.
    now apply evalRPN_left_grouped.
  - rewrite (parse_of_tokens _ _ (append_nonempty _ _ Ha)
               (lexify_right_parens a b c op1 op2 Ha Hb Hc Hba Hbb Hbc H1 H2))
      by discriminate.
    rewrite toRPN_right_parens by assumption.
    now apply evalRPN_right_grouped.
Qed.

Lemma parentheses_override_precedence_witness :
  parseAndEvaluate ("(" ++ "1" ++ String "+" ("1" ++ ")" ++ String "*" "11")) =
  Return 6 /\
  parseAndEvaluate ("1000" ++ String "-" ("(" ++ "11" ++ String "-" ("10" ++ ")")))
  = Return 7.
Proof.
  destruct (parentheses_override_precedence "1" "1" "11" "+" "*")
    as [Hl _]; try discriminate; try reflexivity.
  destruct (parentheses_override_precedence "1000" "11" "10" "-" "-")
    as [_ Hr]; try discriminate; try reflexivity.
  split; [rewrite Hl | rewrite Hr]; reflexivity.
Defined.

(** ** An operator without one of its operands *)

Lemma evalRPN_operand_then_operator (v : Z) (op : ascii) :
  isOperatorChar op = true ->
  evalRPN [v; operatorCode op] [] = Return BAD_RESULT.
Proof.
  intros Hop. destruct (Z.le_gt_cases v (2 ^ 30)) as [Hle | Hgt].
  - rewrite evalRPN_operand by (cbn [List.length]; lia).
    apply evalRPN_operator_short; [assumption | cbn; lia].
  - cbn [evalRPN]. rewrite OP_OFFSET_eq.
    apply Z.lt_gt, Z.gt_lt, Z.ltb_lt in Hgt. now rewrite Hgt.
Qed.

Lemma lexify_prefix_operator (x : string) (op : ascii) :
  x <> "" -> allBinary x = true -> isOperatorChar op = true ->
  lexify (String op x) =
  [mkTokenNode (String op "") false; mkTokenNode x true].
Proof.
  intros Hx Hb Hop.
  destruct (operator_cases _ Hop) as [-> | [-> | [-> | ->]]]; lex_tokens.
Qed.

Lemma lexify_postfix_operator (x : string) (op : ascii) :
  x <> "" -> allBinary x = true -> isOperatorChar op = true ->
  lexify (x ++ String op "") =
  [mkTokenNode x true; mkTokenNode (String op "") false].
Proof.
  intros Hx Hb Hop.
  destruct (operator_cases _ Hop) as [-> | [-> | [-> | ->]]]; lex_tokens.
Qed.

Lemma toRPN_prefix_operator (x : string) (op : ascii) :
  isOperatorChar op = true ->
  toRPN [mkTokenNode (String op "") false; mkTokenNode x true] =
  [bin2Dec x; operatorCode op].
Proof.
  intros Hop.
  destruct (operator_cases _ Hop) as [-> | [-> | [-> | ->]]]; reflexivity.
Qed.

Lemma toRPN_postfix_operator (x : string) (op : ascii) :
  isOperatorChar op = true ->
  toRPN [mkTokenNode x true; mkTokenNode (String op "") false] =
  [bin2Dec x; operatorCode op].
Proof.
  intros Hop.
  destruct (operator_cases _ Hop) as [-> | [-> | [-> | ->]]]; reflexivity.
Qed.

(** X9: an operator with a single operand, before it or after it, is never
    evaluated: [op x] and [x op] give [BAD_RESULT] for each of the four
    operators and every operand, so a leading ['-'] is not a sign. *)
Theorem operator_with_one_operand_is_bad_result (x : string) (op : ascii) :
  x <> "" -> allBinary x = true -> isOperatorChar op = true ->
  parseAndEvaluate (String op x) = Return BAD_RESULT /\
  parseAndEvaluate (x ++ String op "") = Return BAD_RESULT.
Proof.
  intros Hx Hb Hop. split.
  - rewrite (parse_of_tokens _ _ (String_nonempty _ _)
               (lexify_prefix_operator x op Hx Hb Hop)) by discriminate.
    rewrite toRPN_prefix_operator by assumption.
    now apply evalRPN_operand_then_operator.
  - rewrite (parse_of_tokens _ _ (append_nonempty _ _ Hx)
               (lexify_postfix_operator x op Hx Hb Hop)) by discriminate.
    rewrite toRPN_postfix_operator by assumption.
    now apply evalRPN_operand_then_operator.
Qed.

Lemma operator_with_one_operand_is_bad_result_witness :
  parseAndEvaluate (String "-" "101") = Return BAD_RESULT /\
  parseAndEvaluate ("101" ++ String "-" "") = Return BAD_RESULT.
Proof.
  apply operator_with_one_operand_is_bad_result;
    [discriminate | reflexivity | reflexivity].
Defined.

(** ** What the validator lets through *)

Lemma digit_not_operator (c : ascii) :
  isBinaryDigit c = true -> isOperatorChar c = false.
Proof.
  unfold isBinaryDigit. intros H.
  apply orb_true_iff in H as [H | H]; apply char_eqb_eq in H; subst c;
    reflexivity.
Qed.

Lemma badTransition_to_digit (p c : ascii) :
  isBinaryDigit c = true -> char_eqb p ")" = false ->
  badTransition p c = false.
Proof.
  unfold isBinaryDigit. intros Hc Hp. unfold badTransition. rewrite Hp.
  apply orb_true_iff in Hc as [Hc | Hc]; apply char_eqb_eq in Hc; subst c;
    cbn; now rewrite !andb_false_r.
Qed.

Lemma digit_bracketDelta (c : ascii) :
  isBinaryDigit c = true -> bracketDelta c = 0 /\ char_eqb c ")" = false.
Proof.
  unfold isBinaryDigit. intros H.
  apply orb_true_iff in H as [H | H]; apply char_eqb_eq in H; subst c;
    split; reflexivity.
Qed.

(** The loop of the validator runs through a run of digits. *)
Lemma validate_loop_digits (x : string) :
  forall p, allBinary x = true -> char_eqb p ")" = false ->
            validate_loop (Some p) 0 x = true.
Proof.
  induction x as [| c rest IH]; intros p Hb Hp; [reflexivity |].
  cbn [allBinary] in Hb. apply andb_true_iff in Hb as [Hc Hrest].
  rewrite validate_loop_step.
  destruct (digit_bracketDelta _ Hc) as [Hd Hcp]. rewrite Hd.
  cbn [Z.add Z.ltb Z.compare]. rewrite (badTransition_to_digit _ _ Hc Hp).
  now apply IH.
Qed.

Lemma lastChar_digit (x : string) :
  x <> "" -> allBinary x = true -> isBinaryDigit (lastChar x) = true.
Proof.
  induction x as [| c rest IH]; intros Hne Hb; [contradiction |].
  cbn [allBinary] in Hb. apply andb_true_iff in Hb as [Hc Hrest].
  destruct rest as [| c' rest']; [exact Hc |].
  change (lastChar (String c (String c' rest')))
    with (lastChar (String c' rest')).
  apply IH; [discriminate | exact Hrest].
Qed.

(** X10: the validator and the engine disagree on a leading minus: for
    every operand [x] the text [-x] passes [isValidExpression], and
    [parseAndEvaluate] answers [BAD_RESULT] for it. *)
Theorem validator_accepts_unary_minus (x : string) :
  x <> "" -> allBinary x = true ->
  isValidExpression (String "-" x) = true /\
  parseAndEvaluate (String "-" x) = Return BAD_RESULT.
Proof.
  intros Hx Hb. split.
  - unfold isValidExpression. cbn [String.length Nat.eqb firstChar].
    change (char_eqb "-" "+" || char_eqb "-" "*" || char_eqb "-" "/")
      with false. cbv iota.
    assert (Hlast : lastChar (String "-" x) = lastChar x)
      by (destruct x; [contradiction | reflexivity]).
    rewrite Hlast, (digit_not_operator _ (lastChar_digit _ Hx Hb)).
    rewrite validate_loop_step. cbn [bracketDelta char_eqb Z.add Z.ltb].
    change (0 + bracketDelta "-" <? 0) with false. cbv iota.
    change (0 + bracketDelta "-") with 0.
    now apply validate_loop_digits.
  - rewrite (parse_of_tokens _ _ (String_nonempty _ _)
               (lexify_prefix_operator x "-" Hx Hb eq_refl)) by discriminate.
    rewrite toRPN_prefix_operator by reflexivity.
    now apply evalRPN_operand_then_operator.
Qed.

Lemma validator_accepts_unary_minus_witness :
  isValidExpression (String "-" "110") = true /\
  parseAndEvaluate (String "-" "110") = Return BAD_RESULT.
Proof.
  apply validator_accepts_unary_minus; [discriminate | reflexivity].
Defined.

(** ** The sketch computes the exact value of a safe expression *)

Section Exact.

Import Reference.

Lemma char_of_operatorCode (op : ascii) :
  isOperatorChar op = true ->
  char_of_long (Long.sub (operatorCode op) OP_OFFSET) = op.
Proof.
  intros Hop.
  destruct (operator_cases _ Hop) as [-> | [-> | [-> | ->]]]; reflexivity.
Qed.

(** An exact result that fits a [long] is the result of the sketch's
    operation. *)
Lemma executeOperation_exact (op : ascii) (lhs rhs v : Z) :
  applyOperator op lhs rhs = Ok v ->
  - 2 ^ 31 <= v < 2 ^ 31 ->
  executeOperation lhs rhs op = Return v.
Proof.
  unfold applyOperator, executeOperation. intros H Hv.
  destruct (char_eqb op "+");
    [inversion H; subst; unfold Long.add; now rewrite wrap32_small |].
  destruct (char_eqb op "-");
    [inversion H; subst; unfold Long.sub; now rewrite wrap32_small |].
  destruct (char_eqb op "*");
    [inversion H; subst; unfold Long.mul; now rewrite wrap32_small |].
  destruct (char_eqb op "/"); [| discriminate].
  destruct (rhs =? 0); [discriminate |]. cbn [orb].
  inversion H; subst.
  destruct ((lhs =? Long.min_signed) && (rhs =? -1)) eqn:E.
  - apply andb_true_iff in E as [El Er].
    apply Z.eqb_eq in El, Er. subst. cbn in Hv. lia.
  - unfold Long.div. now rewrite wrap32_small.
Qed.

Lemma evalRPN_exact (items : list RPNItem) :
  forall stack r,
    Forall validItem items ->
    evalItems items stack = Ok r ->
    safeItems items stack = true ->
    evalRPN (map encode items) stack = Return r.
Proof.
  induction items as [| item rest IH]; intros stack r Hvalid H Hsafe.
  - cbn [evalItems] in H. destruct stack as [| v [| w l]]; try discriminate.
    inversion H. reflexivity.
  - inversion Hvalid as [| ? ? Hitem Hrest]; subst.
    destruct item as [v | op]; cbn [evalItems safeItems map encode] in *.
    + apply andb_true_iff in Hsafe as [Hrange Hsafe].
      apply andb_true_iff in Hrange as [Hlo Hhi].
      apply Z.leb_le in Hlo, Hhi.
      bind_ok H. pose proof (push_sim _ _ _ E) as Hpush.
      apply push_ok in E as [-> Hlen].
      rewrite wrap32_small by lia.
      rewrite evalRPN_operand by (assumption || lia).
      now apply IH.
    + destruct stack as [| rhs [| lhs below]]; try discriminate.
      destruct (applyOperator op lhs rhs) as [v |] eqn:E; [| discriminate].
      cbn [bind] in H.
      apply andb_true_iff in Hsafe as [Hrange Hsafe].
      apply andb_true_iff in Hrange as [Hlo Hhi].
      apply Z.ltb_lt in Hlo, Hhi.
      bind_ok H. pose proof (push_sim _ _ _ E0) as Hpush.
      apply push_ok in E0 as [-> Hlen].
      rewrite evalRPN_operator by exact Hitem.
      rewrite (executeOperation_exact _ _ _ _ E) by lia.
      assert (Hne : (v =? BAD_RESULT) = false)
        by (apply Z.eqb_neq; rewrite BAD_RESULT_eq; lia).
      rewrite Hne, Hpush. now apply IH.
Qed.

End Exact.

(** X11: the sketch agrees with exact arithmetic on every safe expression:
    when the exact evaluation with tagged items succeeds with the value
    [r], no operand is above [2^30] and every intermediate result lies
    strictly between [- 2^31] and [2^31], [parseAndEvaluate] returns
    [r]. *)
Theorem safe_expression_evaluates_exactly (expr : string)
  (items : list Reference.RPNItem) (r : Z) :
  Reference.translate (lexify expr) = Reference.Ok items ->
  Reference.evalItems items [] = Reference.Ok r ->
  safeItems items [] = true ->
  parseAndEvaluate expr = Return r.
Proof.
  intros Htr Hev Hsafe.
  destruct (lexify expr) as [| t ts] eqn:Elex.
  { cbn in Htr. inversion Htr; subst. discriminate. }
  assert (Hne : expr <> "") by (intros ->; discriminate).
  rewrite (parse_of_tokens _ _ Hne Elex) by discriminate.
  rewrite (toRPN_sim _ _ Htr).
  apply evalRPN_exact; try assumption.
  apply (translate_items _ _ Htr).
Qed.

Lemma safe_expression_evaluates_exactly_witness :
  parseAndEvaluate "(101+11)*10-1100/(1+10)" = Return 12.
Proof.
  eapply safe_expression_evaluates_exactly;
    [vm_compute; reflexivity | vm_compute; reflexivity | vm_compute; reflexivity].
Defined.

(** ** The decimal text of the input buffer *)

Lemma flushTemp_prefix (prefix converted temp : string) :
  flushTemp (prefix ++ converted) temp = prefix ++ flushTemp converted temp.
Proof.
  unfold flushTemp. destruct (0 <? String.length temp)%nat; [| reflexivity].
  now rewrite append_assoc.
Qed.

(** What is already converted stays in front. *)
Lemma convertBCD_loop_prefix (s : string) :
  forall prefix converted temp,
    convertBCD_loop s (prefix ++ converted) temp =
    (prefix ++ fst (convertBCD_loop s converted temp),
     snd (convertBCD_loop s converted temp)).
Proof.
  induction s as [| c rest IH]; intros prefix converted temp.
  - reflexivity.
  - cbn [convertBCD_loop]. destruct (char_eqb c "0" || char_eqb c "1").
    + apply IH.
    + rewrite flushTemp_prefix, append_assoc. apply IH.
Qed.

Lemma convertBCD_loop_app (a b : string) :
  forall converted temp,
    convertBCD_loop (a ++ b) converted temp =
    convertBCD_loop b (fst (convertBCD_loop a converted temp))
                      (snd (convertBCD_loop a converted temp)).
Proof.
  induction a as [| c a IH]; intros converted temp; [reflexivity |].
  cbn [append convertBCD_loop].
  destruct (char_eqb c "0" || char_eqb c "1"); apply IH.
Qed.

Lemma convertBCD_unfold (s : string) :
  convertBCD s =
  flushTemp (fst (convertBCD_loop s "" "")) (snd (convertBCD_loop s "" "")).
Proof. unfold convertBCD. now destruct (convertBCD_loop s "" ""). Qed.

(** X12: [convertBCD] converts the parts between separators one by one:
    for every character [c] that is not a binary digit, the text of
    [a ++ c ++ b] is the text of [a], then [c], then the text of [b]. *)
Theorem convertBCD_splits_at_separator (a b : string) (c : ascii) :
  isBinaryDigit c = false ->
  convertBCD (a ++ String c b) = convertBCD a ++ String c (convertBCD b).
Proof.
  intros Hc. rewrite (convertBCD_unfold (a ++ String c b)).
  rewrite convertBCD_loop_app. cbn [convertBCD_loop].
  unfold isBinaryDigit in Hc. rewrite Hc.
  rewrite <- convertBCD_unfold.
  rewrite <- (append_nil_r (convertBCD a ++ String c "")).
  rewrite convertBCD_loop_prefix. cbn [fst snd].
  rewrite flushTemp_prefix, <- convertBCD_unfold.
  now rewrite append_assoc.
Qed.

Lemma convertBCD_splits_at_separator_witness :
  convertBCD ("101" ++ String "+" "11") =
  convertBCD "101" ++ String "+" (convertBCD "11").
Proof.
  apply convertBCD_splits_at_separator. reflexivity.
Defined.

Lemma convertBCD_loop_digits (x : string) :
  forall converted temp,
    allBinary x = true ->
    convertBCD_loop x converted temp = (converted, temp ++ x).
Proof.
  induction x as [| c rest IH]; intros converted temp Hb.
  - cbn. now rewrite append_nil_r.
  - cbn [allBinary] in Hb. apply andb_true_iff in Hb as [Hc Hrest].
    cbn [convertBCD_loop]. unfold isBinaryDigit in Hc. rewrite Hc.
    rewrite IH by assumption. now rewrite append_assoc.
Qed.

(** X13: for an input that is one operand, [convertBCD] gives the decimal
    text of its binary value when that value is below [2^31], and the
    text of [LONG_MAX], ["2147483647"], for every larger one; the empty
    input gives the empty text. *)
Theorem convertBCD_operand :
  convertBCD "" = "" /\
  (forall x, x <> "" -> allBinary x = true -> binaryValue x < 2 ^ 31 ->
             convertBCD x = String_of_long (binaryValue x)) /\
  (forall x, allBinary x = true -> 2 ^ 31 <= binaryValue x ->
             convertBCD x = "2147483647").
Proof.
  split; [reflexivity |].
  assert (Hconv : forall x, x <> "" -> allBinary x = true ->
            convertBCD x = String_of_long (strtol_base2 x)).
  { intros x Hne Hb. rewrite convertBCD_unfold, convertBCD_loop_digits by easy.
    cbn [fst snd append]. unfold flushTemp.
    destruct x; [contradiction | reflexivity]. }
  split.
  - intros x Hne Hb Hlt. rewrite Hconv by assumption.
    unfold strtol_base2, Long.max_signed. cbv zeta.
    destruct (binaryValue x <=? 2 ^ 31 - 1) eqn:E; [reflexivity |].
    apply Z.leb_gt in E. lia.
  - intros x Hb Hge.
    assert (Hne : x <> "") by (intros ->; cbn in Hge; lia).
    rewrite Hconv by assumption.
    unfold strtol_base2, Long.max_signed. cbv zeta.
    destruct (binaryValue x <=? 2 ^ 31 - 1) eqn:E; [| reflexivity].
    apply Z.leb_le in E. lia.
Qed.

Lemma convertBCD_operand_witness :
  convertBCD "1100" = String_of_long (binaryValue "1100") /\
  convertBCD (literal_2_pow_31 ++ "1") = "2147483647".
Proof.
  destruct convertBCD_operand as (_ & Hsmall & Hlarge). split.
  - apply Hsmall; [discriminate | reflexivity | reflexivity].
  - apply Hlarge; [reflexivity | vm_compute; discriminate].
Defined.

(** ** The input buffer under the buttons *)

Lemma firstChar_append (s : string) (c : ascii) :
  s <> "" -> firstChar (s ++ String c "") = firstChar s.
Proof. destruct s; [contradiction | reflexivity]. Qed.

Lemma lastChar_cons (a : ascii) (s : string) :
  s <> "" -> lastChar (String a s) = lastChar s.
Proof. destruct s; [contradiction | reflexivity]. Qed.

Lemma noDigitThenOpen_append (s : string) (c : ascii) :
  noDigitThenOpen (s ++ String c "") =
  noDigitThenOpen s && negb (isBinaryDigit (lastChar s) && char_eqb c "(").
Proof.
  induction s as [| a rest IH].
  - cbn. now rewrite andb_false_r.
  - cbn [append noDigitThenOpen]. rewrite IH.
    destruct rest as [| b rest'].
    + cbn. now rewrite !andb_true_r, andb_false_r.
    + rewrite firstChar_append by discriminate.
      rewrite (lastChar_cons a) by discriminate.
      now rewrite andb_assoc.
Qed.

Lemma noDigitThenOpen_removeLast (s : string) :
  noDigitThenOpen s = true -> noDigitThenOpen (removeLast s) = true.
Proof.
  induction s as [| a rest IH]; intros H; [reflexivity |].
  destruct rest as [| b rest']; [reflexivity |].
  cbn [noDigitThenOpen] in H. apply andb_true_iff in H as [Ha Hrest].
  change (removeLast (String a (String b rest')))
    with (String a (removeLast (String b rest'))).
  cbn [noDigitThenOpen]. rewrite (IH Hrest), andb_true_r.
  destruct rest' as [| b' rest''].
  - cbn. now rewrite andb_false_r.
  - exact Ha.
Qed.

Lemma lastChar_append_char (s : string) (c : ascii) :
  lastChar (s ++ String c "") = c.
Proof. apply lastChar_append. Qed.

(** One key keeps the buffer free of a digit followed by ['(']. *)
Lemma handleButtonPress_noDigitThenOpen (button : ascii)
  (input input' : string) (printed : list event) :
  noDigitThenOpen input = true ->
  handleButtonPress button input = Some (input', printed) ->
  noDigitThenOpen input' = true.
Proof.
  intros Hinv H. unfold handleButtonPress in H.
  destruct (char_eqb button "B").
  { inversion H; subst.
    destruct (0 <? String.length input)%nat;
      [now apply noDigitThenOpen_removeLast | exact Hinv]. }
  destruct (char_eqb button "C"); [inversion H; reflexivity |].
  destruct (char_eqb button "(") eqn:Eopen.
  { apply char_eqb_eq in Eopen. subst button. cbv zeta in H.
    fold (isBinaryDigit (lastChar input)) in H.
    inversion H; subst; clear H. rewrite noDigitThenOpen_append.
    destruct (0 <? String.length input)%nat eqn:Elen.
    - destruct (isBinaryDigit (lastChar input)) eqn:Elast.
      + rewrite noDigitThenOpen_append, Hinv, lastChar_append_char, Elast.
        reflexivity.
      + rewrite Hinv, Elast. reflexivity.
    - destruct input; [reflexivity | discriminate Elen]. }
  destruct (char_eqb button "=").
  { destruct (parseAndEvaluate input); [| discriminate].
    inversion H; reflexivity. }
  inversion H; subst. rewrite noDigitThenOpen_append, Hinv, Eopen.
  now rewrite andb_false_r.
Qed.

Lemma typeKeys_noDigitThenOpen (keys : string) :
  forall input input',
    noDigitThenOpen input = true ->
    typeKeys keys input = Some input' ->
    noDigitThenOpen input' = true.
Proof.
  induction keys as [| key rest IH]; intros input input' Hinv H.
  - inversion H; subst. exact Hinv.
  - cbn [typeKeys] in H.
    destruct (handleButtonPress key input) as [[input1 printed] |] eqn:E;
      [| discriminate].
    eapply IH; [| exact H].
    eapply handleButtonPress_noDigitThenOpen; eassumption.
Qed.

Lemma noDigitThenOpen_adjacent (s : string) (a : ascii) :
  noDigitThenOpen s = true -> isBinaryDigit a = true -> ~ adjacent a "(" s.
Proof.
  intros Hinv Ha (front & back & ->).
  induction front as [| c front IH].
  - cbn in Hinv. rewrite Ha in Hinv. discriminate.
  - cbn [append noDigitThenOpen] in Hinv.
    apply andb_true_iff in Hinv as [_ Hinv]. now apply IH.
Qed.

(** X14: whatever keys are pressed, starting from the empty buffer, the
    buffer never holds a binary digit immediately followed by ['(']: the
    handler puts a ['*'] between them.  The shape the validator rejects as
    an operand followed by ['('] cannot be typed. *)
Theorem typed_buffer_has_no_digit_before_open (keys input : string) :
  typeKeys keys "" = Some input ->
  noDigitThenOpen input = true /\
  forall a, isBinaryDigit a = true -> ~ adjacent a "(" input.
Proof.
  intros H.
  assert (Hinv : noDigitThenOpen input = true)
    by (eapply typeKeys_noDigitThenOpen; [| exact H]; reflexivity).
  split; [exact Hinv |].
  intros a Ha. now apply noDigitThenOpen_adjacent.
Qed.

Lemma typed_buffer_has_no_digit_before_open_witness :
  noDigitThenOpen "10*(1+1*(" = true /\
  forall a, isBinaryDigit a = true -> ~ adjacent a "(" "10*(1+1*(".
Proof.
  apply (typed_buffer_has_no_digit_before_open "10(1+1B1(").
  reflexivity.
Defined.

Lemma removeLast_append (s : string) (c : ascii) :
  removeLast (s ++ String c "") = s.
Proof.
  induction s as [| a rest IH]; [reflexivity |].
  cbn [append]. destruct rest as [| b rest'].
  - reflexivity.
  - change (removeLast (String a (String b rest' ++ String c "")))
      with (String a (removeLast (String b rest' ++ String c ""))).
    now rewrite IH.
Qed.

(** A key that is none of ['B'], ['C'], ['('], ['='] is appended. *)
Lemma handleButtonPress_ordinary (key : ascii) (input : string) :
  char_eqb key "B" = false -> char_eqb key "C" = false ->
  char_eqb key "(" = false -> char_eqb key "=" = false ->
  handleButtonPress key input =
  Some (input ++ String key "",
        updateDisplay (convertBCD (input ++ String key ""))).
Proof.
  intros HB HC Hopen Heq. unfold handleButtonPress.
  now rewrite HB, HC, Hopen, Heq.
Qed.

Lemma digit_is_ordinary (c : ascii) :
  isBinaryDigit c = true ->
  char_eqb c "B" = false /\ char_eqb c "C" = false /\
  char_eqb c "(" = false /\ char_eqb c "=" = false.
Proof.
  unfold isBinaryDigit. intros H.
  apply orb_true_iff in H as [H | H]; apply char_eqb_eq in H; subst c;
    repeat split.
Qed.

Lemma typeKeys_digits (x : string) :
  forall rest input,
    allBinary x = true ->
    typeKeys (x ++ rest) input = typeKeys rest (input ++ x).
Proof.
  induction x as [| c x IH]; intros rest input Hb.
  - cbn. now rewrite append_nil_r.
  - cbn [allBinary] in Hb. apply andb_true_iff in Hb as [Hc Hx].
    destruct (digit_is_ordinary _ Hc) as (HB & HC & Hopen & Heq).
    cbn [append typeKeys].
    rewrite handleButtonPress_ordinary by assumption.
    rewrite IH by assumption.
    now rewrite append_assoc.
Qed.

Lemma lastChar_append_nonempty (a b : string) :
  b <> "" -> lastChar (a ++ b) = lastChar b.
Proof.
  intros Hb. induction a as [| c a IH]; [reflexivity |].
  cbn [append]. rewrite lastChar_cons; [exact IH |].
  destruct a; [exact Hb | discriminate].
Qed.

(** ['('] after a digit: a ['*'] goes in first. *)
Lemma handleButtonPress_open_after_digit (input : string) :
  input <> "" -> isBinaryDigit (lastChar input) = true ->
  handleButtonPress "(" input =
  Some (input ++ "*(", updateDisplay (convertBCD (input ++ "*("))).
Proof.
  intros Hne Hlast. unfold handleButtonPress.
  change (char_eqb "(" "B") with false. change (char_eqb "(" "C") with false.
  change (char_eqb "(" "(") with true. cbv iota zeta.
  fold (isBinaryDigit (lastChar input)). rewrite Hlast.
  destruct input; [contradiction |].
  cbn [String.length Nat.ltb Nat.leb]. cbv iota.
  now rewrite !append_assoc.
Qed.

Lemma handleButtonPress_open_otherwise (input : string) :
  isBinaryDigit (lastChar input) = false ->
  handleButtonPress "(" input =
  Some (input ++ "(", updateDisplay (convertBCD (input ++ "("))).
Proof.
  intros Hlast. unfold handleButtonPress.
  change (char_eqb "(" "B") with false. change (char_eqb "(" "C") with false.
  change (char_eqb "(" "(") with true. cbv iota zeta.
  fold (isBinaryDigit (lastChar input)). rewrite Hlast.
  destruct (0 <? String.length input)%nat; reflexivity.
Qed.

Lemma handleButtonPress_backspace (input : string) (c : ascii) :
  handleButtonPress "B" (input ++ String c "") =
  Some (input, updateDisplay (convertBCD input)).
Proof.
  unfold handleButtonPress. change (char_eqb "B" "B") with true.
  cbv iota zeta. rewrite removeLast_append.
  destruct input; reflexivity.
Qed.

(** X15: backspace after a key.  A key other than ['B'], ['C'], ['('],
    ['='] followed by backspace leaves the buffer as it was, and so does
    ['('] after anything but a digit; ['('] after a digit followed by
    backspace leaves the inserted ['*'] behind.  Backspace on the empty
    buffer does nothing. *)
Theorem backspace_after_key :
  (forall key input,
     char_eqb key "B" = false -> char_eqb key "C" = false ->
     char_eqb key "(" = false -> char_eqb key "=" = false ->
     typeKeys (String key "B") input = Some input) /\
  (forall input,
     isBinaryDigit (lastChar input) = false ->
     typeKeys "(B" input = Some input) /\
  (forall input,
     input <> "" -> isBinaryDigit (lastChar input) = true ->
     typeKeys "(B" input = Some (input ++ "*")) /\
  typeKeys "B" "" = Some "".
Proof.
  split; [| split; [| split; [| reflexivity]]].
  - intros key input HB HC Hopen Heq. cbn [typeKeys].
    rewrite handleButtonPress_ordinary by assumption.
    now rewrite handleButtonPress_backspace.
  - intros input Hlast. cbn [typeKeys].
    rewrite handleButtonPress_open_otherwise by assumption.
    now rewrite handleButtonPress_backspace.
  - intros input Hne Hlast. cbn [typeKeys].
    rewrite handleButtonPress_open_after_digit by assumption.
    change (input ++ "*(") with (input ++ String "*" (String "(" "")).
    replace (input ++ String "*" (String "(" ""))
      with ((input ++ "*") ++ String "(" "") by now rewrite append_assoc.
    now rewrite handleButtonPress_backspace.
Qed.

Lemma backspace_after_key_witness :
  typeKeys (String "+" "B") "10" = Some "10" /\
  typeKeys "(B" "10+" = Some "10+" /\
  typeKeys "(B" "10" = Some ("10" ++ "*").
Proof.
  destruct backspace_after_key as (Hkey & Hopen & Hdigit & _).
  split; [apply Hkey; reflexivity |].
  split; [apply Hopen; reflexivity |].
  apply Hdigit; [discriminate | reflexivity].
Defined.

(** What ['='] prints for a result. *)
Lemma handleButtonPress_equals (input : string) (r : Z) :
  parseAndEvaluate input = Return r ->
  exists printed,
    handleButtonPress "=" input = Some ("", printed) /\
    serialLines printed "" = [resultLine r].
Proof.
  intros H. unfold handleButtonPress.
  change (char_eqb "=" "B") with false. change (char_eqb "=" "C") with false.
  change (char_eqb "=" "(") with false. change (char_eqb "=" "=") with true.
  cbv iota. rewrite H. eexists. split; [reflexivity |].
  unfold resultLine. destruct (r =? BAD_RESULT); reflexivity.
Qed.

Lemma lexify_product (a b : string) :
  a <> "" -> b <> "" -> allBinary a = true -> allBinary b = true ->
  lexify (a ++ "*(" ++ b ++ ")") =
  [mkTokenNode a true; mkTokenNode "*" false; mkTokenNode "(" false;
   mkTokenNode b true; mkTokenNode ")" false].
Proof. intros Ha Hb Hba Hbb. lex_tokens. Qed.

(** X16: typing [a ( b )] on the empty buffer leaves [a*(b)] in it, the
    handler having put the ['*'] in; ['='] then empties the buffer and
    prints the line of the product of the two operands (in 32-bit
    arithmetic), for operands of decoded value at most [2^30]. *)
Theorem typed_operand_before_parenthesis_multiplies (a b : string) :
  a <> "" -> b <> "" -> allBinary a = true -> allBinary b = true ->
  bin2Dec a <= 2 ^ 30 -> bin2Dec b <= 2 ^ 30 ->
  typeKeys (a ++ "(" ++ b ++ ")") "" = Some (a ++ "*(" ++ b ++ ")") /\
  exists printed,
    handleButtonPress "=" (a ++ "*(" ++ b ++ ")") = Some ("", printed) /\
    serialLines printed "" =
    [resultLine (Long.mul (bin2Dec a) (bin2Dec b))].
Proof.
  intros Ha Hb Hba Hbb Hva Hvb. split.
  - rewrite typeKeys_digits by assumption. cbn [append typeKeys].
    rewrite handleButtonPress_open_after_digit
      by (assumption || now apply lastChar_digit).
    rewrite (typeKeys_digits b (String ")" "")) by assumption.
    cbn [typeKeys].
    rewrite handleButtonPress_ordinary by reflexivity.
    now rewrite !append_assoc.
  - apply handleButtonPress_equals.
    rewrite (parse_of_tokens _ _ (append_nonempty _ _ Ha)
               (lexify_product a b Ha Hb Hba Hbb)) by discriminate.
    change (toRPN [mkTokenNode a true; mkTokenNode "*" false;
                   mkTokenNode "(" false; mkTokenNode b true;
                   mkTokenNode ")" false])
      with [bin2Dec a; bin2Dec b; operatorCode "*"].
    rewrite !evalRPN_operand by (cbn [List.length]; lia).
    now rewrite evalRPN_last_operator.
Qed.

Lemma typed_operand_before_parenthesis_multiplies_witness :
  typeKeys ("11" ++ "(" ++ "10" ++ ")") "" = Some ("11" ++ "*(" ++ "10" ++ ")")
  /\
  exists printed,
    handleButtonPress "=" ("11" ++ "*(" ++ "10" ++ ")") = Some ("", printed) /\
    serialLines printed "" =
    [resultLine (Long.mul (bin2Dec "11") (bin2Dec "10"))].
Proof.
  apply typed_operand_before_parenthesis_multiplies;
    try discriminate; reflexivity.
Defined.

(** ** Button edges in the main loop *)

Lemma nth_error_setNth_same {T : Type} (a : list T) :
  forall i x y, nth_error a i = Some y -> nth_error (setNth i x a) i = Some x.
Proof.
  induction a as [| z a IH]; intros i x y H.
  - destruct i; discriminate.
  - destruct i as [| i]; [reflexivity |]. cbn in *. eapply IH; eassumption.
Qed.

Lemma nth_error_setNth_other {T : Type} (a : list T) :
  forall i j x, i <> j -> nth_error (setNth i x a) j = nth_error a j.
Proof.
  induction a as [| z a IH]; intros i j x Hne.
  - destruct i; reflexivity.
  - destruct i as [| i], j as [| j]; try reflexivity; [contradiction |].
    cbn. apply IH. congruence.
Qed.

Lemma setNth_unchanged {T : Type} (a : list T) :
  forall i x, nth_error a i = Some x -> setNth i x a = a.
Proof.
  induction a as [| z a IH]; intros i x H.
  - destruct i; reflexivity.
  - destruct i as [| i]; cbn in *.
    + now inversion H.
    + now rewrite IH.
Qed.

(** A pass over buttons whose remembered levels are the current ones does
    nothing. *)
Lemma scanButtons_no_edge (buttons : list (nat * ascii)) (low : nat -> bool) :
  forall st events,
    (forall pin sym, In (pin, sym) buttons ->
                     nth_error (previousStates st) pin = Some (low pin)) ->
    scanButtons buttons low st events = Some (st, events).
Proof.
  induction buttons as [| [pin sym] rest IH]; intros st events Hsync.
  - reflexivity.
  - cbn [scanButtons]. unfold isButtonPressed.
    rewrite (Hsync pin sym (or_introl eq_refl)). cbv zeta.
    rewrite andb_negb_r, (setNth_unchanged _ _ _ (Hsync pin sym (or_introl eq_refl))).
    destruct st as [states input]. cbn [previousStates userInput] in *.
    apply IH. intros p s Hin. apply (Hsync p s). now right.
Qed.

(** After a pass, the remembered level of every button is its current
    level, and levels that were already remembered stay so. *)
Lemma scanButtons_remembers (buttons : list (nat * ascii))
  (low : nat -> bool) :
  forall st events st1 events1,
    scanButtons buttons low st events = Some (st1, events1) ->
    (forall pin sym, In (pin, sym) buttons ->
                     nth_error (previousStates st1) pin = Some (low pin)) /\
    (forall p, nth_error (previousStates st) p = Some (low p) ->
               nth_error (previousStates st1) p = Some (low p)).
Proof.
  induction buttons as [| [pin sym] rest IH];
    intros st events st1 events1 H.
  - inversion H; subst. split; [contradiction | auto].
  - cbn [scanButtons] in H. unfold isButtonPressed in H.
    destruct (nth_error (previousStates st) pin) as [previous |] eqn:Epin;
      [| discriminate].
    cbv zeta in H.
    assert (Hset : forall p,
               p = pin \/ nth_error (previousStates st) p = Some (low p) ->
               nth_error (setNth pin (low pin) (previousStates st)) p =
               Some (low p)).
    { intros p [-> | Hp].
      - eapply nth_error_setNth_same. exact Epin.
      - destruct (Nat.eq_dec pin p) as [-> | Hne].
        + eapply nth_error_setNth_same. exact Epin.
        + now rewrite nth_error_setNth_other. }
    destruct (low pin && negb previous).
    + destruct (handleButtonPress sym (userInput st)) as [[input printed] |];
        [| discriminate].
      apply IH in H. cbn [previousStates] in H. destruct H as [Hrest Hkeep].
      split.
      * intros p s [Heq | Hin].
        -- inversion Heq; subst. apply Hkeep, Hset. now left.
        -- now apply (Hrest p s).
      * intros p Hp. apply Hkeep, Hset. now right.
    + apply IH in H. cbn [previousStates] in H. destruct H as [Hrest Hkeep].
      split.
      * intros p s [Heq | Hin].
        -- inversion Heq; subst. apply Hkeep, Hset. now left.
        -- now apply (Hrest p s).
      * intros p Hp. apply Hkeep, Hset. now right.
Qed.

(** X17: a button that is held down types only once.  When a pass of
    [loop] with no serial input is followed by a pass with the same pin
    levels, the second pass changes nothing and prints nothing. *)
Theorem held_buttons_type_once (low : nat -> bool) (st st1 : sketch_state)
  (events : list event) :
  loop None low st = Some (st1, events) ->
  loop None low st1 = Some (st1, []).
Proof.
  unfold loop. intros H.
  apply scanButtons_remembers in H. destruct H as [Hsync _].
  now apply scanButtons_no_edge.
Qed.

Lemma held_buttons_type_once_witness :
  let low := fun pin => Nat.eqb pin 3 in
  let st1 := mkSketchState (setNth 3 true initialPreviousStates) "1" in
  loop None low st1 = Some (st1, []).
Proof.
  cbv zeta.
  eapply (held_buttons_type_once _ (mkSketchState initialPreviousStates "")).
  reflexivity.
Defined.

(** X18: the wiring of the buttons.  From the state in which no button was
    down, with only the pin [pins[i]] low, a pass of [loop] appends the
    character [buttonSymbols[i]] to the buffer and prints the new
    expression line, for every button but ['('], ['='] and ['B']. *)
Theorem button_press_types_its_symbol (i pin : nat) (sym : ascii)
  (input : string) :
  nth_error pins i = Some pin ->
  nth_error buttonSymbols i = Some sym ->
  char_eqb sym "(" = false -> char_eqb sym "=" = false ->
  char_eqb sym "B" = false ->
  loop None (fun p => Nat.eqb p pin) (mkSketchState initialPreviousStates input)
  = Some (mkSketchState (setNth pin true initialPreviousStates)
            (input ++ String sym ""),
          (updateDisplay (convertBCD (input ++ String sym ""))
           ++ [DelayMs 300])%list).
Proof.
  intros Hpin Hsym Hopen Heq Hback.
  do 10 (destruct i as [| i];
         [cbn in Hpin, Hsym; inversion Hpin; inversion Hsym; subst;
          try discriminate; reflexivity |]).
  destruct i; discriminate.
Qed.

Lemma button_press_types_its_symbol_witness :
  loop None (fun p => Nat.eqb p 6) (mkSketchState initialPreviousStates "10")
  = Some (mkSketchState (setNth 6 true initialPreviousStates)
            ("10" ++ String "+" ""),
          (updateDisplay (convertBCD ("10" ++ String "+" ""))
           ++ [DelayMs 300])%list).
Proof.
  apply (button_press_types_its_symbol 4); reflexivity.
Defined.

(** ** Decimal text back to binary text *)

Lemma convertBCD_single (x : string) :
  x <> "" -> allBinary x = true ->
  convertBCD x = String_of_long (strtol_base2 x).
Proof.
  intros Hne Hb. rewrite convertBCD_unfold, convertBCD_loop_digits by easy.
  cbn [fst snd append]. unfold flushTemp.
  destruct x; [contradiction | reflexivity].
Qed.

Lemma binaryOfPositive_spec (p : positive) :
  allBinary (binaryOfPositive p) = true /\
  binaryValue (binaryOfPositive p) = Zpos p /\
  exists rest, binaryOfPositive p = String "1" rest.
Proof.
  induction p as [p (Hb & Hv & rest & Hrest) | p (Hb & Hv & rest & Hrest) |];
    cbn [binaryOfPositive].
  - rewrite allBinary_app, binaryValue_app, Hb, Hv, Hrest.
    repeat split; [cbn; lia | now exists (rest ++ "1")].
  - rewrite allBinary_app, binaryValue_app, Hb, Hv, Hrest.
    repeat split; [cbn; lia | now exists (rest ++ "0")].
  - repeat split. now exists "".
Qed.

Lemma uint_digits (d : Decimal.uint) :
  forallChars isdigit (NilEmpty.string_of_uint d) = true.
Proof. induction d; cbn [NilEmpty.string_of_uint forallChars]; auto. Qed.

(** The decimal text of a number that is not negative: digits only, not
    empty, and read back by [strtol] as the number. *)
Lemma String_of_long_nonneg (v : Z) :
  0 <= v <= Long.max_signed ->
  forallChars isdigit (String_of_long v) = true /\
  String_of_long v <> "" /\
  strtol_base10 (String_of_long v) = v.
Proof.
  intros Hv. unfold String_of_long.
  pose proof (DecimalZ.of_to v) as Hof.
  destruct (Z.to_int v) as [d | d] eqn:Ed.
  - cbn [NilZero.string_of_int].
    assert (Hd : d <> Decimal.Nil).
    { destruct v as [| p | p]; cbn in Ed; inversion Ed; subst;
        [discriminate | apply DecimalPos.Unsigned.to_uint_nonnil]. }
    assert (Hs : NilZero.string_of_uint d = NilEmpty.string_of_uint d)
      by (destruct d; [contradiction | reflexivity ..]).
    rewrite Hs. split; [apply uint_digits |]. split.
    + destruct d; [contradiction | discriminate ..].
    + unfold strtol_base10. rewrite NilEmpty.usu. cbv zeta.
      cbn [Z.of_int] in Hof. rewrite Hof.
      destruct (v <=? Long.max_signed) eqn:E; [reflexivity |].
      apply Z.leb_gt in E. lia.
  - destruct v; cbn in Ed; try discriminate. lia.
Qed.

Lemma convertToBinary_loop_digits (x : string) :
  forall binaryStr temp,
    forallChars isdigit x = true ->
    convertToBinary_loop x binaryStr temp = (binaryStr, temp ++ x).
Proof.
  induction x as [| c rest IH]; intros binaryStr temp Hd.
  - cbn. now rewrite append_nil_r.
  - cbn [forallChars] in Hd. apply andb_true_iff in Hd as [Hc Hrest].
    cbn [convertToBinary_loop]. rewrite Hc, IH by assumption.
    now rewrite append_assoc.
Qed.

Lemma convertToBinary_unfold (s : string) :
  convertToBinary s =
  flushDecimal (fst (convertToBinary_loop s "" ""))
               (snd (convertToBinary_loop s "" "")).
Proof. unfold convertToBinary. now destruct (convertToBinary_loop s "" ""). Qed.

(** X19: the two conversions undo each other on an operand, up to leading
    zeros.  For a binary operand of value below [2^31], converting to
    decimal and back gives the binary text of the same value, with no
    zero in front unless it is ["0"]. *)
Theorem convertToBinary_of_convertBCD (x : string) :
  x <> "" -> allBinary x = true -> binaryValue x < 2 ^ 31 ->
  convertToBinary (convertBCD x) = String_of_long_BIN (binaryValue x) /\
  allBinary (convertToBinary (convertBCD x)) = true /\
  binaryValue (convertToBinary (convertBCD x)) = binaryValue x /\
  (convertToBinary (convertBCD x) = "0" \/
   exists rest, convertToBinary (convertBCD x) = String "1" rest).
Proof.
  intros Hne Hb Hlt. pose proof (binaryValue_bounds x) as Hpos.
  assert (Hstr : strtol_base2 x = binaryValue x).
  { unfold strtol_base2, Long.max_signed. cbv zeta.
    destruct (binaryValue x <=? 2 ^ 31 - 1) eqn:E; [reflexivity |].
    apply Z.leb_gt in E. lia. }
  assert (Hrange : 0 <= binaryValue x <= Long.max_signed)
    by (unfold Long.max_signed; lia).
  destruct (String_of_long_nonneg _ Hrange) as (Hdig & Hnonempty & Hback).
  assert (Hconv : convertToBinary (convertBCD x) =
                  String_of_long_BIN (binaryValue x)).
  { rewrite convertBCD_single, Hstr by assumption.
    rewrite convertToBinary_unfold, convertToBinary_loop_digits by assumption.
    cbn [fst snd append]. unfold flushDecimal. rewrite Hback.
    destruct (String_of_long (binaryValue x)); [contradiction | reflexivity]. }
  rewrite Hconv. split; [reflexivity |].
  unfold String_of_long_BIN.
  destruct (binaryValue x <? 0) eqn:E; [apply Z.ltb_lt in E; lia |].
  destruct (binaryValue x) as [| p | p]; [| | lia].
  - repeat split. now left.
  - destruct (binaryOfPositive_spec p) as (Hbp & Hvp & Hhead).
    repeat split; [exact Hbp | exact Hvp | now right].
Qed.

Lemma convertToBinary_of_convertBCD_witness :
  convertToBinary (convertBCD "00110") = String_of_long_BIN (binaryValue "00110")
  /\ allBinary (convertToBinary (convertBCD "00110")) = true
  /\ binaryValue (convertToBinary (convertBCD "00110")) = binaryValue "00110"
  /\ (convertToBinary (convertBCD "00110") = "0" \/
      exists rest, convertToBinary (convertBCD "00110") = String "1" rest).
Proof.
  apply convertToBinary_of_convertBCD;
    [discriminate | reflexivity | reflexivity].
Defined.

Lemma flushDecimal_prefix (prefix binaryStr temp : string) :
  flushDecimal (prefix ++ binaryStr) temp = prefix ++ flushDecimal binaryStr temp.
Proof.
  unfold flushDecimal. destruct (0 <? String.length temp)%nat; [| reflexivity].
  now rewrite append_assoc.
Qed.

Lemma convertToBinary_loop_prefix (s : string) :
  forall prefix binaryStr temp,
    convertToBinary_loop s (prefix ++ binaryStr) temp =
    (prefix ++ fst (convertToBinary_loop s binaryStr temp),
     snd (convertToBinary_loop s binaryStr temp)).
Proof.
  induction s as [| c rest IH]; intros prefix binaryStr temp.
  - reflexivity.
  - cbn [convertToBinary_loop]. destruct (isdigit c).
    + apply IH.
    + rewrite flushDecimal_prefix, append_assoc. apply IH.
Qed.

Lemma convertToBinary_loop_app (a b : string) :
  forall binaryStr temp,
    convertToBinary_loop (a ++ b) binaryStr temp =
    convertToBinary_loop b (fst (convertToBinary_loop a binaryStr temp))
                           (snd (convertToBinary_loop a binaryStr temp)).
Proof.
  induction a as [| c a IH]; intros binaryStr temp; [reflexivity |].
  cbn [append convertToBinary_loop]. destruct (isdigit c); apply IH.
Qed.

(** X20: [convertToBinary] converts the parts between separators one by
    one: for every character [c] that is not a decimal digit, the text of
    [a ++ c ++ b] is the text of [a], then [c], then the text of [b]. *)
Theorem convertToBinary_splits_at_separator (a b : string) (c : ascii) :
  isdigit c = false ->
  convertToBinary (a ++ String c b) =
  convertToBinary a ++ String c (convertToBinary b).
Proof.
  intros Hc. rewrite (convertToBinary_unfold (a ++ String c b)).
  rewrite convertToBinary_loop_app. cbn [convertToBinary_loop]. rewrite Hc.
  rewrite <- convertToBinary_unfold.
  rewrite <- (append_nil_r (convertToBinary a ++ String c "")).
  rewrite convertToBinary_loop_prefix. cbn [fst snd].
  rewrite flushDecimal_prefix, <- convertToBinary_unfold.
  now rewrite append_assoc.
Qed.

Lemma convertToBinary_splits_at_separator_witness :
  convertToBinary ("5" ++ String "+" "3") =
  convertToBinary "5" ++ String "+" (convertToBinary "3").
Proof.
  apply convertToBinary_splits_at_separator. reflexivity.
Defined.

(** ** A full output queue *)

(** Every element changes the depth by one, up or down. *)
Lemma netCode_parity (queue : list Z) :
  exists k, netCode queue = Z.of_nat (List.length queue) - 2 * k.
Proof.
  induction queue as [| token rest [k Hk]].
  - exists 0. reflexivity.
  - cbn [netCode List.length]. rewrite Nat2Z.inj_succ, Hk.
    destruct (OP_OFFSET <? token); [exists (k + 1) | exists k]; lia.
Qed.

(** X21: an output queue that is full never evaluates to a number: when
    the translation of the tokens fills all 64 places of the queue (the
    only state in which [enqueue] drops an element), the result is
    [BAD_RESULT] or a division by zero. *)
Theorem full_queue_is_never_a_number (tokens : list TokenNode) :
  List.length (toRPN tokens) = 64%nat ->
  interpretTokens tokens = Return BAD_RESULT \/
  interpretTokens tokens = DivByZeroUB.
Proof.
  intros Hfull. apply outcome_cases. intros r Hr.
  destruct (Z.eq_dec r BAD_RESULT) as [| Hne]; [assumption | exfalso].
  unfold interpretTokens in Hr.
  apply evalRPN_depth in Hr; [| cbn [List.length]; lia | exact Hne].
  destruct (netCode_parity (toRPN tokens)) as [k Hk].
  rewrite Hk, Hfull in Hr. cbn [List.length] in Hr. lia.
Qed.

Lemma full_queue_is_never_a_number_witness :
  let expr := "1" ++ concat "" (repeat "+1" 32) in
  interpretTokens (lexify expr) = Return BAD_RESULT \/
  interpretTokens (lexify expr) = DivByZeroUB.
Proof.
  cbv zeta. apply full_queue_is_never_a_number. vm_compute. reflexivity.
Defined.

(** ** C7: a capacity bound that is hit *)

(** Operators and ['('] are stored above the operator offset, so each of
    them lowers the depth of the queue by one. *)
Lemma netCode_app (a b : list Z) : netCode (a ++ b) = netCode a + netCode b.
Proof.
  induction a as [| x a IH]; cbn [app netCode]; [lia | rewrite IH; lia].
Qed.

Lemma netCode_le_length (queue : list Z) :
  netCode queue <= Z.of_nat (List.length queue).
Proof.
  induction queue as [| token rest IH]; cbn [netCode List.length]; [lia |].
  destruct (OP_OFFSET <? token); lia.
Qed.

Lemma stacked_code_above_offset (c : ascii) :
  c = "("%char \/ isOperatorChar c = true ->
  (OP_OFFSET <? operatorCode c) = true.
Proof.
  intros [-> | H]; [reflexivity | now apply operatorCode_above_offset].
Qed.

Lemma enqueue_cases {T : Type} (item : T) (q : list T) :
  ((List.length q < 64)%nat /\ ArduinoQueue.enqueue item q = (q ++ [item])%list
   /\ enqueueRefused q = false) \/
  ((64 <= List.length q)%nat /\ ArduinoQueue.enqueue item q = q
   /\ enqueueRefused q = true).
Proof.
  unfold ArduinoQueue.enqueue, enqueueRefused, ArduinoQueue.capacity.
  destruct (List.length q <? 64)%nat eqn:E.
  - left. apply Nat.ltb_lt in E. auto.
  - right. apply Nat.ltb_ge in E. auto.
Qed.

Lemma push_cases {T : Type} (item : T) (s : list T) :
  ((List.length s < 64)%nat /\ SimpleStack.push item s = item :: s
   /\ pushRefused s = false) \/
  ((64 <= List.length s)%nat /\ SimpleStack.push item s = s
   /\ pushRefused s = true).
Proof.
  unfold SimpleStack.push, pushRefused, SimpleStack.capacity.
  destruct (List.length s <? 64)%nat eqn:E.
  - left. apply Nat.ltb_lt in E. auto.
  - right. apply Nat.ltb_ge in E. auto.
Qed.

Lemma transfers_nothing (operatorStack : list ascii) (outputQueue : list Z) :
  translating (operatorStack, outputQueue) ->
  transfers operatorStack outputQueue (operatorStack, outputQueue) false.
Proof.
  intros H. unfold transfers. cbn [fst snd].
  repeat split; solve [apply H | lia | discriminate].
Qed.

Lemma transfers_top (topOp : ascii) (below : list ascii)
  (outputQueue : list Z) (st' : shunt_state) (refused : bool) :
  topOp = "("%char \/ isOperatorChar topOp = true ->
  (List.length outputQueue <= 64)%nat ->
  transfers below (ArduinoQueue.enqueue (operatorCode topOp) outputQueue)
    st' refused ->
  transfers (topOp :: below) outputQueue st'
    (enqueueRefused outputQueue || refused).
Proof.
  intros Htop Hq (Hst & Hlen & Hsum & Hexact & Href).
  destruct Hst as [Hgood [Hs' Hq']].
  unfold transfers, translating, withinCapacity.
  destruct (enqueue_cases (operatorCode topOp) outputQueue)
    as [(Hlt & Eq & ->) | (Hge & Eq & ->)]; rewrite Eq in *; cbn [orb].
  - rewrite length_app in *. rewrite netCode_app in Hexact.
    cbn [netCode] in Hexact.
    rewrite (stacked_code_above_offset _ Htop) in Hexact.
    cbn [List.length] in *.
    repeat split; solve [assumption | lia].
  - cbn [List.length]. repeat split; solve [assumption | lia].
Qed.

Lemma popUntilOpen_transfers (operatorStack : list ascii) :
  Reference.goodStack operatorStack ->
  forall outputQueue,
    (List.length operatorStack <= 64)%nat ->
    (List.length outputQueue <= 64)%nat ->
    transfers operatorStack outputQueue
      (popUntilOpen operatorStack outputQueue)
      (popUntilOpen_refused operatorStack outputQueue).
Proof.
  induction 1 as [| topOp below Htop Hbelow IH]; intros q Hs Hq.
  - apply transfers_nothing. repeat split; [constructor | cbn; lia | exact Hq].
  - cbn [popUntilOpen popUntilOpen_refused].
    destruct (negb (char_eqb topOp "(")).
    + apply transfers_top; [assumption | assumption |].
      apply IH; [cbn [List.length] in Hs; lia | now apply enqueue_bounded].
    + apply transfers_nothing.
      repeat split; [now constructor | exact Hs | exact Hq].
Qed.

Lemma popHigher_transfers (currentOp : ascii) (operatorStack : list ascii) :
  Reference.goodStack operatorStack ->
  forall outputQueue,
    (List.length operatorStack <= 64)%nat ->
    (List.length outputQueue <= 64)%nat ->
    transfers operatorStack outputQueue
      (popHigher currentOp operatorStack outputQueue)
      (popHigher_refused currentOp operatorStack outputQueue).
Proof.
  induction 1 as [| topOp below Htop Hbelow IH]; intros q Hs Hq.
  - apply transfers_nothing. repeat split; [constructor | cbn; lia | exact Hq].
  - cbn [popHigher popHigher_refused].
    destruct (negb (char_eqb topOp "(") &&
              (getOperatorPrecedence currentOp
               <=? getOperatorPrecedence topOp)).
    + apply transfers_top; [assumption | assumption |].
      apply IH; [cbn [List.length] in Hs; lia | now apply enqueue_bounded].
    + apply transfers_nothing.
      repeat split; [now constructor | exact Hs | exact Hq].
Qed.

Lemma drainOperators_transfers (operatorStack : list ascii) :
  Reference.goodStack operatorStack ->
  forall outputQueue,
    (List.length operatorStack <= 64)%nat ->
    (List.length outputQueue <= 64)%nat ->
    transfers operatorStack outputQueue
      ([], drainOperators operatorStack outputQueue)
      (drainOperators_refused operatorStack outputQueue).
Proof.
  induction 1 as [| poppedOp below Htop Hbelow IH]; intros q Hs Hq.
  - apply transfers_nothing. repeat split; [constructor | cbn; lia | exact Hq].
  - cbn [drainOperators drainOperators_refused].
    apply transfers_top; [assumption | assumption |].
    apply IH; [cbn [List.length] in Hs; lia | now apply enqueue_bounded].
Qed.

Lemma symbol_token_cases (tok : TokenNode) :
  wellFormedToken tok = true -> isBinary tok = false ->
  firstChar (tokenValue tok) = "("%char \/
  firstChar (tokenValue tok) = ")"%char \/
  isOperatorChar (firstChar (tokenValue tok)) = true.
Proof.
  unfold wellFormedToken. intros Hwf Hbin. rewrite Hbin in Hwf.
  destruct (tokenValue tok) as [| c [| d rest]]; try discriminate.
  cbn [firstChar]. unfold isSymbolChar in Hwf. unfold isOperatorChar.
  destruct (char_eqb c "(") eqn:E1; [left; now apply char_eqb_eq |].
  destruct (char_eqb c ")") eqn:E2; [right; left; now apply char_eqb_eq |].
  right. right. exact Hwf.
Qed.

Lemma operator_not_paren (op : ascii) :
  isOperatorChar op = true ->
  char_eqb op "(" = false /\ char_eqb op ")" = false.
Proof.
  intros H. destruct (operator_cases op H) as [-> | [-> | [-> | ->]]];
    split; reflexivity.
Qed.

(** Closes the side conditions on lengths and flags. *)
Ltac capacity_arith :=
  intros; first [assumption | discriminate | lia | solve [auto]].

Lemma shuntToken_effect (st : shunt_state) (tok : TokenNode) :
  translating st -> wellFormedToken tok = true ->
  let st' := shuntToken st tok in
  translating st' /\
  (List.length (snd st) <= List.length (snd st'))%nat /\
  (List.length (snd st') + List.length (fst st')
   <= List.length (snd st) + List.length (fst st) + 1)%nat /\
  (List.length (snd st') = 64%nat \/
   netCode (snd st') - Z.of_nat (List.length (fst st'))
   <= netCode (snd st) - Z.of_nat (List.length (fst st)) + 1) /\
  (queueRefuses st tok = true -> List.length (snd st') = 64%nat) /\
  (stackRefuses st tok = true -> List.length (fst st') = 64%nat) /\
  (stackRefuses st tok = false -> closeUnmatched st tok = false ->
   List.length (snd st') = 64%nat \/
   (List.length (snd st') + List.length (fst st') =
    List.length (snd st) + List.length (fst st) + 1)%nat \/
   (List.length (snd st') + List.length (fst st') + 1 =
    List.length (snd st) + List.length (fst st))%nat).
Proof.
  destruct st as [s q]. intros [Hgood [Hs Hq]] Hwf. cbn [fst snd] in *.
  cbv zeta. unfold shuntToken, queueRefuses, stackRefuses, closeUnmatched,
    translating, withinCapacity.
  destruct (isBinary tok) eqn:Hbin.
  - destruct (enqueue_cases (bin2Dec (tokenValue tok)) q)
      as [(Hlt & Eq & ->) | (Hge & Eq & ->)]; rewrite Eq; cbn [fst snd].
    + rewrite length_app, netCode_app. cbn [netCode List.length].
      destruct (OP_OFFSET <? bin2Dec (tokenValue tok));
        repeat split; capacity_arith.
    + repeat split; capacity_arith.
  - destruct (symbol_token_cases tok Hwf Hbin) as [E | [E | E]].
    + rewrite E. change (char_eqb "(" "(") with true. cbv iota.
      assert (Hgood' : Reference.goodStack ("("%char :: s))
        by (constructor; [now left | exact Hgood]).
      destruct (push_cases "("%char s) as [(Hlt & Eq & ->) | (Hge & Eq & ->)];
        rewrite Eq; cbn [fst snd List.length];
        repeat split; capacity_arith.
    + rewrite E. change (char_eqb ")" "(") with false.
      change (char_eqb ")" ")") with true. cbv iota.
      pose proof (popUntilOpen_transfers s Hgood q Hs Hq) as H.
      destruct (popUntilOpen s q) as [s' q'].
      destruct H as ([Hgood' [Hs' Hq']] & Hlen & Hsum & Hexact & Href).
      cbn [fst snd] in *.
      destruct s' as [| top below];
        cbn [SimpleStack.pop_ SimpleStack.pop SimpleStack.isEmpty fst snd
             List.length] in *.
      * repeat split; capacity_arith.
      * assert (Hbelow : Reference.goodStack below)
          by (now inversion Hgood').
        repeat split; capacity_arith.
    + destruct (operator_not_paren _ E) as [E1 E2]. rewrite E1, E2.
      pose proof (popHigher_transfers (firstChar (tokenValue tok)) s Hgood
                    q Hs Hq) as H.
      destruct (popHigher (firstChar (tokenValue tok)) s q) as [s' q'].
      destruct H as ([Hgood' [Hs' Hq']] & Hlen & Hsum & Hexact & Href).
      cbn [fst snd] in *.
      assert (Hgood'' : Reference.goodStack (firstChar (tokenValue tok) :: s'))
        by (constructor; [now right | exact Hgood']).
      destruct (push_cases (firstChar (tokenValue tok)) s')
        as [(Hlt & Eq & ->) | (Hge & Eq & ->)];
        rewrite Eq; cbn [fst snd List.length];
        repeat split; capacity_arith.
Qed.

Lemma rpnFrom_cons (tok : TokenNode) (rest : list TokenNode)
  (st : shunt_state) :
  rpnFrom (tok :: rest) st = rpnFrom rest (shuntToken st tok).
Proof. reflexivity. Qed.

Lemma toRPN_rpnFrom (tokens : list TokenNode) :
  toRPN tokens = rpnFrom tokens ([], []).
Proof. reflexivity. Qed.

Lemma translating_start : translating ([], []).
Proof. repeat split; [constructor | cbn; lia | cbn; lia]. Qed.

(** The queue to evaluate is full, or its depth is bounded by what the
    state holds and the number of tokens to come. *)
Lemma rpnFrom_depth (tokens : list TokenNode) :
  Forall (fun tok => wellFormedToken tok = true) tokens ->
  forall st,
    translating st ->
    (List.length (snd st) <= List.length (rpnFrom tokens st) <= 64)%nat /\
    (List.length (rpnFrom tokens st) = 64%nat \/
     netCode (rpnFrom tokens st)
     <= netCode (snd st) - Z.of_nat (List.length (fst st))
        + Z.of_nat (List.length tokens)).
Proof.
  induction 1 as [| tok rest Hwf _ IH]; intros st Hst.
  - destruct st as [s q]. destruct Hst as [Hgood [Hs Hq]].
    cbn [fst snd] in *.
    destruct (drainOperators_transfers s Hgood q Hs Hq)
      as ([_ [_ Hq']] & Hlen & Hsum & Hexact & _).
    unfold rpnFrom. cbn [fold_left fst snd List.length] in *. lia.
  - rewrite rpnFrom_cons.
    destruct (shuntToken_effect st tok Hst Hwf)
      as (Hst' & Hlen & Hsum & Hpot & _).
    destruct (IH _ Hst') as [Hbound Hdepth].
    cbn [List.length]. lia.
Qed.

(** When no [push] is refused and every [')'] finds its ['('], the queue
    to evaluate is full or differs by an even number from what the state
    holds and the tokens to come. *)
Lemma rpnFrom_parity (tokens : list TokenNode) :
  Forall (fun tok => wellFormedToken tok = true) tokens ->
  forall st,
    translating st ->
    sometime stackRefuses tokens st = false ->
    sometime closeUnmatched tokens st = false ->
    List.length (rpnFrom tokens st) = 64%nat \/
    exists k : nat,
      (List.length (rpnFrom tokens st) + 2 * k =
       List.length (snd st) + List.length (fst st) + List.length tokens)%nat.
Proof.
  induction 1 as [| tok rest Hwf Hrest IH]; intros st Hst Hpush Hclose.
  - destruct st as [s q]. destruct Hst as [Hgood [Hs Hq]].
    cbn [fst snd] in *.
    destruct (drainOperators_transfers s Hgood q Hs Hq)
      as ([_ [_ Hq']] & Hlen & Hsum & Hexact & _).
    unfold rpnFrom. cbn [fold_left fst snd List.length] in *.
    destruct Hexact as [Hfull | [_ Hcount]]; [now left | right].
    exists 0%nat. lia.
  - rewrite rpnFrom_cons. cbn [sometime] in Hpush, Hclose.
    apply orb_false_iff in Hpush as [Hpush Hpush'].
    apply orb_false_iff in Hclose as [Hclose Hclose'].
    destruct (shuntToken_effect st tok Hst Hwf)
      as (Hst' & Hlen & _ & _ & _ & _ & Hparity).
    specialize (Hparity Hpush Hclose).
    destruct (rpnFrom_depth rest Hrest _ Hst') as [Hbound _].
    destruct (IH _ Hst' Hpush' Hclose') as [Hfull | [k Hk]]; [now left |].
    destruct Hparity as [Hfull | [Hup | Hdown]].
    + left. lia.
    + right. exists k. cbn [List.length]. lia.
    + right. exists (S k). cbn [List.length]. lia.
Qed.

(** A refused [enqueue] leaves a full queue to evaluate. *)
Lemma rpnFrom_queue_refused (tokens : list TokenNode) :
  Forall (fun tok => wellFormedToken tok = true) tokens ->
  forall st,
    translating st ->
    queueOverflowsFrom tokens st = true ->
    List.length (rpnFrom tokens st) = 64%nat.
Proof.
  induction 1 as [| tok rest Hwf Hrest IH]; intros st Hst Hover.
  - destruct st as [s q]. destruct Hst as [Hgood [Hs Hq]].
    cbn [fst snd queueOverflowsFrom] in *.
    destruct (drainOperators_transfers s Hgood q Hs Hq)
      as (_ & _ & _ & _ & Href).
    exact (Href Hover).
  - rewrite rpnFrom_cons. cbn [queueOverflowsFrom] in Hover.
    destruct (shuntToken_effect st tok Hst Hwf)
      as (Hst' & _ & _ & _ & Hqueue & _).
    apply orb_true_iff in Hover as [Hover | Hover]; [| now apply IH].
    specialize (Hqueue Hover).
    destruct (rpnFrom_depth rest Hrest _ Hst') as [Hbound _]. lia.
Qed.

(** A refused [push] on the operator stack, with at most 100 tokens in
    all, leaves a queue to evaluate that is full or has no positive
    depth. *)
Lemma rpnFrom_stack_refused (tokens : list TokenNode) :
  Forall (fun tok => wellFormedToken tok = true) tokens ->
  forall st,
    translating st ->
    (List.length (snd st) + List.length (fst st) + List.length tokens
     <= 100)%nat ->
    sometime stackRefuses tokens st = true ->
    List.length (rpnFrom tokens st) = 64%nat \/
    netCode (rpnFrom tokens st) <= 0.
Proof.
  induction 1 as [| tok rest Hwf Hrest IH]; intros st Hst Hcount Hover;
    [discriminate |].
  rewrite rpnFrom_cons. cbn [sometime List.length] in Hover, Hcount.
  destruct (shuntToken_effect st tok Hst Hwf)
    as (Hst' & _ & Hsum & _ & _ & Hstack & _).
  apply orb_true_iff in Hover as [Hover | Hover].
  - specialize (Hstack Hover).
    destruct (rpnFrom_depth rest Hrest _ Hst') as [_ [Hfull | Hdepth]];
      [now left | right].
    pose proof (netCode_le_length (snd (shuntToken st tok))). lia.
  - apply IH; [exact Hst' | lia | exact Hover].
Qed.

(** A queue within its 64 places whose depth is not one does not
    evaluate to a number. *)
Lemma evalRPN_other_depth (queue : list Z) :
  (List.length queue <= 64)%nat -> netCode queue <> 1 ->
  evalRPN queue [] = Return BAD_RESULT \/ evalRPN queue [] = DivByZeroUB.
Proof.
  intros Hcap Hdepth. apply outcome_cases. intros r Hr.
  destruct (Z.eq_dec r BAD_RESULT) as [| Hne]; [assumption | exfalso].
  apply evalRPN_depth in Hr; [| cbn [List.length]; lia | exact Hne].
  cbn [List.length] in Hr. lia.
Qed.

Lemma evalRPN_even_length (queue : list Z) (k : nat) :
  (List.length queue <= 64)%nat ->
  (List.length queue = 2 * k)%nat ->
  evalRPN queue [] = Return BAD_RESULT \/ evalRPN queue [] = DivByZeroUB.
Proof.
  intros Hcap Heven. apply evalRPN_other_depth; [exact Hcap |].
  destruct (netCode_parity queue) as [j Hj]. lia.
Qed.

(** The evaluation stack is never full when [evalRPN] pushes: it holds at
    most as many values as elements have left the queue. *)
Lemma evaluationStack_has_room (queue : list Z) :
  forall stack,
    (List.length stack + List.length queue <= 64)%nat ->
    evaluationStackOverflows queue stack = false.
Proof.
  induction queue as [| token rest IH]; intros stack Hcap; [reflexivity |].
  cbn [evaluationStackOverflows List.length] in *.
  destruct (OP_OFFSET <? token).
  - destruct stack as [| y [| x below]]; try reflexivity.
    destruct (executeOperation x y (char_of_long (Long.sub token OP_OFFSET)))
      as [result |]; [| reflexivity].
    destruct (result =? BAD_RESULT); [reflexivity |].
    cbn [List.length] in Hcap.
    destruct (push_cases result below) as [(Hlt & Eq & ->) | (Hge & _)];
      [| lia].
    rewrite Eq. cbn [orb]. apply IH. cbn [List.length]. lia.
  - destruct (push_cases token stack) as [(Hlt & Eq & ->) | (Hge & _)];
      [| lia].
    rewrite Eq. cbn [orb]. apply IH. cbn [List.length]. lia.
Qed.

Lemma lexify_length (expr : string) :
  (List.length (lexify expr) <= TOKEN_CAP)%nat.
Proof. rewrite lexify_tokenize. apply firstn_le_length. Qed.

Lemma parse_lexify (expr : string) :
  lexify expr <> [] ->
  parseAndEvaluate expr = evalRPN (toRPN (lexify expr)) [].
Proof.
  intros Htok. apply parse_of_tokens; [| reflexivity | exact Htok].
  intros ->. now apply Htok.
Qed.

Lemma evalRPN_full_queue (queue : list Z) :
  List.length queue = 64%nat ->
  evalRPN queue [] = Return BAD_RESULT \/ evalRPN queue [] = DivByZeroUB.
Proof.
  intros Hfull. apply (evalRPN_even_length queue 32); lia.
Qed.

(** C7: a capacity bound that is hit is not always reported.  At the input
    of 102 tokens ["1+1"], 97 times [')'], ["+1"] the lexer keeps the
    first 100 tokens, no container overflows, and the engine returns the
    number 2: the closing parentheses it keeps find no ['('], which the
    translation does not notice.  That is the only way: an input of more
    than 100 tokens whose kept [')'] all find their ['('], an input with
    an [enqueue] refused by the full output queue and an input with a
    [push] refused by the full operator stack all end in [BAD_RESULT] or
    in a division that is not defined, and the evaluation stack never
    refuses a [push]. *)
Theorem capacity_hit_unreported_after_unmatched_close :
  (let head := "1+1" ++ repeatChar ")" 97 in
   let expr := head ++ "+1" in
   (TOKEN_CAP < List.length (tokenize expr))%nat /\
   lexify expr = lexify head /\
   outputQueueOverflows (lexify expr) = false /\
   operatorStackOverflows (lexify expr) = false /\
   closeWithoutOpen (lexify expr) = true /\
   parseAndEvaluate expr = Return 2) /\
  (forall expr,
     (TOKEN_CAP < List.length (tokenize expr))%nat ->
     closeWithoutOpen (lexify expr) = false ->
     parseAndEvaluate expr = Return BAD_RESULT \/
     parseAndEvaluate expr = DivByZeroUB) /\
  (forall expr,
     outputQueueOverflows (lexify expr) = true ->
     parseAndEvaluate expr = Return BAD_RESULT \/
     parseAndEvaluate expr = DivByZeroUB) /\
  (forall expr,
     operatorStackOverflows (lexify expr) = true ->
     parseAndEvaluate expr = Return BAD_RESULT \/
     parseAndEvaluate expr = DivByZeroUB) /\
  (forall expr,
     evaluationStackOverflows (toRPN (lexify expr)) [] = false).
Proof.
  assert (Hwf : forall expr,
            Forall (fun tok => wellFormedToken tok = true) (lexify expr)).
  { intros expr. rewrite lexify_tokenize.
    apply Forall_firstn, tokenize_wellFormed. }
  split; [| split; [| split; [| split]]].
  - cbv zeta. repeat split; try (vm_compute; reflexivity).
    vm_compute. lia.
  - intros expr Hcap Hclose.
    assert (Hlen : List.length (lexify expr) = 100%nat).
    { rewrite lexify_tokenize, length_firstn. unfold TOKEN_CAP in *. lia. }
    assert (Htok : lexify expr <> []).
    { intros E. rewrite E in Hlen. discriminate. }
    rewrite (parse_lexify _ Htok), toRPN_rpnFrom.
    destruct (rpnFrom_depth _ (Hwf expr) _ translating_start) as [Hbound _].
    destruct (sometime stackRefuses (lexify expr) ([], [])) eqn:Hstack.
    + destruct (rpnFrom_stack_refused _ (Hwf expr) _ translating_start)
        as [Hfull | Hdepth];
        [cbn [fst snd List.length]; lia | exact Hstack
        | now apply evalRPN_full_queue
        | apply evalRPN_other_depth; lia].
    + destruct (rpnFrom_parity _ (Hwf expr) _ translating_start Hstack Hclose)
        as [Hfull | [k Hk]]; [now apply evalRPN_full_queue |].
      cbn [fst snd List.length] in Hk.
      apply (evalRPN_even_length _ (50 - k)); lia.
  - intros expr Hover.
    assert (Htok : lexify expr <> []).
    { intros E. rewrite E in Hover. discriminate. }
    rewrite (parse_lexify _ Htok), toRPN_rpnFrom.
    apply evalRPN_full_queue.
    exact (rpnFrom_queue_refused _ (Hwf expr) _ translating_start Hover).
  - intros expr Hover.
    assert (Htok : lexify expr <> []).
    { intros E. rewrite E in Hover. discriminate. }
    rewrite (parse_lexify _ Htok), toRPN_rpnFrom.
    destruct (rpnFrom_depth _ (Hwf expr) _ translating_start) as [Hbound _].
    pose proof (lexify_length expr) as Hlen. unfold TOKEN_CAP in Hlen.
    destruct (rpnFrom_stack_refused _ (Hwf expr) _ translating_start)
      as [Hfull | Hdepth];
      [cbn [fst snd List.length]; lia | exact Hover
      | now apply evalRPN_full_queue
      | apply evalRPN_other_depth; lia].
  - intros expr. apply evaluationStack_has_room.
    pose proof (toRPN_bounded (lexify expr)). cbn [List.length]. lia.
Qed.

(** Three inputs that hit one bound each: 101 tokens in 50 nested
    parentheses, a sum of 33 operands whose 65 elements do not fit the
    queue, and 65 opening parentheses. *)
Lemma capacity_hit_unreported_after_unmatched_close_witness :
  let nested := repeatChar "(" 50 ++ "1" ++ repeatChar ")" 50 in
  let sum := "1" ++ concat "" (repeat "+1" 32) in
  let opened := repeatChar "(" 65 ++ "1" ++ repeatChar ")" 10 in
  (parseAndEvaluate nested = Return BAD_RESULT \/
   parseAndEvaluate nested = DivByZeroUB) /\
  (parseAndEvaluate sum = Return BAD_RESULT \/
   parseAndEvaluate sum = DivByZeroUB) /\
  (parseAndEvaluate opened = Return BAD_RESULT \/
   parseAndEvaluate opened = DivByZeroUB).
Proof.
  cbv zeta.
  destruct capacity_hit_unreported_after_unmatched_close
    as (_ & Htokens & Hqueue & Hstack & _).
  split; [| split].
  - apply Htokens; [vm_compute; lia | vm_compute; reflexivity].
  - apply Hqueue. vm_compute. reflexivity.
  - apply Hstack. vm_compute. reflexivity.
Defined.
